(** * DataMind AI: media codecs, error classifier, poller, countdown, chat and
      to-do reducers

    A shallow embedding of the TypeScript sources
    ([services/audioUtils], [services/errorUtils], [components/VideoGenerator],
    [components/VoiceGenerator], [components/Chatbot], [components/TodoManager],
    [components/ImageGenerator])
    together with the properties the specification states about them and
    further properties of the same code.

    Conventions.
    - A [Uint8Array] is a [list byte], the list of its elements; where the
      code looks at the buffer under the array it is the view
      ([AudioUtils.Uint8Array]). A JavaScript string is a [string] of 8-bit
      code units (which is exact for the binary strings handled by
      [atob]/[btoa] and for the ASCII literals of the sources).
    - A JavaScript [number] that the sources use as an integer is a [Z], and
      the arithmetic on it rounds as the doubles do ([round_double]); the
      wrap-around of the typed-array and [DataView] stores is written out.
      The quotients the PCM decoder computes are rationals.
    - Code that can throw returns a [result]; [Throw] carries the exception.
    - An [async] function is cut at its [await]: the part up to the remote
      call, and the part that runs when the call has settled, with what it
      settled with as an argument. Where nothing can happen in between that
      matters to the property, the two parts are run in one step. The state
      of a component (its React state, its refs, and the interval timers of
      the window it owns) is a record passed through.
    - What the platform or the parent component provides ([JSON.parse],
      [process.env.API_KEY], the callbacks of the parent, the polled service,
      the audio context) is a parameter.

    The first part holds the models, module by source file; the second part
    the properties. *)

From Stdlib Require Import ZArith QArith Qround Lia.
From Stdlib Require Import Ascii Strings.Byte.
From Stdlib Require String.
From stdpp Require Import base tactics option list strings pretty gmap.

Local Open Scope Z_scope.

(** ** JavaScript exceptions as an error monad *)

Inductive exn : Type :=
| TypeError
| RangeError
| SyntaxError
| InvalidCharacterError
| NotSupportedError
| IndexSizeError
| JsError (message : string).

Inductive result (A : Type) : Type :=
| Ok (a : A)
| Throw (e : exn).
Arguments Ok {A} a.
Arguments Throw {A} e.

#[global] Instance result_ret : MRet result := fun A a => Ok a.
#[global] Instance result_bind : MBind result := fun A B f m =>
  match m with
  | Ok a => f a
  | Throw e => Throw e
  end.
#[global] Instance result_fmap : FMap result := fun A B f m =>
  match m with
  | Ok a => Ok (f a)
  | Throw e => Throw e
  end.

(** ** Numbers

    A JavaScript number is an IEEE 754 double. Every integer up to 2^53 in
    magnitude is a double; beyond, the doubles are the integers with 53
    significant bits. [round_double z] is the double nearest to the integer
    [z], the one with the even significand when two are equally near, as the
    arithmetic of the language rounds; from 2^1024 on it stands for an
    infinity. *)
Definition round_double (z : Z) : Z :=
  let a := Z.abs z in
  if a <=? 2 ^ 53 then z
  else
    let e := Z.log2 a - 52 in
    let q := a / 2 ^ e in
    let r := a mod 2 ^ e in
    let half := 2 ^ (e - 1) in
    let q' :=
      if ((half <? r) || ((r =? half) && Z.odd q))%bool then q + 1 else q in
    Z.sgn z * (q' * 2 ^ e).

(** The integers that are numbers of the language. *)
Definition is_double (z : Z) : Prop :=
  round_double z = z /\ Z.abs z < 2 ^ 1024.

(** The number an operation gives whose exact result is the integer [z];
    [None] is a number that is not finite. *)
Definition double_of (z : Z) : option Z :=
  let d := round_double z in
  if Z.abs d <? 2 ^ 1024 then Some d else None.

(** [a * b] on numbers that are integers or not finite: a product with a
    factor that is not finite is not finite (an infinity or [NaN]). *)
Definition number_mul (a b : option Z) : option Z :=
  a ← a; b ← b; double_of (a * b).

(** The integer a [DataView] store makes of a number before it reduces it to
    its slot: 0 for a number that is not finite. *)
Definition integer_of (v : option Z) : Z := default 0 v.

(** ** Bytes *)

(** The store of a number into a [Uint8Array] slot or by [setUint8]: the value
    modulo 256. *)
Definition byte_of_Z (z : Z) : byte :=
  default x00 (Byte.of_N (Z.to_N (z mod 256))).

Definition Z_of_byte (b : byte) : Z := Z.of_N (Byte.to_N b).

(** [str.charCodeAt(i)] and [String.fromCharCode(c)] on 8-bit code units. *)
Definition charCode (a : ascii) : Z := Z.of_N (N_of_ascii a).
Definition fromCharCode (b : byte) : ascii := ascii_of_byte b.

Definition chars (s : string) : list ascii := String.list_ascii_of_string s.

(** White space and line terminators among the 8-bit code units. *)
Definition is_js_whitespace (c : ascii) : bool :=
  let n := N_of_ascii c in
  ((n =? 9) || (n =? 10) || (n =? 11) || (n =? 12) || (n =? 13) || (n =? 32)
   || (n =? 160))%N.

(** [s.trimStart()], [s.trimEnd()] and [s.trim()]. *)
Fixpoint skip_whitespace (s : string) : string :=
  match s with
  | String c rest => if is_js_whitespace c then skip_whitespace rest else s
  | EmptyString => EmptyString
  end.

Fixpoint trim_end (s : string) : string :=
  match s with
  | EmptyString => EmptyString
  | String c rest =>
      let rest' := trim_end rest in
      if is_js_whitespace c && String.eqb rest' "" then EmptyString
      else String c rest'
  end.

Definition trim (s : string) : string := trim_end (skip_whitespace s).

(** * services/audioUtils *)

Module AudioUtils.

(** *** [DataView] stores *)

(** [view.setUint8(byteOffset, v)]: [RangeError] outside the buffer. *)
Definition setUint8 (view : list byte) (byteOffset : nat) (v : Z)
  : result (list byte) :=
  if (byteOffset + 1 <=? length view)%nat
  then Ok (<[byteOffset := byte_of_Z v]> view)
  else Throw RangeError.

(** The [k]-th byte (from the least significant) of the unsigned [w]-byte
    value stored for [v]. *)
Definition stored_byte (w : nat) (v : Z) (k : nat) : byte :=
  byte_of_Z ((v mod 2 ^ (8 * Z.of_nat w)) / 2 ^ (8 * Z.of_nat k)).

Definition store_bytes (w : nat) (v : Z) (littleEndian : bool) : list byte :=
  let le := stored_byte w v <$> seq 0 w in
  if littleEndian then le else reverse le.

(** Writes [bs] at [byteOffset], byte after byte. *)
Fixpoint write_at (view : list byte) (byteOffset : nat) (bs : list byte)
  : list byte :=
  match bs with
  | [] => view
  | b :: bs' => write_at (<[byteOffset := b]> view) (S byteOffset) bs'
  end.

(** [view.setUint16(byteOffset, v, littleEndian)]. *)
Definition setUint16 (view : list byte) (byteOffset : nat) (v : Z)
    (littleEndian : bool) : result (list byte) :=
  if (byteOffset + 2 <=? length view)%nat
  then Ok (write_at view byteOffset (store_bytes 2 v littleEndian))
  else Throw RangeError.

(** [view.setUint32(byteOffset, v, littleEndian)]. *)
Definition setUint32 (view : list byte) (byteOffset : nat) (v : Z)
    (littleEndian : bool) : result (list byte) :=
  if (byteOffset + 4 <=? length view)%nat
  then Ok (write_at view byteOffset (store_bytes 4 v littleEndian))
  else Throw RangeError.

(** [function writeString(view, offset, str)]: the loop over
    [i = 0 .. str.length - 1] with [view.setUint8(offset + i, str.charCodeAt(i))];
    [i] is carried as the running offset. *)
Fixpoint writeString_loop (view : list byte) (offset : nat) (str : list ascii)
  : result (list byte) :=
  match str with
  | [] => Ok view
  | c :: rest =>
      view' ← setUint8 view offset (charCode c);
      writeString_loop view' (S offset) rest
  end.

Definition writeString (view : list byte) (offset : nat) (str : string)
  : result (list byte) :=
  writeString_loop view offset (chars str).

(** [typedArray.set(source, offset)]: [RangeError] when the source does not
    fit, otherwise the bytes are copied as they are. *)
Definition typed_set (target source : list byte) (offset : nat)
  : result (list byte) :=
  if (offset + length source <=? length target)%nat
  then Ok (take offset target ++ source
             ++ drop (offset + length source) target)
  else Throw RangeError.

Record Blob : Type := mkBlob { blob_bytes : list byte; blob_type : string }.

(** [export function createWavBlob(pcmData, sampleRate, numChannels)], for a
    sample rate and a channel count that are integers; their products are
    the products of doubles. *)
Definition createWavBlob (pcmData : list byte) (sampleRate numChannels : Z)
  : result Blob :=
  let bitsPerSample := 16 in
  let dataSize := length pcmData in
  let buffer := replicate (44 + dataSize) x00 in
  let view := buffer in
  (* RIFF header *)
  view ← writeString view 0 "RIFF";
  view ← setUint32 view 4 (36 + Z.of_nat dataSize) true;
  view ← writeString view 8 "WAVE";
  (* fmt subchunk *)
  view ← writeString view 12 "fmt ";
  view ← setUint32 view 16 16 true;
  view ← setUint16 view 20 1 true;
  view ← setUint16 view 22 numChannels true;
  view ← setUint32 view 24 sampleRate true;
  view ← setUint32 view 28
           (integer_of
              (number_mul (number_mul (Some sampleRate) (Some numChannels))
                 (Some (bitsPerSample / 8))))
           true;
  view ← setUint16 view 32
           (integer_of (number_mul (Some numChannels) (Some (bitsPerSample / 8))))
           true;
  view ← setUint16 view 34 bitsPerSample true;
  (* data subchunk *)
  view ← writeString view 36 "data";
  view ← setUint32 view 40 (Z.of_nat dataSize) true;
  (* Write PCM data *)
  wavBytes ← typed_set view pcmData 44;
  mret (mkBlob wavBytes "audio/wav").


(** *** Reading a [DataView] back

    [view.getUint16(byteOffset, true)] and [view.getUint32(byteOffset, true)]:
    the unsigned little-endian value of the bytes at [byteOffset]; used to
    state what a reader of the container finds. *)
Fixpoint le_value (bs : list byte) : Z :=
  match bs with
  | [] => 0
  | b :: rest => Z_of_byte b + 256 * le_value rest
  end.

Definition getUint (w : nat) (view : list byte) (byteOffset : nat)
  : result Z :=
  if (byteOffset + w <=? length view)%nat
  then Ok (le_value (take w (drop byteOffset view)))
  else Throw RangeError.

Definition getUint16 := getUint 2.
Definition getUint32 := getUint 4.

Definition bytes_of_string (s : string) : list byte :=
  String.list_byte_of_string s.

(** The RIFF layout the specification gives for [writeWav(p, r, c)], field by
    field, as a reader of the container sees it. *)
Definition riff_layout_as_specified (out p : list byte) (r c : Z) : Prop :=
  length out = (44 + length p)%nat /\
  take 4 out = bytes_of_string "RIFF" /\
  getUint32 out 4 = Ok (36 + Z.of_nat (length p)) /\
  take 4 (drop 8 out) = bytes_of_string "WAVE" /\
  take 4 (drop 12 out) = bytes_of_string "fmt " /\
  getUint32 out 16 = Ok 16 /\
  getUint16 out 20 = Ok 1 /\
  getUint16 out 22 = Ok c /\
  getUint32 out 24 = Ok r /\
  getUint32 out 28 = Ok (r * c * 2) /\
  getUint16 out 32 = Ok (c * 2) /\
  getUint16 out 34 = Ok 16 /\
  take 4 (drop 36 out) = bytes_of_string "data" /\
  getUint32 out 40 = Ok (Z.of_nat (length p)) /\
  drop 44 out = p.

(** The byte rate and the block alignment as the code computes them:
    [sampleRate * numChannels * 2] from left to right and [numChannels * 2],
    each product rounded to a double, and 0 stored for a product that is not
    finite. *)
Definition byte_rate (r c : Z) : Z :=
  integer_of (number_mul (number_mul (Some r) (Some c)) (Some 2)).

Definition block_align (c : Z) : Z :=
  integer_of (number_mul (Some c) (Some 2)).

(** The same layout with the byte rate and the block alignment as computed
    and every numeric field reduced modulo the width of its slot, which is
    what [setUint16] and [setUint32] store. *)
Definition riff_layout_stored (out p : list byte) (r c : Z) : Prop :=
  length out = (44 + length p)%nat /\
  take 4 out = bytes_of_string "RIFF" /\
  getUint32 out 4 = Ok ((36 + Z.of_nat (length p)) mod 2 ^ 32) /\
  take 4 (drop 8 out) = bytes_of_string "WAVE" /\
  take 4 (drop 12 out) = bytes_of_string "fmt " /\
  getUint32 out 16 = Ok 16 /\
  getUint16 out 20 = Ok 1 /\
  getUint16 out 22 = Ok (c mod 2 ^ 16) /\
  getUint32 out 24 = Ok (r mod 2 ^ 32) /\
  getUint32 out 28 = Ok (byte_rate r c mod 2 ^ 32) /\
  getUint16 out 32 = Ok (block_align c mod 2 ^ 16) /\
  getUint16 out 34 = Ok 16 /\
  take 4 (drop 36 out) = bytes_of_string "data" /\
  getUint32 out 40 = Ok (Z.of_nat (length p) mod 2 ^ 32) /\
  drop 44 out = p.

(** The products are computed exactly: they stay within the integers that
    all are doubles. *)
Definition products_exact (r c : Z) : Prop :=
  Z.abs (r * c) * 2 <= 2 ^ 53 /\ Z.abs c * 2 <= 2 ^ 53.

(** The values fit their slots. *)
Definition wav_fields_fit (p : list byte) (r c : Z) : Prop :=
  36 + Z.of_nat (length p) < 2 ^ 32 /\
  0 <= r < 2 ^ 32 /\ 0 <= c /\
  r * c * 2 < 2 ^ 32 /\ c * 2 < 2 ^ 16.

(** The header [createWavBlob] builds, as the list of its 44 bytes. *)
Definition wav_header (dataSize : nat) (sampleRate numChannels : Z)
  : list byte :=
  bytes_of_string "RIFF"
  ++ store_bytes 4 (36 + Z.of_nat dataSize) true
  ++ bytes_of_string "WAVE"
  ++ bytes_of_string "fmt "
  ++ store_bytes 4 16 true
  ++ store_bytes 2 1 true
  ++ store_bytes 2 numChannels true
  ++ store_bytes 4 sampleRate true
  ++ store_bytes 4 (byte_rate sampleRate numChannels) true
  ++ store_bytes 2 (block_align numChannels) true
  ++ store_bytes 2 16 true
  ++ bytes_of_string "data"
  ++ store_bytes 4 (Z.of_nat dataSize) true.

(** *** The platform's [btoa] and [atob]

    [btoa] is the base64 encoding of RFC 4648 (standard alphabet, padding
    kept, no line breaks); [atob] is the forgiving-base64 decoding of the
    WHATWG Infra standard. Both act on binary strings; [btoa] throws only for
    a code unit above 255, which an 8-bit string does not have. *)

Definition alphabet : string :=
  "ABCDEFGHIJKLMNOPQRSTUVWXYZabcdefghijklmnopqrstuvwxyz0123456789+/".

Definition pad : ascii := "="%char.

Definition sextet_char (k : N) : ascii :=
  nth (N.to_nat k) (chars alphabet) pad.

Fixpoint index_of (c : ascii) (l : list ascii) (i : N) : option N :=
  match l with
  | [] => None
  | x :: rest => if Ascii.eqb c x then Some i else index_of c rest (N.succ i)
  end.

Definition char_sextet (c : ascii) : option N :=
  index_of c (chars alphabet) 0%N.

(** Three code units make four sextets; one or two left over make two or
    three sextets and are padded to four characters. *)
Fixpoint btoa_units (us : list N) : list ascii :=
  match us with
  | [] => []
  | [a] =>
      [sextet_char (a / 4); sextet_char (a mod 4 * 16); pad; pad]
  | [a; b] =>
      [sextet_char (a / 4); sextet_char (a mod 4 * 16 + b / 16);
       sextet_char (b mod 16 * 4); pad]
  | a :: b :: c :: rest =>
      sextet_char (a / 4) :: sextet_char (a mod 4 * 16 + b / 16)
      :: sextet_char (b mod 16 * 4 + c / 64) :: sextet_char (c mod 64)
      :: btoa_units rest
  end%N.

Definition btoa (binary : string) : string :=
  String.string_of_list_ascii (btoa_units (N_of_ascii <$> chars binary)).

(** ASCII whitespace: TAB, LF, FF, CR and SPACE. *)
Definition is_ascii_whitespace (c : ascii) : bool :=
  let n := N_of_ascii c in
  ((n =? 9) || (n =? 10) || (n =? 12) || (n =? 13) || (n =? 32))%N.

Definition is_pad (c : ascii) : bool := Ascii.eqb c pad.

(** Removes the one or two [=] that end [data], when it ends with them. *)
Fixpoint remove_padding (data : list ascii) : list ascii :=
  match data with
  | [] => []
  | c :: rest =>
      if is_pad c && match rest with
                     | [] => true
                     | [c'] => is_pad c'
                     | _ => false
                     end
      then []
      else c :: remove_padding rest
  end.

(** Four sextets make three bytes; two sextets left over (12 bits) make one
    byte and three (18 bits) make two, the low bits being dropped. *)
Fixpoint atob_sextets (ss : list N) : list N :=
  match ss with
  | s0 :: s1 :: s2 :: s3 :: rest =>
      let n := ((s0 * 64 + s1) * 64 + s2) * 64 + s3 in
      n / 65536 :: n / 256 mod 256 :: n mod 256 :: atob_sextets rest
  | [s0; s1; s2] =>
      let n := ((s0 * 64 + s1) * 64 + s2) / 4 in
      [n / 256; n mod 256]
  | [s0; s1] =>
      let n := (s0 * 64 + s1) / 16 in
      [n]
  | _ => []
  end%N.

Definition atob (data : string) : result string :=
  let data := filter (fun c => is_ascii_whitespace c = false) (chars data) in
  let data :=
    if (length data mod 4 =? 0)%nat then remove_padding data else data in
  if (length data mod 4 =? 1)%nat then Throw InvalidCharacterError
  else
    match mapM char_sextet data with
    | None => Throw InvalidCharacterError
    | Some sextets =>
        Ok (String.string_of_list_ascii (ascii_of_N <$> atob_sextets sextets))
    end.

(** The code units of a binary string and the sextets of its encoding. *)
Definition is_unit (u : N) : Prop := (u < 256)%N.
Definition is_sextet (k : N) : Prop := (k < 64)%N.

(** A sextet is written as a character of the alphabet that [atob] reads
    back as the same sextet and that is neither whitespace nor padding. *)
Definition sextet_ok (k : N) : bool :=
  match char_sextet (sextet_char k) with
  | Some k' => (k' =? k)%N
  | None => false
  end
  && negb (is_ascii_whitespace (sextet_char k))
  && negb (is_pad (sextet_char k)).

(** *** The transcoders of the module *)

(** [export function decode(base64: string): Uint8Array]: the loop
    [bytes[i] = binaryString.charCodeAt(i)] over the whole binary string. *)
Definition decode (base64 : string) : result (list byte) :=
  binaryString ← atob base64;
  mret ((fun c => byte_of_Z (charCode c)) <$> chars binaryString).

(** [export function encode(bytes: Uint8Array): string]: the loop
    [binary += String.fromCharCode(bytes[i])], then [btoa]. *)
Definition encode (bytes : list byte) : string :=
  let binary := String.string_of_list_ascii (fromCharCode <$> bytes) in
  btoa binary.

(** [export const base64ToBlob = (base64, mimeType)]. *)
Definition base64ToBlob (base64 mimeType : string) : result Blob :=
  byteCharacters ← atob base64;
  let byteNumbers := charCode <$> chars byteCharacters in
  let byteArray := byte_of_Z <$> byteNumbers in
  mret (mkBlob byteArray mimeType).

(** *** PCM to float

    The Web Audio context is a collaborator passed in by the caller; of its
    interface the function uses [createBuffer] only. A [Float32Array] element
    is a rational (the quotients by 32768 computed here are exact in single
    precision) or [NaN]; the [length] handed to [createBuffer] is the
    quotient the code computes, not yet truncated. *)

(** A [Uint8Array] as a view: the bytes of the [ArrayBuffer] under it, the
    offset of its first element in the buffer, and the number of its
    elements. The functions above read the elements only, and take their
    list; the PCM decoder hands the buffer and the offset on, and takes the
    view. *)
Record Uint8Array : Type := mkUint8Array {
  view_buffer : list byte;
  view_byteOffset : nat;
  view_length : nat
}.

(** A view lies inside its buffer. *)
Definition view_ok (data : Uint8Array) : Prop :=
  (view_byteOffset data + view_length data <= length (view_buffer data))%nat.

(** The elements [data[0], data[1], ...] of a view. *)
Definition view_bytes (data : Uint8Array) : list byte :=
  take (view_length data) (drop (view_byteOffset data) (view_buffer data)).

(** [new Uint8Array(len)] filled with [bytes], as [decode] returns it: a view
    of all of a buffer of its own. *)
Definition whole_buffer (bytes : list byte) : Uint8Array :=
  mkUint8Array bytes 0 (length bytes).

Inductive float32 : Type :=
| F32 (q : Q)
| F32NaN.

Record AudioBuffer : Type := mkAudioBuffer {
  ab_sampleRate : Z;
  ab_channels : list (list float32)
}.

Record AudioContext : Type := mkAudioContext {
  createBuffer : Z -> Q -> Z -> result AudioBuffer
}.

(** The buffer [createBuffer(numberOfChannels, length, sampleRate)] returns
    when it accepts its arguments: every channel [length] zeros, [length]
    truncated to an integer. *)
Definition silent_buffer (numberOfChannels : Z) (len : Q) (sampleRate : Z)
  : AudioBuffer :=
  mkAudioBuffer sampleRate
    (replicate (Z.to_nat numberOfChannels)
       (replicate (Z.to_nat (Qfloor len)) (F32 0))).

Definition supplies (ctx : AudioContext) (numberOfChannels : Z) (len : Q)
    (sampleRate : Z) : Prop :=
  createBuffer ctx numberOfChannels len sampleRate
  = Ok (silent_buffer numberOfChannels len sampleRate).

(** A context that accepts every request. *)
Definition lenient_ctx : AudioContext :=
  mkAudioContext (fun c len r => Ok (silent_buffer c len r)).

(** A context that accepts what the Web Audio API obliges every context to
    accept, and no more: 1 to 32 channels, at least one frame ([length] is an
    [unsigned long], the quotient is truncated to it), and a sample rate from
    8000 to 96000; a [NotSupportedError] otherwise. *)
Definition standard_ctx : AudioContext :=
  mkAudioContext (fun c len r =>
    if (1 <=? c) && (c <=? 32) && (1 <=? Qfloor len)
       && (8000 <=? r) && (r <=? 96000)
    then Ok (silent_buffer c len r)
    else Throw NotSupportedError).

(** The signed value of a 16-bit pattern. *)
Definition signed16 (u : Z) : Z := if u <? 32768 then u else u - 65536.

(** Element [k] of an [Int16Array], in the byte order of the platforms
    browsers run on: the little-endian signed value of bytes [2k] and
    [2k+1] from the start of the array. *)
Definition int16_of (lo hi : byte) : Z :=
  signed16 (Z_of_byte lo + 256 * Z_of_byte hi).

Fixpoint Int16Array_elements (bytes : list byte) (len : nat) : list Z :=
  match len, bytes with
  | S len', lo :: hi :: rest => int16_of lo hi :: Int16Array_elements rest len'
  | _, _ => []
  end.

(** [new Int16Array(buffer, byteOffset, length)]: a [RangeError] when the
    offset is not a multiple of the element size 2, or when [length]
    elements from the offset on do not fit the buffer; the [length]
    argument, which is not negative here, is truncated to an integer. *)
Definition Int16Array (buffer : list byte) (byteOffset : nat) (len : Q)
  : result (list Z) :=
  if negb (Nat.even byteOffset) then Throw RangeError
  else
    let newLength := Z.to_nat (Qfloor len) in
    if (byteOffset + 2 * newLength <=? length buffer)%nat
    then Ok (Int16Array_elements (drop byteOffset buffer) newLength)
    else Throw RangeError.

(** [x / 32768.0] for a typed-array read [x]: reading past the end gives
    [undefined], and the quotient is then [NaN]. *)
Definition div_32768 (x : option Z) : float32 :=
  match x with
  | Some z => F32 (inject_Z z / 32768)%Q
  | None => F32NaN
  end.

(** The indices [i = 0, 1, ...] of a loop [for (i = 0; i < bound; i++)]. *)
Definition loop_indices (bound : Q) : list Z := seqZ 0 (Qceiling bound).

(** The inner loop, on the channel data [getChannelData] returned: a store
    past the end of a typed array is ignored. *)
Definition fill_channel (dataInt16 : list Z) (numChannels : Z)
    (frameCount : Q) (channel : Z) (channelData : list float32)
  : list float32 :=
  foldl
    (fun channelData i =>
       <[Z.to_nat i :=
           div_32768 (dataInt16 !! Z.to_nat (i * numChannels + channel))]>
         channelData)
    channelData (loop_indices frameCount).

(** [buffer.getChannelData(channel)]: the channel's array, which aliases the
    buffer, so that the stores of the inner loop land in the buffer. *)
Definition getChannelData (buffer : AudioBuffer) (channel : Z)
  : result (list float32) :=
  match ab_channels buffer !! Z.to_nat channel with
  | Some channelData => Ok channelData
  | None => Throw IndexSizeError
  end.

Definition with_channel (buffer : AudioBuffer) (channel : Z)
    (channelData : list float32) : AudioBuffer :=
  mkAudioBuffer (ab_sampleRate buffer)
    (<[Z.to_nat channel := channelData]> (ab_channels buffer)).

Fixpoint for_channels (channels : list Z) (body : AudioBuffer -> Z -> result AudioBuffer)
    (buffer : AudioBuffer) : result AudioBuffer :=
  match channels with
  | [] => Ok buffer
  | channel :: rest =>
      buffer' ← body buffer channel;
      for_channels rest body buffer'
  end.

(** [export async function decodeAudioData(data, ctx, sampleRate, numChannels)]. *)
Definition decodeAudioData (data : Uint8Array) (ctx : AudioContext)
    (sampleRate numChannels : Z) : result AudioBuffer :=
  dataInt16 ← Int16Array (view_buffer data) (view_byteOffset data)
                 (inject_Z (Z.of_nat (view_length data)) / 2)%Q;
  let frameCount : Q :=
    (inject_Z (Z.of_nat (length dataInt16)) / inject_Z numChannels)%Q in
  buffer ← createBuffer ctx numChannels frameCount sampleRate;
  for_channels (loop_indices (inject_Z numChannels))
    (fun buffer channel =>
       channelData ← getChannelData buffer channel;
       mret (with_channel buffer channel
               (fill_channel dataInt16 numChannels frameCount channel
                  channelData)))
    buffer.

(** The sample the specification speaks of: the [k]-th signed 16-bit
    little-endian value of the bytes. *)
Definition pcm_sample (data : list byte) (k : nat) : option Z :=
  match data !! (2 * k)%nat, data !! (2 * k + 1)%nat with
  | Some lo, Some hi => Some (int16_of lo hi)
  | _, _ => None
  end.

(** The frame count the code computes: the number of whole 16-bit samples
    divided by the channel count, before any truncation. *)
Definition frame_quotient (data : Uint8Array) (numChannels : Z) : Q :=
  (inject_Z (Z.of_nat (view_length data / 2)) / inject_Z numChannels)%Q.

(** *** The text [btoa] writes *)

(** A character of the base64 alphabet, or the padding. *)
Definition base64_char (c : ascii) : Prop :=
  is_Some (char_sextet c) \/ c = pad.

End AudioUtils.

(** * services/errorUtils *)

Module ErrorUtils.

(** *** JavaScript values

    The argument of the classifier is typed [any]. The values modelled are
    the JSON data (of the numbers the doubles that hold an integer, and
    [NaN]), [undefined], and [Error] instances carrying a message. *)

Inductive number : Type :=
| Int (z : Z)
| NaN.

#[warnings="-register-all"]
Inductive value : Type :=
| VUndefined
| VNull
| VBool (b : bool)
| VNum (n : number)
| VStr (s : string)
| VArr (elems : list value)
| VObj (props : list (string * value))
| VError (message : string).

Definition truthy (v : value) : bool :=
  match v with
  | VUndefined | VNull => false
  | VBool b => b
  | VNum (Int z) => negb (z =? 0)
  | VNum NaN => false
  | VStr s => negb (String.eqb s "")
  | VArr _ | VObj _ | VError _ => true
  end.

Definition nullish (v : value) : bool :=
  match v with
  | VUndefined | VNull => true
  | _ => false
  end.

(** [a || b] *)
Definition or_else (a b : value) : value := if truthy a then a else b.

(** [a === b] against a string or number literal [b]. *)
Definition strict_eq_str (a : value) (s : string) : bool :=
  match a with
  | VStr s' => String.eqb s' s
  | _ => false
  end.

Definition strict_eq_int (a : value) (z : Z) : bool :=
  match a with
  | VNum (Int z') => z' =? z
  | _ => false
  end.

Fixpoint assoc (k : string) (props : list (string * value)) : option value :=
  match props with
  | [] => None
  | (k', v) :: rest => if String.eqb k k' then Some v else assoc k rest
  end.

(** The value of the property read [v.k] where it does not throw. *)
Definition prop (v : value) (k : string) : value :=
  match v with
  | VObj props => default VUndefined (assoc k props)
  | VError message => if String.eqb k "message" then VStr message else VUndefined
  | VStr s => if String.eqb k "length" then VNum (Int (Z.of_nat (String.length s))) else VUndefined
  | VArr elems => if String.eqb k "length" then VNum (Int (Z.of_nat (length elems))) else VUndefined
  | _ => VUndefined
  end.

(** [v.k] and [v[k]]: a [TypeError] on [undefined] and [null]. *)
Definition get (v : value) (k : string) : result value :=
  if nullish v then Throw TypeError else Ok (prop v k).

(** [v?.k] *)
Definition get_opt (v : value) (k : string) : result value :=
  if nullish v then Ok VUndefined else get v k.

(** *** Strings *)

(** The code units below 256 that [toLowerCase] changes: the letters A to Z,
    and the capital letters of Latin-1 (U+00C0 to U+00DE but the
    multiplication sign U+00D7), each 32 below its small letter. *)
Definition is_upper (c : ascii) : bool :=
  let n := N_of_ascii c in
  (((65 <=? n) && (n <=? 90))
   || ((192 <=? n) && (n <=? 222) && negb (n =? 215)))%N.

Definition lower_char (c : ascii) : ascii :=
  if is_upper c then ascii_of_N (N_of_ascii c + 32) else c.

Fixpoint lower (s : string) : string :=
  match s with
  | EmptyString => EmptyString
  | String c rest => String (lower_char c) (lower rest)
  end.

(** [s.includes(pattern)] *)
Fixpoint includes (s pattern : string) : bool :=
  String.prefix pattern s
  || match s with
     | EmptyString => false
     | String _ rest => includes rest pattern
     end.

Fixpoint skip (n : nat) (s : string) : string :=
  match n, s with
  | S n', String _ rest => skip n' rest
  | _, _ => s
  end.

(** [s.replace(pattern, replacement)] with a string pattern: the first
    occurrence only. *)
Fixpoint replace_first (s pattern replacement : string) : string :=
  if String.prefix pattern s
  then replacement +:+ skip (String.length pattern) s
  else match s with
       | EmptyString => EmptyString
       | String c rest => String c (replace_first rest pattern replacement)
       end.

(** The method calls the classifier makes on values of unknown type: calling
    a method the receiver does not have is a [TypeError]. *)
Definition toLowerCase (v : value) : result string :=
  match v with
  | VStr s => Ok (lower s)
  | _ => Throw TypeError
  end.

Definition replace (v : value) (pattern replacement : string) : result string :=
  match v with
  | VStr s => Ok (replace_first s pattern replacement)
  | _ => Throw TypeError
  end.

(** [arr.find(callback)] and [arr.some(callback)]; an exception of the
    callback ends the search. *)
Fixpoint find_elem (callback : value -> result bool) (elems : list value)
  : result value :=
  match elems with
  | [] => Ok VUndefined
  | d :: rest =>
      hit ← callback d;
      if (hit : bool) then Ok d else find_elem callback rest
  end.

Fixpoint some_elem (callback : value -> result bool) (elems : list value)
  : result bool :=
  match elems with
  | [] => Ok false
  | d :: rest =>
      hit ← callback d;
      if (hit : bool) then Ok true else some_elem callback rest
  end.

(** [v?.find(callback)] *)
Definition find_opt (v : value) (callback : value -> result bool)
  : result value :=
  match v with
  | VUndefined | VNull => Ok VUndefined
  | VArr elems => find_elem callback elems
  | _ => Throw TypeError
  end.

(** [v?.some(callback)] *)
Definition some_opt (v : value) (callback : value -> result bool)
  : result value :=
  match v with
  | VUndefined | VNull => Ok VUndefined
  | VArr elems => VBool <$> some_elem callback elems
  | _ => Throw TypeError
  end.

(** *** Numbers and strings *)

Definition is_digit (c : ascii) : bool :=
  let n := N_of_ascii c in ((48 <=? n) && (n <=? 57))%N.

Definition digit_value (c : ascii) : Z := Z.of_N (N_of_ascii c) - 48.

(** The value of the longest prefix of decimal digits, if there is a digit. *)
Fixpoint leading_digits (s : string) (acc : option Z) : option Z :=
  match s with
  | String c rest =>
      if is_digit c
      then leading_digits rest (Some (10 * default 0 acc + digit_value c))
      else acc
  | EmptyString => acc
  end.

(** [parseInt(s, 10)]: the double nearest to the integer the digits denote.
    (An engine is free to read the digits behind the 20th as zeros; and
    digits that denote an integer from 2^1024 on parse to [Infinity], which
    is not among the numbers modelled.) *)
Definition parseInt (s : string) : number :=
  let s := skip_whitespace s in
  let '(sign, s) :=
    match s with
    | String "-" rest => (-1, rest)
    | String "+" rest => (1, rest)
    | _ => (1, s)
    end in
  match leading_digits s None with
  | Some n => Int (round_double (sign * n))
  | None => NaN
  end.

(** The text of a number, [Number::toString]. Up to 2^53 in magnitude an
    integer is written with its decimal digits: every such integer is a
    double, and no fewer digits denote it. Beyond, a double [x] is written
    with the fewest digits [s] for which [s * 10^(n-k)] rounds to [x], [k]
    the number of the digits and [n] the number of the digits of [x], and of
    these with the ones nearest to [x]: the digits followed by [n - k] zeros
    when [n] is at most 21, and [d.ddde+(n-1)] otherwise. *)
Definition digits_for (x : Z) (n k : nat) : option Z :=
  let u := 10 ^ Z.of_nat (n - k) in
  let lo := x / u in
  let hi := lo + 1 in
  let denotes s := round_double (s * u) =? x in
  match denotes lo, denotes hi with
  | true, true =>
      let below := x - lo * u in
      let above := hi * u - x in
      if below <? above then Some lo
      else if above <? below then Some hi
      else Some (if Z.even lo then lo else hi)
  | true, false => Some lo
  | false, true => Some hi
  | false, false => None
  end.

Fixpoint shortest_digits (x : Z) (n k fuel : nat) : option (Z * nat) :=
  match fuel with
  | O => None
  | S fuel' =>
      match digits_for x n k with
      | Some s => Some (s, k)
      | None => shortest_digits x n (S k) fuel'
      end
  end.

(** The digits [s], their number [k] and the number [n] of digits before the
    decimal point, for a double [x] above 2^53. 17 digits denote every
    double; digits found as [10^k] stand for the next power of ten. *)
Definition shortest (x : Z) : Z * nat * nat :=
  let n := String.length (pretty x) in
  match shortest_digits x n 1 17 with
  | Some (s, k) =>
      if s =? 10 ^ Z.of_nat k then (1, 1%nat, S n) else (s, k, n)
  | None => (x, n, n)
  end.

Definition zeros (n : nat) : string :=
  String.string_of_list_ascii (replicate n "0"%char).

Definition double_text (x : Z) : string :=
  let '(s, k, n) := shortest x in
  let digits := pretty s in
  if (n <=? 21)%nat then digits +:+ zeros (n - k)
  else
    match digits with
    | String d EmptyString => String d ("e+" +:+ pretty (n - 1)%nat)
    | String d rest => String d ("." +:+ rest +:+ "e+" +:+ pretty (n - 1)%nat)
    | EmptyString => EmptyString
    end.

Definition number_to_string (n : number) : string :=
  match n with
  | Int z =>
      if Z.abs z <=? 2 ^ 53 then pretty z
      else (if z <? 0 then "-" else "") +:+ double_text (Z.abs z)
  | NaN => "NaN"
  end.

Fixpoint join (sep : string) (parts : list string) : string :=
  match parts with
  | [] => ""
  | [p] => p
  | p :: rest => p +:+ sep +:+ join sep rest
  end.

(** [String(v)] and the conversion of a template literal. An object is
    converted by its [toString] method: the one of [Object.prototype], unless
    the object has a property of this name itself, which in a value of the
    kinds modelled is no function, so that the conversion is a [TypeError]
    (the [valueOf] it turns to next is no function either, or returns the
    object). An array joins the conversions of its elements. *)
Fixpoint to_string (v : value) : result string :=
  match v with
  | VUndefined => Ok "undefined"
  | VNull => Ok "null"
  | VBool true => Ok "true"
  | VBool false => Ok "false"
  | VNum n => Ok (number_to_string n)
  | VStr s => Ok s
  | VArr elems =>
      join "," <$>
        ((fix elements (l : list value) : result (list string) :=
            match l with
            | [] => Ok []
            | e :: rest =>
                match (if nullish e then Ok "" else to_string e) with
                | Ok first =>
                    match elements rest with
                    | Ok others => Ok (first :: others)
                    | Throw err => Throw err
                    end
                | Throw err => Throw err
                end
            end) elems)
  | VObj props =>
      match assoc "toString" props with
      | None => Ok "[object Object]"
      | Some _ => Throw TypeError
      end
  | VError message =>
      Ok (if String.eqb message "" then "Error" else "Error: " +:+ message)
  end.

(** *** The classifier *)

Record ParsedError : Type := mkParsedError {
  userMessage : string;
  shouldResetKey : option bool;
  retryDelay : option number
}.

Section Classifier.

(** [JSON.parse]: [None] stands for the [SyntaxError] it throws. *)
Variable JSON_parse : string -> option value.

(** [const getErrorObject = (error: any): any | null]. *)
Definition getErrorObject (error : value) : value :=
  let parsed :=
    match error with
    | VError message =>
        if truthy (VStr message) then JSON_parse message else None
    | _ => None
    end in
  match parsed with
  | Some obj => obj
  | None =>
      match error with
      | VArr _ | VObj _ | VError _ => error
      | _ => VNull
      end
  end.

Definition retry_info_type : string := "type.googleapis.com/google.rpc.RetryInfo".

(** [export const handleGeminiError = (error: any): ParsedError]. *)
Definition handleGeminiError (error : value) : result ParsedError :=
  let errorObj := getErrorObject error in
  apiError ← get_opt errorObj "error";
  if truthy apiError then
    apiMessage ← get apiError "message";
    message ← toLowerCase (or_else apiMessage (VStr ""));
    status ← get apiError "status";
    code ← get apiError "code";
    (* 1. Handle Rate Limiting / Quota Exhaustion *)
    if strict_eq_str status "RESOURCE_EXHAUSTED" || strict_eq_int code 429 then
      details ← get apiError "details";
      retryInfo ← find_opt details (fun d =>
        type ← get d "@type"; mret (strict_eq_str type retry_info_type));
      hint ← get_opt retryInfo "retryDelay";
      if truthy hint then
        hint ← get retryInfo "retryDelay";
        digits ← replace hint "s" "";
        let delay := parseInt digits in
        mret (mkParsedError
                ("You've hit the API rate limit. Please try again in "
                 +:+ number_to_string delay +:+ " seconds.")
                None (Some delay))
      else
        mret (mkParsedError
                "You have exceeded your current API quota. Please check your plan and billing details."
                None None)
    (* 2. Handle specific billing-related errors *)
    else if includes message "imagen api is only accessible to billed users" then
      mret (mkParsedError
              "The Imagen API is only accessible to users with billing enabled. Please check your project settings and API key."
              None None)
    else
      (* 3. Handle Invalid/Expired API Keys *)
      details ← get apiError "details";
      isInvalidKey ← some_opt details (fun d =>
        reason ← get d "reason"; mret (strict_eq_str reason "API_KEY_INVALID"));
      if truthy isInvalidKey || strict_eq_str status "INVALID_ARGUMENT" then
        if includes message "api key expired" then
          mret (mkParsedError
                  "Your API key has expired. Please renew it and try again."
                  None None)
        else
          mret (mkParsedError
                  "Your API key is not valid. Please check your API key and try again."
                  None None)
      (* 4. Handle errors for APIs requiring a selected key (like Veo) *)
      else if includes message "requested entity was not found" then
        mret (mkParsedError
                "Your API key appears to be invalid or is not configured for this feature. Please select a valid key and try again."
                (Some true) None)
      else
        (* 5. Fallback for other generic API errors *)
        shown ← to_string
                  (or_else apiMessage (or_else status (VStr "Unknown error")));
        mret (mkParsedError ("An API error occurred: " +:+ shown) None None)
  else
    (* Fallback for non-structured errors or errors not from the API *)
    defaultMessage ←
      match error with
      | VError message => Ok message
      | _ => to_string error
      end;
    mret (mkParsedError ("An unexpected error occurred: " +:+ defaultMessage)
            None None).

End Classifier.

(** *** Shapes of the API's error payload *)

Definition string_or_falsy (v : value) : bool :=
  match v with
  | VStr _ => true
  | _ => negb (truthy v)
  end.

(** An entry of [details]: an object whose [retryDelay], when it has one, is
    a string. *)
Definition detail_shaped (d : value) : bool :=
  negb (nullish d) && string_or_falsy (prop d "retryDelay").

Definition details_shaped (details : value) : bool :=
  match details with
  | VUndefined | VNull => true
  | VArr elems => forallb detail_shaped elems
  | _ => false
  end.

(** The values [String] converts: not an object that has a [toString]
    property itself, and not an array with such an element. *)
Fixpoint printable (v : value) : bool :=
  match v with
  | VArr elems =>
      (fix all (l : list value) : bool :=
         match l with
         | [] => true
         | e :: rest => printable e && all rest
         end) elems
  | VObj props =>
      match assoc "toString" props with
      | None => true
      | Some _ => false
      end
  | _ => true
  end.

(** The payload under [error]: a [message] that is a string when present, a
    [status] that can be printed, and [details] that are a list of entries
    when present. *)
Definition api_error_shaped (apiError : value) : bool :=
  string_or_falsy (prop apiError "message")
  && printable (prop apiError "status")
  && details_shaped (prop apiError "details").

(** What [getErrorObject] extracted from [error] either has a payload of
    that shape under [error], or has none, and [error] is an [Error] or can
    be printed. *)
Definition error_shaped (errorObj error : value) : bool :=
  let apiError := prop errorObj "error" in
  if truthy apiError then api_error_shaped apiError
  else match error with
       | VError _ => true
       | _ => printable error
       end.

Definition is_retry_info (d : value) : bool :=
  strict_eq_str (prop d "@type") retry_info_type.

(** A structured quota error: resource exhaustion by status or by code. *)
Definition quota_error (apiError : value) : bool :=
  strict_eq_str (prop apiError "status") "RESOURCE_EXHAUSTED"
  || strict_eq_int (prop apiError "code") 429.

(** [details], when present, is a list of non-null entries. *)
Definition details_listed (details : value) : bool :=
  match details with
  | VUndefined | VNull => true
  | VArr elems => forallb (fun d => negb (nullish d)) elems
  | _ => false
  end.

(** The retry information an error payload carries: the entry of [details]
    typed as [RetryInfo], and the delay it states. *)
Definition retry_info_of (details : value) : value :=
  match details with
  | VArr elems => default VUndefined (List.find is_retry_info elems)
  | _ => VUndefined
  end.

Definition retry_hint (apiError : value) : value :=
  prop (retry_info_of (prop apiError "details")) "retryDelay".

Definition quota_message : string :=
  "You have exceeded your current API quota. Please check your plan and billing details.".

End ErrorUtils.

(** ** Remote calls

    What an awaited call of the generation service settles with: its
    response, or the value it rejects with. *)
Inductive Settled (A : Type) : Type :=
| Fulfilled (response : A)
| Rejected (reason : ErrorUtils.value).
Arguments Fulfilled {A} response.
Arguments Rejected {A} reason.

(** An exception of the platform or of the sources, as the value a [catch]
    receives: an [Error] with a message. The wording of the platform's own
    messages is not modelled; its name stands for it. *)
Definition thrown (e : exn) : ErrorUtils.value :=
  match e with
  | JsError message => ErrorUtils.VError message
  | TypeError => ErrorUtils.VError "TypeError"
  | RangeError => ErrorUtils.VError "RangeError"
  | SyntaxError => ErrorUtils.VError "SyntaxError"
  | InvalidCharacterError =>
      ErrorUtils.VError "The string to be decoded is not correctly encoded."
  | NotSupportedError => ErrorUtils.VError "NotSupportedError"
  | IndexSizeError => ErrorUtils.VError "IndexSizeError"
  end.

(** * services/audioUtils, continued: reading a blob as base64

    [blobToBase64] is asynchronous and settles like a remote call, so that it
    comes after [Settled]. *)

Module AudioUtilsAsync.
Import AudioUtils.

(** [s.split(',')]: the parts of [s] between its commas, at least one. *)
Fixpoint split_comma (s : string) : list string :=
  match s with
  | EmptyString => [EmptyString]
  | String c rest =>
      if Ascii.eqb c ","%char then EmptyString :: split_comma rest
      else
        match split_comma rest with
        | part :: parts => String c part :: parts
        | [] => [String c EmptyString]
        end
  end.

(** What [reader.readAsDataURL(blob)] ends with: a load, with the data URL as
    [reader.result], or an error, with the event the [error] handler gets. *)
Inductive ReadOutcome : Type :=
| Loaded (result : string)
| Failed (event : ErrorUtils.value).

(** The data URL of the bytes of a blob, with the media type [media] the
    platform writes for it: ["data:<media>;base64,<base64 of the bytes>"]. *)
Definition data_url (media : string) (bytes : list byte) : string :=
  "data:" +:+ media +:+ ";base64," +:+ encode bytes.

Section Reader.

Variable readAsDataURL : Blob -> ReadOutcome.

(** [export const blobToBase64 = (blob: Blob): Promise<string>]. After a
    load, [onloadend] resolves with the second of the parts of the result
    that its commas separate, [undefined] when there is none. After an error,
    [onerror] rejects with the event; the [loadend] handler that runs next
    finds the promise settled. *)
Definition blobToBase64 (blob : Blob) : Settled (option string) :=
  match readAsDataURL blob with
  | Loaded result => Fulfilled (split_comma result !! 1%nat)
  | Failed event => Rejected event
  end.

End Reader.

End AudioUtilsAsync.

(** * components/VideoGenerator: the operation poller *)

Module VideoGenerator.

Definition loadingMessages : list string :=
  ["Warming up the AI director...";
   "Rendering the first few frames...";
   "Compositing the digital scenes...";
   "Applying cinematic color grading...";
   "Adding special effects...";
   "Finalizing the video masterpiece...";
   "This can take a few minutes, good things take time!"].

(** A [GenerateVideosOperation]: the [done] flag (absent counts as false) and
    the download link of the first generated video, if any. *)
Record GenerateVideosOperation : Type := mkOperation {
  done : bool;
  videoUri : option string
}.

(** The locals of [pollOperation] and the [loadingMessage] it displays. *)
Record PollState : Type := mkPollState {
  currentOperation : GenerateVideosOperation;
  messageIndex : nat;
  polls : nat;
  loadingMessage : string
}.

Definition pollInterval : Z := 10000.
Definition maxPolls : nat := 30.

Definition timed_out : exn :=
  JsError "Video generation timed out after 5 minutes.".

Section Poller.

(** [ai.operations.getVideosOperation({ operation })] on the attempt with the
    given number (counted from 1): the refreshed operation, or a failure. *)
Variable getVideosOperation :
  nat -> GenerateVideosOperation -> result GenerateVideosOperation.

(** One iteration of the [while] loop past its timeout test: count the poll,
    advance the message, wait, ask, and keep the old operation when asking
    fails. *)
Definition poll_once (s : PollState) : PollState :=
  let polls := S (polls s) in
  let loadingMessage :=
    default "" (loadingMessages !! (messageIndex s mod length loadingMessages)%nat) in
  let messageIndex := S (messageIndex s) in
  let currentOperation :=
    match getVideosOperation polls (currentOperation s) with
    | Ok operation => operation
    | Throw e => currentOperation s
    end in
  mkPollState currentOperation messageIndex polls loadingMessage.

(** The [while (!currentOperation.done)] loop; [None] when [fuel] iterations
    do not leave it. *)
Fixpoint poll_loop (fuel : nat) (s : PollState)
  : option (result GenerateVideosOperation * PollState) :=
  if done (currentOperation s) then Some (Ok (currentOperation s), s)
  else
    match fuel with
    | O => None
    | S fuel' =>
        if (maxPolls <=? polls s)%nat then Some (Throw timed_out, s)
        else poll_loop fuel' (poll_once s)
    end.

Definition poll_start (operation : GenerateVideosOperation)
    (shown : string) : PollState :=
  mkPollState operation 1 0 shown.

(** [const pollOperation = async (operation, ai)]: what it returns or throws,
    with the final values of its locals. The fuel is one more than the
    largest number of iterations the timeout test lets through. *)
Definition pollOperation (operation : GenerateVideosOperation)
    (shown : string)
  : option (result GenerateVideosOperation * PollState) :=
  poll_loop (S maxPolls) (poll_start operation shown).

(** The attempt with number [k] does not report completion: it fails, or it
    answers with an operation that is not done. *)
Definition not_done_at (k : nat) : Prop :=
  forall operation,
    match getVideosOperation k operation with
    | Ok operation' => done operation' = false
    | Throw _ => True
    end.

End Poller.


(** The message on display follows the attempts: it is the one shown before
    as long as no attempt was made, and after attempt [n] the entry
    [n mod 7] of [loadingMessages]. *)
Definition message_cycle (shown : string) (s : PollState) : Prop :=
  messageIndex s = S (polls s) /\
  (polls s = 0%nat -> loadingMessage s = shown) /\
  ((1 <= polls s)%nat ->
   loadingMessages !! (polls s mod 7)%nat = Some (loadingMessage s)).

(** ** The component: key check, generation, history *)

Import ErrorUtils.

Record VideoHistory : Type := mkVideoHistory {
  vh_prompt : string;
  vh_aspectRatio : string;
  (** what [blobToBase64] resolved with, which may be [undefined] *)
  vh_videoBase64 : option string
}.

(** The [historyItem] prop as the component looks at it: an item of type
    ['video-gen'], whose data are a [VideoHistory], or an item of another
    tool. *)
Inductive HistoryItem : Type :=
| VideoItem (data : VideoHistory)
| OtherItem.

(** The state of the component, its [timerRef], the interval timers of the
    window and the items handed to [addToHistory]. An object URL is
    identified with the blob it was created for. *)
Record State : Type := mkState {
  prompt : string;
  aspectRatio : string;
  isLoading : bool;
  shownMessage : string;
  error : option string;
  videoUrl : option AudioUtils.Blob;
  apiKeySelected : bool;
  retryAfter : Z;
  timerRef : option positive;
  intervals : gset positive;
  next_interval : positive;
  history : list VideoHistory
}.

Definition setPrompt (v : string) (s : State) : State :=
  mkState v (aspectRatio s) (isLoading s) (shownMessage s) (error s)
    (videoUrl s) (apiKeySelected s) (retryAfter s) (timerRef s) (intervals s)
    (next_interval s) (history s).

Definition setAspectRatio (v : string) (s : State) : State :=
  mkState (prompt s) v (isLoading s) (shownMessage s) (error s)
    (videoUrl s) (apiKeySelected s) (retryAfter s) (timerRef s) (intervals s)
    (next_interval s) (history s).

Definition setIsLoading (v : bool) (s : State) : State :=
  mkState (prompt s) (aspectRatio s) v (shownMessage s) (error s)
    (videoUrl s) (apiKeySelected s) (retryAfter s) (timerRef s) (intervals s)
    (next_interval s) (history s).

(** [setLoadingMessage] *)
Definition setLoadingMessage (v : string) (s : State) : State :=
  mkState (prompt s) (aspectRatio s) (isLoading s) v (error s)
    (videoUrl s) (apiKeySelected s) (retryAfter s) (timerRef s) (intervals s)
    (next_interval s) (history s).

Definition setError (v : option string) (s : State) : State :=
  mkState (prompt s) (aspectRatio s) (isLoading s) (shownMessage s) v
    (videoUrl s) (apiKeySelected s) (retryAfter s) (timerRef s) (intervals s)
    (next_interval s) (history s).

Definition setVideoUrl (v : option AudioUtils.Blob) (s : State) : State :=
  mkState (prompt s) (aspectRatio s) (isLoading s) (shownMessage s) (error s)
    v (apiKeySelected s) (retryAfter s) (timerRef s) (intervals s)
    (next_interval s) (history s).

Definition setApiKeySelected (v : bool) (s : State) : State :=
  mkState (prompt s) (aspectRatio s) (isLoading s) (shownMessage s) (error s)
    (videoUrl s) v (retryAfter s) (timerRef s) (intervals s)
    (next_interval s) (history s).

Definition setRetryAfter (v : Z) (s : State) : State :=
  mkState (prompt s) (aspectRatio s) (isLoading s) (shownMessage s) (error s)
    (videoUrl s) (apiKeySelected s) v (timerRef s) (intervals s)
    (next_interval s) (history s).

Definition addToHistory (item : VideoHistory) (s : State) : State :=
  mkState (prompt s) (aspectRatio s) (isLoading s) (shownMessage s) (error s)
    (videoUrl s) (apiKeySelected s) (retryAfter s) (timerRef s) (intervals s)
    (next_interval s) (history s ++ [item]).

Definition clearInterval (id : positive) (s : State) : State :=
  mkState (prompt s) (aspectRatio s) (isLoading s) (shownMessage s) (error s)
    (videoUrl s) (apiKeySelected s) (retryAfter s) (timerRef s)
    (intervals s ∖ {[id]}) (next_interval s) (history s).

Definition setInterval_into_timerRef (s : State) : State :=
  let id := next_interval s in
  mkState (prompt s) (aspectRatio s) (isLoading s) (shownMessage s) (error s)
    (videoUrl s) (apiKeySelected s) (retryAfter s) (Some id)
    ({[id]} ∪ intervals s) (Pos.succ id) (history s).

Definition clear_timerRef (s : State) : State :=
  match timerRef s with
  | Some id => clearInterval id s
  | None => s
  end.

Definition arm_retry (retryDelay : option number) (s : State) : State :=
  match retryDelay with
  | Some (Int delay) =>
      if negb (delay =? 0) && (0 <? delay)
      then setInterval_into_timerRef (setRetryAfter delay s)
      else s
  | Some NaN | None => s
  end.

(** [window.aistudio], when the page has it: what its two calls settle
    with. *)
Record AiStudio : Type := mkAiStudio {
  hasSelectedApiKey : Settled bool;
  openSelectKey : Settled unit
}.

(** The response of [fetch]: [ok], [statusText] and what [blob()] settles
    with. *)
Record Response : Type := mkResponse {
  ok : bool;
  statusText : string;
  blob : Settled AudioUtils.Blob
}.

Definition no_download_link : value :=
  VError "Video generation finished, but no download link was provided.".

Section Component.

Variable JSON_parse : string -> option value.
Variable API_KEY : string.
Variable aistudio : option AiStudio.
(** What [ai.models.generateVideos] settles with. *)
Variable generateVideos : Settled GenerateVideosOperation.
Variable getVideosOperation :
  nat -> GenerateVideosOperation -> result GenerateVideosOperation.
Variable fetch : string -> Settled Response.
Variable readAsDataURL : AudioUtils.Blob -> AudioUtilsAsync.ReadOutcome.

(** [const checkApiKey = useCallback(async () => ...)]: the state it leaves
    and what it settles with. *)
Definition checkApiKey (s : State) : State * Settled bool :=
  match aistudio with
  | Some studio =>
      match hasSelectedApiKey studio with
      | Rejected reason => (s, Rejected reason)
      | Fulfilled true => (setApiKeySelected true s, Fulfilled true)
      | Fulfilled false => (setApiKeySelected false s, Fulfilled false)
      end
  | None => (setApiKeySelected false s, Fulfilled false)
  end.

(** [const handleSelectKey = async () => ...]. *)
Definition handleSelectKey (s : State) : State * option value :=
  match aistudio with
  | Some studio =>
      match openSelectKey studio with
      | Rejected reason => (s, Some reason)
      | Fulfilled _ => (setApiKeySelected true s, None)
      end
  | None => (s, None)
  end.

(** The [try] block of [handleGenerate]: the state it leaves and what it
    throws, if it throws; [None] when the poller runs out of fuel. *)
Definition try_generation (s : State) : option (State * option value) :=
  match generateVideos with
  | Rejected reason => Some (s, Some reason)
  | Fulfilled initialOperation =>
      '(outcome, polled) ←
        pollOperation getVideosOperation initialOperation (shownMessage s);
      let s := setLoadingMessage (loadingMessage polled) s in
      match outcome with
      | Throw e => Some (s, Some (thrown e))
      | Ok finishedOperation =>
          match videoUri finishedOperation with
          | Some downloadLink =>
              if negb (String.eqb downloadLink "") then
                let s := setLoadingMessage "Downloading video..." s in
                match fetch (downloadLink +:+ "&key=" +:+ API_KEY) with
                | Rejected reason => Some (s, Some reason)
                | Fulfilled response =>
                    if negb (ok response) then
                      Some (s, Some (VError ("Failed to download video: "
                                             +:+ statusText response)))
                    else
                      match blob response with
                      | Rejected reason => Some (s, Some reason)
                      | Fulfilled videoBlob =>
                          let s := setVideoUrl (Some videoBlob) s in
                          match AudioUtilsAsync.blobToBase64 readAsDataURL
                                  videoBlob with
                          | Rejected reason => Some (s, Some reason)
                          | Fulfilled videoBase64 =>
                              Some (addToHistory
                                      (mkVideoHistory (prompt s)
                                         (aspectRatio s) videoBase64) s,
                                    None)
                          end
                      end
                end
              else Some (s, Some no_download_link)
          | None => Some (s, Some no_download_link)
          end
      end
  end.

(** The [catch] block. *)
Definition catch_generation (s : State) (e : value) : result State :=
  parsed ← handleGeminiError JSON_parse e;
  let s := setError (Some (userMessage parsed)) s in
  let s :=
    match shouldResetKey parsed with
    | Some true => setApiKeySelected false s
    | _ => s
    end in
  mret (arm_retry (retryDelay parsed) s).

(** The head of [handleGenerate], after its guards. *)
Definition begin_generation (s : State) : State :=
  let s := setIsLoading true s in
  let s := setError None s in
  let s := setVideoUrl None s in
  let s := setLoadingMessage (default "" (loadingMessages !! 0%nat)) s in
  let s := setRetryAfter 0 s in
  clear_timerRef s.

(** [const handleGenerate = useCallback(async () => ...)], run to its end:
    the state it leaves and the value it rejects with, if it rejects. *)
Definition handleGenerate (s : State) : option (State * option value) :=
  if String.eqb (trim (prompt s)) "" then
    Some (setError (Some "Please enter a prompt to generate a video.") s, None)
  else
    match checkApiKey s with
    | (s, Rejected reason) => Some (s, Some reason)
    | (s, Fulfilled hasKey) =>
        if negb hasKey || String.eqb API_KEY "" then
          let s :=
            setError (Some "Please select an API key to generate videos.") s in
          Some (setApiKeySelected false s, None)
        else
          let s := begin_generation s in
          '(s, failure) ← try_generation s;
          match failure with
          | None => Some (setIsLoading false s, None)
          | Some e =>
              match catch_generation s e with
              | Ok s => Some (setIsLoading false s, None)
              | Throw e' => Some (setIsLoading false s, Some (thrown e'))
              end
          end
    end.

End Component.

(** The effect on [historyItem]: the prompt, the aspect ratio and the video
    of an item of this tool are loaded into the state. *)
Definition historyItem_effect (historyItem : option HistoryItem) (s : State)
  : State :=
  match historyItem with
  | Some (VideoItem data) =>
      let s := setPrompt (vh_prompt data) s in
      let s := setAspectRatio (vh_aspectRatio data) s in
      let s :=
        match vh_videoBase64 data with
        | Some videoBase64 =>
            if negb (String.eqb videoBase64 "") then
              match AudioUtils.base64ToBlob videoBase64 "video/mp4" with
              | Ok videoBlob => setVideoUrl (Some videoBlob) s
              | Throw e =>
                  let s :=
                    setError (Some "Could not load video from history.") s in
                  setVideoUrl None s
              end
            else setVideoUrl None s
        | None => setVideoUrl None s
        end in
      let s := setError None s in
      setIsLoading false s
  | Some OtherItem | None => s
  end.

(** The generation can be started: the prompt is not blank, the page has a
    selected key and the key is configured. *)
Definition can_generate (API_KEY : string) (aistudio : option AiStudio)
    (s : State) : Prop :=
  String.eqb (trim (prompt s)) "" = false /\
  (exists studio,
     aistudio = Some studio /\ hasSelectedApiKey studio = Fulfilled true) /\
  String.eqb API_KEY "" = false.

End VideoGenerator.

(** * components/VoiceGenerator: generation and the retry countdown

    The same head ([setRetryAfter(0)], [clearInterval]), the same [catch]
    block and the same interval callback are in the image and the video
    generator and in the chat. *)

Module VoiceGenerator.
Import ErrorUtils.

Record VoiceHistory : Type := mkVoiceHistory {
  vh_text : string;
  vh_voice : string;
  vh_speed : Q;
  vh_audioBase64 : string
}.

(** The state of the component, its [timerRef], and the interval timers of
    the window: the ids that are live and the id the next timer gets. An
    object URL is identified with the blob it was created for; the [Audio]
    element of the player is left out. *)
Record State : Type := mkState {
  text : string;
  selectedVoice : string;
  speed : Q;
  isLoading : bool;
  error : option string;
  audioUrl : option AudioUtils.Blob;
  isPlaying : bool;
  retryAfter : Z;
  timerRef : option positive;
  intervals : gset positive;
  next_interval : positive;
  history : list VoiceHistory
}.

Definition setIsLoading (v : bool) (s : State) : State :=
  mkState (text s) (selectedVoice s) (speed s) v (error s) (audioUrl s)
    (isPlaying s) (retryAfter s) (timerRef s) (intervals s) (next_interval s)
    (history s).

Definition setError (v : option string) (s : State) : State :=
  mkState (text s) (selectedVoice s) (speed s) (isLoading s) v (audioUrl s)
    (isPlaying s) (retryAfter s) (timerRef s) (intervals s) (next_interval s)
    (history s).

Definition setAudioUrl (v : option AudioUtils.Blob) (s : State) : State :=
  mkState (text s) (selectedVoice s) (speed s) (isLoading s) (error s) v
    (isPlaying s) (retryAfter s) (timerRef s) (intervals s) (next_interval s)
    (history s).

Definition setIsPlaying (v : bool) (s : State) : State :=
  mkState (text s) (selectedVoice s) (speed s) (isLoading s) (error s)
    (audioUrl s) v (retryAfter s) (timerRef s) (intervals s) (next_interval s)
    (history s).

Definition setRetryAfter (v : Z) (s : State) : State :=
  mkState (text s) (selectedVoice s) (speed s) (isLoading s) (error s)
    (audioUrl s) (isPlaying s) v (timerRef s) (intervals s) (next_interval s)
    (history s).

Definition addToHistory (item : VoiceHistory) (s : State) : State :=
  mkState (text s) (selectedVoice s) (speed s) (isLoading s) (error s)
    (audioUrl s) (isPlaying s) (retryAfter s) (timerRef s) (intervals s)
    (next_interval s) (history s ++ [item]).

(** [clearInterval(id)]: no effect on an id that is not live. *)
Definition clearInterval (id : positive) (s : State) : State :=
  mkState (text s) (selectedVoice s) (speed s) (isLoading s) (error s)
    (audioUrl s) (isPlaying s) (retryAfter s) (timerRef s)
    (intervals s ∖ {[id]}) (next_interval s) (history s).

(** [timerRef.current = window.setInterval(callback, 1000)]: a fresh id. *)
Definition setInterval_into_timerRef (s : State) : State :=
  let id := next_interval s in
  mkState (text s) (selectedVoice s) (speed s) (isLoading s) (error s)
    (audioUrl s) (isPlaying s) (retryAfter s) (Some id)
    ({[id]} ∪ intervals s) (Pos.succ id) (history s).

(** [if (timerRef.current) clearInterval(timerRef.current)]; timer ids are
    positive, hence truthy. *)
Definition clear_timerRef (s : State) : State :=
  match timerRef s with
  | Some id => clearInterval id s
  | None => s
  end.

(** The callback of the interval:
    [setRetryAfter(prev => { if (prev <= 1) { ...clearInterval...; return 0; }
    return prev - 1; })]; the difference is the one of doubles. *)
Definition tick (s : State) : State :=
  let prev := retryAfter s in
  if prev <=? 1 then setRetryAfter 0 (clear_timerRef s)
  else setRetryAfter (round_double (prev - 1)) s.

(** The window runs the callback of a timer only while the timer is live. *)
Definition interval_fires (id : positive) (s : State) : option State :=
  if decide (id ∈ intervals s) then Some (tick s) else None.

(** The head of [handleGenerate], after its two guards. *)
Definition begin_generation (s : State) : State :=
  let s := setIsLoading true s in
  let s := setError None s in
  let s := setRetryAfter 0 s in
  let s := clear_timerRef s in
  let s := setAudioUrl None s in
  setIsPlaying false s.

(** [if (retryDelay && retryDelay > 0) { setRetryAfter(retryDelay);
    timerRef.current = window.setInterval(..., 1000); }] *)
Definition arm_retry (retryDelay : option number) (s : State) : State :=
  match retryDelay with
  | Some (Int delay) =>
      if negb (delay =? 0) && (0 <? delay)
      then setInterval_into_timerRef (setRetryAfter delay s)
      else s
  | Some NaN | None => s
  end.

(** What a generation holds while its remote call is awaited: the text, the
    voice and the speed of the render in which it began. *)
Record Generation : Type := mkGeneration {
  g_text : string;
  g_voice : string;
  g_speed : Q
}.

Section Component.

Variable JSON_parse : string -> option value.
(** [process.env.API_KEY] *)
Variable API_KEY : string.

(** The [try] block after the remote call has settled, with the audio of the
    response if it has one. *)
Definition try_generation (s : State) (settled : Settled (option string))
  : State * option value :=
  match settled with
  | Rejected reason => (s, Some reason)
  | Fulfilled base64Audio =>
      match base64Audio with
      | Some audio =>
          if negb (String.eqb audio "") then
            let s :=
              addToHistory
                (mkVoiceHistory (text s) (selectedVoice s) (speed s) audio) s in
            match AudioUtils.decode audio with
            | Throw e => (s, Some (thrown e))
            | Ok audioBytes =>
                match AudioUtils.createWavBlob audioBytes 24000 1 with
                | Throw e => (s, Some (thrown e))
                | Ok wavBlob => (setAudioUrl (Some wavBlob) s, None)
                end
            end
          else (s, Some (VError "No audio data received from API."))
      | None => (s, Some (VError "No audio data received from API."))
      end
  end.

(** The [catch] block; the classifier is called inside it, so that an
    exception of the classifier leaves [handleGenerate]. *)
Definition catch_generation (s : State) (e : value) : result State :=
  parsed ← handleGeminiError JSON_parse e;
  let s := setError (Some (userMessage parsed)) s in
  mret (arm_retry (retryDelay parsed) s).

(** [const handleGenerate = useCallback(async () => ...)], run to the end
    with the remote call settling as given and nothing happening to the
    component while the call is awaited: the state it leaves, and the
    exception it rejects with, if any. *)
Definition handleGenerate (s : State) (settled : Settled (option string))
  : State * option exn :=
  if String.eqb (trim (text s)) "" then
    (setError (Some "Please enter some text to generate audio.") s, None)
  else if String.eqb API_KEY "" then
    (setError (Some "API key is not configured.") s, None)
  else
    let s := begin_generation s in
    match try_generation s settled with
    | (s, None) => (setIsLoading false s, None)
    | (s, Some e) =>
        match catch_generation s e with
        | Ok s => (setIsLoading false s, None)
        | Throw e' => (setIsLoading false s, Some e')
        end
    end.

(** [handleGenerate] up to its [await]: the guards and the head. When the
    remote call is made, the generation is in flight, holding the text, the
    voice and the speed of the render it began in. *)
Definition handleGenerate_begins (s : State) : State * option Generation :=
  if String.eqb (trim (text s)) "" then
    (setError (Some "Please enter some text to generate audio.") s, None)
  else if String.eqb API_KEY "" then
    (setError (Some "API key is not configured.") s, None)
  else
    (begin_generation s,
     Some (mkGeneration (text s) (selectedVoice s) (speed s))).

(** The [try] block of a generation in flight from its [await] on, in the
    state the component has by then. *)
Definition try_resumed (g : Generation) (s : State)
    (settled : Settled (option string)) : State * option value :=
  match settled with
  | Rejected reason => (s, Some reason)
  | Fulfilled base64Audio =>
      match base64Audio with
      | Some audio =>
          if negb (String.eqb audio "") then
            let s :=
              addToHistory
                (mkVoiceHistory (g_text g) (g_voice g) (g_speed g) audio) s in
            match AudioUtils.decode audio with
            | Throw e => (s, Some (thrown e))
            | Ok audioBytes =>
                match AudioUtils.createWavBlob audioBytes 24000 1 with
                | Throw e => (s, Some (thrown e))
                | Ok wavBlob => (setAudioUrl (Some wavBlob) s, None)
                end
            end
          else (s, Some (VError "No audio data received from API."))
      | None => (s, Some (VError "No audio data received from API."))
      end
  end.

(** [handleGenerate] from its [await] on: the rest of the [try] block, the
    [catch] block and the [finally] block. *)
Definition handleGenerate_resumes (g : Generation) (s : State)
    (settled : Settled (option string)) : State * option exn :=
  match try_resumed g s settled with
  | (s, None) => (setIsLoading false s, None)
  | (s, Some e) =>
      match catch_generation s e with
      | Ok s => (setIsLoading false s, None)
      | Throw e' => (setIsLoading false s, Some e')
      end
  end.

End Component.

(** The effect clean-up: [if (timerRef.current) clearInterval(timerRef.current)]. *)
Definition cleanup (s : State) : State := clear_timerRef s.


(** At most the timer [timerRef] holds is live. *)
Definition one_timer (s : State) : Prop :=
  forall id, id ∈ intervals s -> timerRef s = Some id.

(** The timer [timerRef] holds was created before the next one will be. *)
Definition timers_wf (s : State) : Prop :=
  one_timer s /\
  forall id, timerRef s = Some id -> (id < next_interval s)%positive.


Definition setText (v : string) (s : State) : State :=
  mkState v (selectedVoice s) (speed s) (isLoading s) (error s) (audioUrl s)
    (isPlaying s) (retryAfter s) (timerRef s) (intervals s) (next_interval s)
    (history s).



(** ** The speed instruction and the history effect *)

(** The doubles that the literals [0.7] and [1.3] denote; a speed is the
    rational value of a double, so that the comparisons are exact. *)
Definition double_0_7 : Q := 3152519739159347 # 4503599627370496.
Definition double_1_3 : Q := 5854679515581645 # 4503599627370496.

(** [a < b] on numbers *)
Definition Qlt_bool (a b : Q) : bool := negb (Qle_bool b a).

(** [const getSpeedPrefix = (currentSpeed: number): string]. *)
Definition getSpeedPrefix (currentSpeed : Q) : string :=
  if Qle_bool currentSpeed double_0_7 then "Speak very slowly. "
  else if Qlt_bool currentSpeed 1 then "Speak slowly. "
  else if Qle_bool double_1_3 currentSpeed then "Speak very quickly. "
  else if Qlt_bool 1 currentSpeed then "Speak quickly. "
  else "".

(** The [historyItem] prop as the component looks at it: an item of type
    ['voice'], whose data are a [VoiceHistory], or an item of another tool. *)
Inductive HistoryItem : Type :=
| VoiceItem (data : VoiceHistory)
| OtherItem.

Definition setSelectedVoice (v : string) (s : State) : State :=
  mkState (text s) v (speed s) (isLoading s) (error s) (audioUrl s)
    (isPlaying s) (retryAfter s) (timerRef s) (intervals s) (next_interval s)
    (history s).

Definition setSpeed (v : Q) (s : State) : State :=
  mkState (text s) (selectedVoice s) v (isLoading s) (error s) (audioUrl s)
    (isPlaying s) (retryAfter s) (timerRef s) (intervals s) (next_interval s)
    (history s).

(** The effect on [historyItem]: the text, the voice, the speed and the
    audio of an item of this tool are loaded into the state. *)
Definition historyItem_effect (historyItem : option HistoryItem) (s : State)
  : State :=
  match historyItem with
  | Some (VoiceItem data) =>
      let s := setText (vh_text data) s in
      let s := setSelectedVoice (vh_voice data) s in
      let s := setSpeed (vh_speed data) s in
      let s :=
        if negb (String.eqb (vh_audioBase64 data) "") then
          match
            audioBytes ← AudioUtils.decode (vh_audioBase64 data);
            AudioUtils.createWavBlob audioBytes 24000 1
          with
          | Ok wavBlob => setAudioUrl (Some wavBlob) s
          | Throw e =>
              let s :=
                setError (Some "Could not load audio from history.") s in
              setAudioUrl None s
          end
        else setAudioUrl None s in
      let s := setError None s in
      let s := setIsLoading false s in
      setIsPlaying false s
  | Some OtherItem | None => s
  end.

(** The guards of [handleGenerate] let the generation start. *)
Definition can_generate (API_KEY : string) (s : State) : Prop :=
  String.eqb (trim (text s)) "" = false /\ String.eqb API_KEY "" = false.

(** ** Runs of the tool

    The tool with the generations in flight: every call of [handleGenerate]
    that passed its guards and whose remote call has not settled yet. *)
Record Tool : Type := mkTool {
  ui : State;
  inflight : list Generation
}.

(** What happens to a mounted tool: the button is clicked, which is possible
    while it is not disabled ([disabled={isLoading || retryAfter > 0}]); the
    remote call of a generation in flight settles; a live timer fires; the
    effect clean-up runs; the text is edited; a history item is loaded. *)
Inductive Event : Type :=
| Clicks
| Settles (k : nat) (settled : Settled (option string))
| Fires (id : positive)
| CleansUp
| Types (text : string)
| Loads (item : HistoryItem).

Section Run.

Variable JSON_parse : string -> option ErrorUtils.value.
Variable API_KEY : string.

Definition step (t : Tool) (ev : Event) : option Tool :=
  match ev with
  | Clicks =>
      if isLoading (ui t) || (0 <? retryAfter (ui t)) then None
      else
        let '(s, g) := handleGenerate_begins API_KEY (ui t) in
        Some (mkTool s (inflight t ++ option_list g))
  | Settles k settled =>
      g ← inflight t !! k;
      Some (mkTool (fst (handleGenerate_resumes JSON_parse g (ui t) settled))
              (delete k (inflight t)))
  | Fires id =>
      s ← interval_fires id (ui t);
      Some (mkTool s (inflight t))
  | CleansUp => Some (mkTool (cleanup (ui t)) (inflight t))
  | Types text => Some (mkTool (setText text (ui t)) (inflight t))
  | Loads item =>
      Some (mkTool (historyItem_effect (Some item) (ui t)) (inflight t))
  end.

Fixpoint run (events : list Event) (t : Tool) : option Tool :=
  match events with
  | [] => Some t
  | ev :: rest => t' ← step t ev; run rest t'
  end.

(** The states a tool reaches from a state without timers in which never two
    generations are in flight. *)
Inductive serial : Tool -> Prop :=
| serial_mounted s :
    timerRef s = None -> intervals s = ∅ -> serial (mkTool s [])
| serial_step t ev t' :
    serial t -> step t ev = Some t' -> (length (inflight t') <= 1)%nat ->
    serial t'.

End Run.

Definition is_load (ev : Event) : bool :=
  match ev with
  | Loads _ => true
  | _ => false
  end.

(** At most the timer of [timerRef] is live, at most one generation is in
    flight, and no timer is live while one is. *)
Definition calm (t : Tool) : Prop :=
  timers_wf (ui t) /\ (length (inflight t) <= 1)%nat /\
  (inflight t <> [] -> intervals (ui t) = ∅).

(** No generation is in flight, or one is and the tool is loading. *)
Definition gated (t : Tool) : Prop :=
  inflight t = [] \/ exists g, inflight t = [g] /\ isLoading (ui t) = true.

End VoiceGenerator.

(** * components/TodoManager *)

Module TodoManager.

Record TodoItem : Type := mkTodoItem {
  id : string;
  text : string;
  completed : bool
}.

Record TodoHistory : Type := mkTodoHistory {
  title : string;
  todo_tasks : list TodoItem
}.

(** The calls the component makes to the history store of its parent. *)
Inductive StoreCall : Type :=
| UpdateList (listId : string) (tasks : list TodoItem)
| NewList (data : TodoHistory).

(** The state of the component, its [currentListId] ref, and the calls made
    to the parent so far. *)
Record State : Type := mkState {
  tasks : list TodoItem;
  newTaskText : string;
  editingTaskId : option string;
  editingTaskText : string;
  currentListId : option string;
  calls : list StoreCall
}.

(** A string is truthy when it is not empty. *)
Definition nonempty (s : string) : bool := negb (String.eqb s "").

Section Component.

(** [onNewList] of the parent: the id of the list it created. *)
Variable onNewList : TodoHistory -> string.

(** [const handleUpdateHistory = (updatedTasks: TodoItem[])]. *)
Definition handleUpdateHistory (updatedTasks : list TodoItem) (s : State)
  : State :=
  match currentListId s with
  | Some listId =>
      if nonempty listId then
        mkState (tasks s) (newTaskText s) (editingTaskId s) (editingTaskText s)
          (currentListId s) (calls s ++ [UpdateList listId updatedTasks])
      else
        let data := mkTodoHistory "New To-Do List" updatedTasks in
        mkState (tasks s) (newTaskText s) (editingTaskId s) (editingTaskText s)
          (Some (onNewList data)) (calls s ++ [NewList data])
  | None =>
      let data := mkTodoHistory "New To-Do List" updatedTasks in
      mkState (tasks s) (newTaskText s) (editingTaskId s) (editingTaskText s)
        (Some (onNewList data)) (calls s ++ [NewList data])
  end.

Definition setTasks (v : list TodoItem) (s : State) : State :=
  mkState v (newTaskText s) (editingTaskId s) (editingTaskText s)
    (currentListId s) (calls s).

Definition setNewTaskText (v : string) (s : State) : State :=
  mkState (tasks s) v (editingTaskId s) (editingTaskText s)
    (currentListId s) (calls s).

Definition setEditingTaskId (v : option string) (s : State) : State :=
  mkState (tasks s) (newTaskText s) v (editingTaskText s)
    (currentListId s) (calls s).

Definition setEditingTaskText (v : string) (s : State) : State :=
  mkState (tasks s) (newTaskText s) (editingTaskId s) v
    (currentListId s) (calls s).

(** The id of a new task: [`task-${Date.now()}`]. *)
Definition task_id (now : Z) : string := "task-" +:+ pretty now.

(** [const handleAddTask = (e: React.FormEvent)], with the value [Date.now()]
    returns. *)
Definition handleAddTask (now : Z) (s : State) : State :=
  if negb (nonempty (trim (newTaskText s))) then s
  else
    let newTask := mkTodoItem (task_id now) (trim (newTaskText s)) false in
    let updatedTasks := tasks s ++ [newTask] in
    let s := setTasks updatedTasks s in
    let s := setNewTaskText "" s in
    handleUpdateHistory updatedTasks s.

(** [const handleToggleComplete = (taskId: string)]. *)
Definition handleToggleComplete (taskId : string) (s : State) : State :=
  let updatedTasks :=
    (fun task =>
       if String.eqb (id task) taskId
       then mkTodoItem (id task) (text task) (negb (completed task))
       else task) <$> tasks s in
  let s := setTasks updatedTasks s in
  handleUpdateHistory updatedTasks s.

(** [const handleDeleteTask = (taskId: string)]. *)
Definition handleDeleteTask (taskId : string) (s : State) : State :=
  let updatedTasks :=
    List.filter (fun task => negb (String.eqb (id task) taskId)) (tasks s) in
  let s := setTasks updatedTasks s in
  handleUpdateHistory updatedTasks s.

(** [const startEditing = (task: TodoItem)]. *)
Definition startEditing (task : TodoItem) (s : State) : State :=
  setEditingTaskText (text task) (setEditingTaskId (Some (id task)) s).

(** [const handleEditTask = (e: React.FormEvent)]. *)
Definition handleEditTask (s : State) : State :=
  match editingTaskId s with
  | Some taskId =>
      if nonempty taskId && nonempty (trim (editingTaskText s)) then
        let updatedTasks :=
          (fun task =>
             if String.eqb (id task) taskId
             then mkTodoItem (id task) (trim (editingTaskText s))
                    (completed task)
             else task) <$> tasks s in
        let s := setTasks updatedTasks s in
        let s := handleUpdateHistory updatedTasks s in
        let s := setEditingTaskId None s in
        setEditingTaskText "" s
      else setEditingTaskId None s
  | None => setEditingTaskId None s
  end.

End Component.

(** The sequence of the task ids of the list. *)
Definition task_ids (s : State) : list string := id <$> tasks s.


(** ** The history effect, and runs of the component *)

(** The [historyItem] prop as the component looks at it: an item of type
    ['todo'], with its id and its [TodoHistory], or an item of another
    tool. *)
Inductive HistoryItem : Type :=
| TodoList (listId : string) (data : TodoHistory)
| OtherItem.

Definition set_currentListId (v : option string) (s : State) : State :=
  mkState (tasks s) (newTaskText s) (editingTaskId s) (editingTaskText s)
    v (calls s).

(** The effect on [historyItem]: the tasks and the id of a list are loaded;
    without a list the tasks are emptied and the id is forgotten. *)
Definition historyItem_effect (historyItem : option HistoryItem) (s : State)
  : State :=
  match historyItem with
  | Some (TodoList listId data) =>
      set_currentListId (Some listId) (setTasks (todo_tasks data) s)
  | Some OtherItem | None =>
      set_currentListId None (setTasks [] s)
  end.

(** What the user does: typing into the input of the new task, submitting
    it (with the value of the clock), ticking a box, deleting, opening the
    editor of a task, typing into it, and submitting or leaving it. *)
Inductive Event : Type :=
| TypesNew (text : string)
| SubmitsNew (now : Z)
| Toggles (taskId : string)
| Deletes (taskId : string)
| StartsEditing (task : TodoItem)
| TypesEdit (text : string)
| SubmitsEdit.

Section Runs.

Variable onNewList : TodoHistory -> string.

Definition step (s : State) (ev : Event) : State :=
  match ev with
  | TypesNew text => setNewTaskText text s
  | SubmitsNew now => handleAddTask onNewList now s
  | Toggles taskId => handleToggleComplete onNewList taskId s
  | Deletes taskId => handleDeleteTask onNewList taskId s
  | StartsEditing task => startEditing task s
  | TypesEdit text => setEditingTaskText text s
  | SubmitsEdit => handleEditTask onNewList s
  end.

Definition run (events : list Event) (s : State) : State :=
  foldl step s events.

(** The calls made so far are the creation of one list followed by updates
    of this list, whose id [currentListId] holds; or there are none and no
    list is known. *)
Definition one_list (s : State) : Prop :=
  match calls s with
  | [] => currentListId s = None
  | NewList data :: updates =>
      currentListId s = Some (onNewList data) /\
      Forall (fun c => exists t, c = UpdateList (onNewList data) t) updates
  | UpdateList _ _ :: _ => False
  end.

End Runs.

(** The tasks a call hands to the store. *)
Definition call_tasks (c : StoreCall) : list TodoItem :=
  match c with
  | UpdateList _ updatedTasks => updatedTasks
  | NewList data => todo_tasks data
  end.

(** The text of a task is trimmed and not empty. *)
Definition text_kept (task : TodoItem) : Prop :=
  trim (text task) = text task /\ text task <> "".

End TodoManager.

(** * components/Chatbot: submitting a message *)

Module Chatbot.
Import ErrorUtils.

Inductive Role : Type := user | model | system.

Record Source : Type := mkSource { uri : string; source_title : string }.

Record ChatMessage : Type := mkChatMessage {
  role : Role;
  text : string;
  imageUrl : option string;
  sources : option (list Source)
}.

Record ChatHistory : Type := mkChatHistory {
  messages_of : list ChatMessage;
  title : string;
  history_studyMode : bool;
  history_researchMode : bool
}.

(** The [historyItem] prop: the id of the item and its chat data. *)
Record HistoryItem : Type := mkHistoryItem {
  item_id : string;
  item_data : ChatHistory
}.

(** The attached image: the MIME type of the file, its base64 text and its
    preview URL. *)
Record ImageFile : Type := mkImageFile {
  file_type : string;
  base64 : string;
  url : string
}.

(** The state of the component, its refs ([timerRef], [currentChatId],
    whether [chatRef] holds a session), the interval timers of the window,
    and the [historyItem] prop. *)
Record State : Type := mkState {
  messages : list ChatMessage;
  input : string;
  imageFile : option ImageFile;
  isLoading : bool;
  error : option string;
  studyMode : bool;
  researchMode : bool;
  retryAfter : Z;
  timerRef : option positive;
  intervals : gset positive;
  next_interval : positive;
  currentChatId : option string;
  chatRef : bool;
  historyItem : option HistoryItem
}.

Definition setMessages (v : list ChatMessage) (s : State) : State :=
  mkState v (input s) (imageFile s) (isLoading s) (error s) (studyMode s)
    (researchMode s) (retryAfter s) (timerRef s) (intervals s)
    (next_interval s) (currentChatId s) (chatRef s) (historyItem s).

Definition setInput (v : string) (s : State) : State :=
  mkState (messages s) v (imageFile s) (isLoading s) (error s) (studyMode s)
    (researchMode s) (retryAfter s) (timerRef s) (intervals s)
    (next_interval s) (currentChatId s) (chatRef s) (historyItem s).

Definition setImageFile (v : option ImageFile) (s : State) : State :=
  mkState (messages s) (input s) v (isLoading s) (error s) (studyMode s)
    (researchMode s) (retryAfter s) (timerRef s) (intervals s)
    (next_interval s) (currentChatId s) (chatRef s) (historyItem s).

Definition setIsLoading (v : bool) (s : State) : State :=
  mkState (messages s) (input s) (imageFile s) v (error s) (studyMode s)
    (researchMode s) (retryAfter s) (timerRef s) (intervals s)
    (next_interval s) (currentChatId s) (chatRef s) (historyItem s).

Definition setError (v : option string) (s : State) : State :=
  mkState (messages s) (input s) (imageFile s) (isLoading s) v (studyMode s)
    (researchMode s) (retryAfter s) (timerRef s) (intervals s)
    (next_interval s) (currentChatId s) (chatRef s) (historyItem s).

Definition setRetryAfter (v : Z) (s : State) : State :=
  mkState (messages s) (input s) (imageFile s) (isLoading s) (error s)
    (studyMode s) (researchMode s) v (timerRef s) (intervals s)
    (next_interval s) (currentChatId s) (chatRef s) (historyItem s).

Definition set_currentChatId (v : option string) (s : State) : State :=
  mkState (messages s) (input s) (imageFile s) (isLoading s) (error s)
    (studyMode s) (researchMode s) (retryAfter s) (timerRef s) (intervals s)
    (next_interval s) v (chatRef s) (historyItem s).

Definition clearInterval (id : positive) (s : State) : State :=
  mkState (messages s) (input s) (imageFile s) (isLoading s) (error s)
    (studyMode s) (researchMode s) (retryAfter s) (timerRef s)
    (intervals s ∖ {[id]}) (next_interval s) (currentChatId s) (chatRef s)
    (historyItem s).

Definition setInterval_into_timerRef (s : State) : State :=
  let id := next_interval s in
  mkState (messages s) (input s) (imageFile s) (isLoading s) (error s)
    (studyMode s) (researchMode s) (retryAfter s) (Some id)
    ({[id]} ∪ intervals s) (Pos.succ id) (currentChatId s) (chatRef s)
    (historyItem s).

Definition clear_timerRef (s : State) : State :=
  match timerRef s with
  | Some id => clearInterval id s
  | None => s
  end.

Definition arm_retry (retryDelay : option number) (s : State) : State :=
  match retryDelay with
  | Some (Int delay) =>
      if negb (delay =? 0) && (0 <? delay)
      then setInterval_into_timerRef (setRetryAfter delay s)
      else s
  | Some NaN | None => s
  end.

(** A double quote, for the text of the image reply. *)
Definition dquote : string := String (ascii_of_nat 34) EmptyString.

(** [s.substring(start)] and [s.substring(0, n)]. *)
Definition substring_from (start : nat) (s : string) : string :=
  String.substring start (String.length s - start) s.
Definition substring_to (n : nat) (s : string) : string :=
  String.substring 0 n s.

(** The response of [ai.models.generateContent] for an image: the parts of
    the first candidate, each with the data of its [inlineData] if it has
    one; [None] when there is no candidate to read them from. *)
Definition ImageResponse : Type := option (list (option string)).

(** The response of [chat.sendMessage]: its text and the grounding chunks of
    its first candidate, each with its [web] source if it has one. *)
Record TextResponse : Type := mkTextResponse {
  response_text : string;
  groundingChunks : option (list (option Source))
}.

Section Component.

Variable JSON_parse : string -> option value.
Variable API_KEY : string.

(** The callbacks of the parent; either may throw. *)
Variable onNewChat : ChatHistory -> result string.
Variable onUpdateChat :
  string -> list ChatMessage -> string -> bool -> bool -> result unit.

(** What the two remote calls settle with when they are made. *)
Variable generateContent : Settled ImageResponse.
Variable sendMessage : Settled TextResponse.

(** [(historyItem.data as ChatHistory).title] on the optional prop. *)
Definition historyItem_title (s : State) : result string :=
  match historyItem s with
  | Some item => Ok (title (item_data item))
  | None => Throw TypeError
  end.

(** The branch of the [try] block for [/create <prompt>]. *)
Definition try_create (s : State) (currentInput : string)
    (newMessages : list ChatMessage) (chatId : option string)
  : State * option value :=
  let imagePrompt := substring_from 8 (trim currentInput) in
  match generateContent with
  | Rejected reason => (s, Some reason)
  | Fulfilled None => (s, Some (thrown TypeError))
  | Fulfilled (Some parts) =>
      let generatedImageUrl :=
        match List.find (fun part => bool_decide (is_Some part)) parts with
        | Some (Some data) => Some ("data:image/png;base64," +:+ data)
        | _ => None
        end in
      match generatedImageUrl with
      | Some imageUrl =>
          let modelMessage :=
            mkChatMessage model
              ("Here is the image you requested for: " +:+ dquote
               +:+ imagePrompt +:+ dquote)
              (Some imageUrl) None in
          let finalMessages := newMessages ++ [modelMessage] in
          let s := setMessages finalMessages s in
          match chatId with
          | Some chat =>
              match historyItem_title s with
              | Throw e => (s, Some (thrown e))
              | Ok t =>
                  match onUpdateChat chat finalMessages t (studyMode s)
                          (researchMode s) with
                  | Throw e => (s, Some (thrown e))
                  | Ok _ => (s, None)
                  end
              end
          | None =>
              let chatTitle :=
                "Image: " +:+ substring_to 20 imagePrompt +:+ "..." in
              match onNewChat
                      (mkChatHistory finalMessages chatTitle (studyMode s)
                         (researchMode s)) with
              | Throw e => (s, Some (thrown e))
              | Ok _ => (s, None)
              end
          end
      | None =>
          (s, Some (VError "Image generation failed to return an image."))
      end
  end.

(** The branch of the [try] block for a chat message. *)
Definition try_chat (s : State) (currentInput : string)
    (newMessages : list ChatMessage) (chatId : option string)
  : State * option value :=
  if negb (chatRef s) then (s, Some (VError "Chat session not initialized."))
  else
    match sendMessage with
    | Rejected reason => (s, Some reason)
    | Fulfilled response =>
        let sources :=
          match groundingChunks response with
          | Some chunks => Some (omap (fun chunk : option Source => chunk) chunks)
          | None => None
          end in
        let modelMessage :=
          mkChatMessage model (response_text response) None sources in
        let finalMessages := newMessages ++ [modelMessage] in
        let s := setMessages finalMessages s in
        match chatId with
        | Some chat =>
            match historyItem_title s with
            | Throw e => (s, Some (thrown e))
            | Ok t =>
                match onUpdateChat chat finalMessages t (studyMode s)
                        (researchMode s) with
                | Throw e => (s, Some (thrown e))
                | Ok _ => (s, None)
                end
            end
        | None =>
            let chatTitle :=
              substring_to 30 currentInput
              +:+ (if (30 <? String.length currentInput)%nat then "..." else "") in
            match onNewChat
                    (mkChatHistory finalMessages chatTitle (studyMode s)
                       (researchMode s)) with
            | Throw e => (s, Some (thrown e))
            | Ok newChatId => (set_currentChatId (Some newChatId) s, None)
            end
        end
    end.

(** The [catch] block:
    [setMessages(prev => prev.slice(0, prev.length - 1))] comes last. *)
Definition catch_submit (s : State) (e : value) : result State :=
  parsed ← handleGeminiError JSON_parse e;
  let s :=
    setError (Some ("Failed to get response: " +:+ userMessage parsed)) s in
  let s := arm_retry (retryDelay parsed) s in
  mret (setMessages (take (length (messages s) - 1) (messages s)) s).

(** [const handleSubmit = async (e: FormEvent)], run to the end: the state it
    leaves, and the exception it rejects with, if any. *)
Definition handleSubmit (s : State) : State * option exn :=
  if negb (TodoManager.nonempty (trim (input s))) || isLoading s
     || (0 <? retryAfter s)
  then (s, None)
  else if negb (TodoManager.nonempty API_KEY) then
    (setError (Some "API key is not configured.") s, None)
  else
    let s0 := s in
    let s := setError None s in
    let s := setRetryAfter 0 s in
    let s := clear_timerRef s in
    let currentInput := input s0 in
    let currentImageFile := imageFile s0 in
    let s := setInput "" s in
    let s := setImageFile None s in
    let userMessage :=
      mkChatMessage user currentInput
        ((fun f => "data:" +:+ file_type f +:+ ";base64," +:+ base64 f)
           <$> currentImageFile)
        None in
    let newMessages := messages s0 ++ [userMessage] in
    let s := setMessages newMessages s in
    let s := setIsLoading true s in
    let chatId :=
      match currentChatId s with
      | Some chat => if TodoManager.nonempty chat then Some chat else None
      | None => None
      end in
    let attempt :=
      if String.prefix "/create " (lower (trim currentInput))
      then try_create s currentInput newMessages chatId
      else try_chat s currentInput newMessages chatId in
    match attempt with
    | (s, None) => (setIsLoading false s, None)
    | (s, Some e) =>
        match catch_submit s e with
        | Ok s => (setIsLoading false s, None)
        | Throw e' => (setIsLoading false s, Some e')
        end
    end.

(** The message a submission adds for the user. *)
Definition user_message (s : State) : ChatMessage :=
  mkChatMessage user (input s)
    ((fun f => "data:" +:+ file_type f +:+ ";base64," +:+ base64 f)
       <$> imageFile s)
    None.

(** The guards of [handleSubmit] let the submission through. *)
Definition submits (s : State) : Prop :=
  TodoManager.nonempty (trim (input s)) = true /\
  isLoading s = false /\
  (0 <? retryAfter s) = false /\
  TodoManager.nonempty API_KEY = true.

(** The submission is a chat message, not a [/create] command. *)
Definition chat_turn (s : State) : Prop :=
  String.prefix "/create " (lower (trim (input s))) = false /\
  chatRef s = true.

End Component.


End Chatbot.

(** * components/ImageGenerator *)

Module ImageGenerator.
Import ErrorUtils.

Record ImageHistory : Type := mkImageHistory {
  ih_prompt : string;
  ih_aspectRatio : string;
  ih_imageUrl : string
}.

(** The [historyItem] prop as the component looks at it: an item of type
    ['image-gen'], whose data are an [ImageHistory], or an item of another
    tool. *)
Inductive HistoryItem : Type :=
| ImageItem (data : ImageHistory)
| OtherItem.

(** A generated image: its [image], if it has one, with the [imageBytes] of
    the image, if it has them. *)
Record GeneratedImage : Type := mkGeneratedImage {
  image : option (option string)
}.

(** The response of [ai.models.generateImages]: its [generatedImages], if it
    has them. *)
Record GenerateImagesResponse : Type := mkGenerateImagesResponse {
  generatedImages : option (list GeneratedImage)
}.

(** The state of the component, its [timerRef], the interval timers of the
    window and the items handed to [addToHistory]. *)
Record State : Type := mkState {
  prompt : string;
  aspectRatio : string;
  isLoading : bool;
  error : option string;
  imageUrl : option string;
  retryAfter : Z;
  timerRef : option positive;
  intervals : gset positive;
  next_interval : positive;
  history : list ImageHistory
}.

Definition setPrompt (v : string) (s : State) : State :=
  mkState v (aspectRatio s) (isLoading s) (error s) (imageUrl s)
    (retryAfter s) (timerRef s) (intervals s) (next_interval s) (history s).

Definition setAspectRatio (v : string) (s : State) : State :=
  mkState (prompt s) v (isLoading s) (error s) (imageUrl s)
    (retryAfter s) (timerRef s) (intervals s) (next_interval s) (history s).

Definition setIsLoading (v : bool) (s : State) : State :=
  mkState (prompt s) (aspectRatio s) v (error s) (imageUrl s)
    (retryAfter s) (timerRef s) (intervals s) (next_interval s) (history s).

Definition setError (v : option string) (s : State) : State :=
  mkState (prompt s) (aspectRatio s) (isLoading s) v (imageUrl s)
    (retryAfter s) (timerRef s) (intervals s) (next_interval s) (history s).

Definition setImageUrl (v : option string) (s : State) : State :=
  mkState (prompt s) (aspectRatio s) (isLoading s) (error s) v
    (retryAfter s) (timerRef s) (intervals s) (next_interval s) (history s).

Definition setRetryAfter (v : Z) (s : State) : State :=
  mkState (prompt s) (aspectRatio s) (isLoading s) (error s) (imageUrl s)
    v (timerRef s) (intervals s) (next_interval s) (history s).

Definition addToHistory (item : ImageHistory) (s : State) : State :=
  mkState (prompt s) (aspectRatio s) (isLoading s) (error s) (imageUrl s)
    (retryAfter s) (timerRef s) (intervals s) (next_interval s)
    (history s ++ [item]).

Definition clearInterval (id : positive) (s : State) : State :=
  mkState (prompt s) (aspectRatio s) (isLoading s) (error s) (imageUrl s)
    (retryAfter s) (timerRef s) (intervals s ∖ {[id]}) (next_interval s)
    (history s).

Definition setInterval_into_timerRef (s : State) : State :=
  let id := next_interval s in
  mkState (prompt s) (aspectRatio s) (isLoading s) (error s) (imageUrl s)
    (retryAfter s) (Some id) ({[id]} ∪ intervals s) (Pos.succ id)
    (history s).

Definition clear_timerRef (s : State) : State :=
  match timerRef s with
  | Some id => clearInterval id s
  | None => s
  end.

Definition arm_retry (retryDelay : option number) (s : State) : State :=
  match retryDelay with
  | Some (Int delay) =>
      if negb (delay =? 0) && (0 <? delay)
      then setInterval_into_timerRef (setRetryAfter delay s)
      else s
  | Some NaN | None => s
  end.

(** The text a template literal writes for a string that may be
    [undefined]. *)
Definition template_text (v : option string) : string :=
  match v with
  | Some text => text
  | None => "undefined"
  end.

Section Component.

Variable JSON_parse : string -> option value.
Variable API_KEY : string.
(** What [ai.models.generateImages] settles with. *)
Variable generateImages : Settled GenerateImagesResponse.

(** The [try] block of [handleGenerate]. *)
Definition try_generation (s : State) : State * option value :=
  match generateImages with
  | Rejected reason => (s, Some reason)
  | Fulfilled response =>
      match generatedImages response with
      | Some (first :: _) =>
          match image first with
          | Some base64ImageBytes =>
              let url :=
                "data:image/png;base64," +:+ template_text base64ImageBytes in
              let s := setImageUrl (Some url) s in
              (addToHistory (mkImageHistory (prompt s) (aspectRatio s) url) s,
               None)
          | None => (s, Some (thrown TypeError))
          end
      | Some [] | None =>
          (s, Some (VError "No image data received from API."))
      end
  end.

(** The [catch] block. *)
Definition catch_generation (s : State) (e : value) : result State :=
  parsed ← handleGeminiError JSON_parse e;
  let s := setError (Some (userMessage parsed)) s in
  mret (arm_retry (retryDelay parsed) s).

(** The head of [handleGenerate], after its guards. *)
Definition begin_generation (s : State) : State :=
  let s := setIsLoading true s in
  let s := setError None s in
  let s := setImageUrl None s in
  let s := setRetryAfter 0 s in
  clear_timerRef s.

(** [const handleGenerate = useCallback(async () => ...)], run to its end:
    the state it leaves and the exception it rejects with, if any. *)
Definition handleGenerate (s : State) : State * option exn :=
  if String.eqb (trim (prompt s)) "" then
    (setError (Some "Please enter a prompt to generate an image.") s, None)
  else if String.eqb API_KEY "" then
    (setError (Some "API key is not configured.") s, None)
  else
    let s := begin_generation s in
    match try_generation s with
    | (s, None) => (setIsLoading false s, None)
    | (s, Some e) =>
        match catch_generation s e with
        | Ok s => (setIsLoading false s, None)
        | Throw e' => (setIsLoading false s, Some e')
        end
    end.

End Component.

(** The effect on [historyItem]. *)
Definition historyItem_effect (historyItem : option HistoryItem) (s : State)
  : State :=
  match historyItem with
  | Some (ImageItem data) =>
      let s := setPrompt (ih_prompt data) s in
      let s := setAspectRatio (ih_aspectRatio data) s in
      let s := setImageUrl (Some (ih_imageUrl data)) s in
      let s := setError None s in
      setIsLoading false s
  | Some OtherItem | None => s
  end.

(** The guards of [handleGenerate] let the generation start. *)
Definition can_generate (API_KEY : string) (s : State) : Prop :=
  String.eqb (trim (prompt s)) "" = false /\ String.eqb API_KEY "" = false.


End ImageGenerator.

(** * Sample inputs

    Concrete values of the models above, used to run them. *)

(** The quota error of the API documentation, with its [RetryInfo]. *)
Definition quota_error_5s : ErrorUtils.value :=
  ErrorUtils.VObj
    [("error",
      ErrorUtils.VObj
        [("code", ErrorUtils.VNum (ErrorUtils.Int 429));
         ("message", ErrorUtils.VStr "Resource has been exhausted (e.g. check quota).");
         ("status", ErrorUtils.VStr "RESOURCE_EXHAUSTED");
         ("details",
          ErrorUtils.VArr
            [ErrorUtils.VObj
               [("@type", ErrorUtils.VStr "type.googleapis.com/google.rpc.Help")];
             ErrorUtils.VObj
               [("@type", ErrorUtils.VStr ErrorUtils.retry_info_type);
                ("retryDelay", ErrorUtils.VStr "5s")]])])].

(** A rate-limit error by its code alone, asking for ten seconds. *)
Definition rate_limit_10s : ErrorUtils.value :=
  ErrorUtils.VObj
    [("error",
      ErrorUtils.VObj
        [("code", ErrorUtils.VNum (ErrorUtils.Int 429));
         ("details",
          ErrorUtils.VArr
            [ErrorUtils.VObj
               [("@type", ErrorUtils.VStr ErrorUtils.retry_info_type);
                ("retryDelay", ErrorUtils.VStr "10s")]])])].

(** A [JSON.parse] that is never asked: the inputs below are not [Error]s. *)
Definition JSON_unused : string -> option ErrorUtils.value := fun _ => None.

(** A service that never finishes, and one that fails on the second attempt
    and finishes on the third. *)
Definition never_done (k : nat) (operation : VideoGenerator.GenerateVideosOperation)
  : result VideoGenerator.GenerateVideosOperation :=
  Ok (VideoGenerator.mkOperation false None).

Definition done_on_third (k : nat) (operation : VideoGenerator.GenerateVideosOperation)
  : result VideoGenerator.GenerateVideosOperation :=
  match k with
  | 2%nat => Throw (JsError "network")
  | 3%nat => Ok (VideoGenerator.mkOperation true (Some "https://example.invalid/v.mp4"))
  | _ => Ok (VideoGenerator.mkOperation false None)
  end.

(** The state of a freshly mounted voice tool. *)
Definition voice_tool : VoiceGenerator.State :=
  VoiceGenerator.mkState
    "Hello, welcome to Datamind AI. Turn your words into realistic voices instantly."
    "Kore" 1 false None None false 0 None ∅ 1%positive [].

(** A parent whose store names every new list the same. *)
Definition one_list_store (data : TodoManager.TodoHistory) : string := "list-1".

Definition two_tasks : TodoManager.State :=
  TodoManager.mkState
    [TodoManager.mkTodoItem "task-1700000000000" "buy milk" false;
     TodoManager.mkTodoItem "task-1700000000500" "call home" true]
    "  water plants " None "" (Some "list-1") [].

(** A chat that has had one turn, [currentChatId] holding the id the parent
    returned for it, and no [historyItem] prop. *)
Definition second_turn : Chatbot.State :=
  Chatbot.mkState
    [Chatbot.mkChatMessage Chatbot.user "hi" None None;
     Chatbot.mkChatMessage Chatbot.model "Hello! How can I help?" None None]
    "and again" None false None false false 0 None ∅ 1%positive
    (Some "chat-1") true None.

Definition parent_newChat (data : Chatbot.ChatHistory) : result string :=
  Ok "chat-1".
Definition parent_updateChat (chatId : string)
    (messages : list Chatbot.ChatMessage) (title : string)
    (studyMode researchMode : bool) : result unit :=
  Ok tt.


(** A chat before its first turn, with a message typed in. *)
Definition first_turn : Chatbot.State :=
  Chatbot.mkState [] "hi" None false None false false 0 None ∅ 1%positive
    None true None.

(** A three-byte video blob, and a reader that loads the data URL of every
    blob with the media type [video/mp4]. *)
Definition three_bytes : AudioUtils.Blob :=
  AudioUtils.mkBlob [x00; x01; x02] "video/mp4".

Definition mp4_reader (blob : AudioUtils.Blob) : AudioUtilsAsync.ReadOutcome :=
  AudioUtilsAsync.Loaded
    (AudioUtilsAsync.data_url "video/mp4" (AudioUtils.blob_bytes blob)).

(** The JSON text of a rate-limit payload, as the SDK puts it into the
    message of an [Error], and a [JSON.parse] that reads this text. *)
Definition rate_limit_payload : ErrorUtils.value :=
  ErrorUtils.VObj
    [("error", ErrorUtils.VObj [("code", ErrorUtils.VNum (ErrorUtils.Int 429))])].

Definition rate_limit_text : string :=
  "{" +:+ Chatbot.dquote +:+ "error" +:+ Chatbot.dquote +:+ ":{"
  +:+ Chatbot.dquote +:+ "code" +:+ Chatbot.dquote +:+ ":429}}".

Definition JSON_rate_limit (text : string) : option ErrorUtils.value :=
  if String.eqb text rate_limit_text then Some rate_limit_payload else None.

(** The error of the video API for a key that is not set up for it. *)
Definition entity_not_found : ErrorUtils.value :=
  ErrorUtils.VObj
    [("error",
      ErrorUtils.VObj
        [("code", ErrorUtils.VNum (ErrorUtils.Int 404));
         ("message", ErrorUtils.VStr "Requested entity was not found.");
         ("status", ErrorUtils.VStr "NOT_FOUND")])].


(** The state of a freshly mounted video tool, a page with a selected key,
    and a download that succeeds. *)
Definition video_tool : VideoGenerator.State :=
  VideoGenerator.mkState
    "A majestic lion roaring on a cliff at sunrise, epic cinematic style."
    "16:9" false "Warming up the AI director..." None None true 0 None ∅
    1%positive [].

Definition studio_with_key : VideoGenerator.AiStudio :=
  VideoGenerator.mkAiStudio (Fulfilled true) (Fulfilled tt).

Definition fetch_ok (url : string) : Settled VideoGenerator.Response :=
  Fulfilled (VideoGenerator.mkResponse true "OK" (Fulfilled three_bytes)).

Definition video_ready : VideoGenerator.GenerateVideosOperation :=
  VideoGenerator.mkOperation true (Some "https://example.invalid/v.mp4").

(** The state of a freshly mounted image tool, and a response with one
    image. *)
Definition image_tool : ImageGenerator.State :=
  ImageGenerator.mkState
    "A photorealistic image of an astronaut riding a horse on Mars, cinematic lighting."
    "1:1" false None None 0 None ∅ 1%positive [].

Definition one_image : ImageGenerator.GenerateImagesResponse :=
  ImageGenerator.mkGenerateImagesResponse
    (Some [ImageGenerator.mkGeneratedImage (Some (Some "iVBORw0KGgo="))]).

(** A to-do component before its first list, with a task typed in, and what
    a user may do next. *)
Definition no_list_yet : TodoManager.State :=
  TodoManager.mkState [] "  buy milk " None "" None [].

Definition a_morning : list TodoManager.Event :=
  [TodoManager.SubmitsNew 1700000000000;
   TodoManager.TypesNew "call home";
   TodoManager.SubmitsNew 1700000000500;
   TodoManager.Toggles "task-1700000000000";
   TodoManager.StartsEditing
     (TodoManager.mkTodoItem "task-1700000000500" "call home" false);
   TodoManager.TypesEdit " call mum ";
   TodoManager.SubmitsEdit;
   TodoManager.Deletes "task-1700000000000"].

(** A chat before its first turn, with an image command typed in. *)
Definition create_turn : Chatbot.State :=
  Chatbot.mkState [] "/create a red fox" None false None false false 0 None ∅
    1%positive None true None.


(** * Properties *)

(** Linear arithmetic with division and remainder by constants. *)
Ltac n_arith := zify; Z.to_euclidean_division_equations; lia.

(** ** The WAV container writer *)

Section Wav.
Import AudioUtils.

Lemma Z_of_byte_of_Z z : Z_of_byte (byte_of_Z z) = z mod 256.
Proof.
  unfold Z_of_byte, byte_of_Z.
  assert (Hr : 0 <= z mod 256 < 256) by (apply Z.mod_pos_bound; lia).
  destruct (Byte.of_N (Z.to_N (z mod 256))) as [b|] eqn:Hb.
  - apply Byte.to_of_N in Hb. simpl. rewrite Hb. lia.
  - apply Byte.of_N_None_iff in Hb. lia.
Qed.

Lemma Z_of_byte_range b : 0 <= Z_of_byte b < 256.
Proof.
  unfold Z_of_byte. pose proof (Byte.to_N_bounded b). lia.
Qed.

Lemma byte_of_Z_of_byte b : byte_of_Z (Z_of_byte b) = b.
Proof.
  unfold byte_of_Z. rewrite Z.mod_small by apply Z_of_byte_range.
  unfold Z_of_byte. rewrite N2Z.id, Byte.of_to_N. reflexivity.
Qed.

(** A two-byte little-endian store reads back as the value modulo 2^16. *)
Lemma le_value_store16 v :
  le_value (store_bytes 2 v true) = v mod 2 ^ 16.
Proof.
  cbn -[Z.mul Z.add Z.div Z.modulo Z.pow byte_of_Z].
  unfold stored_byte. rewrite !Z_of_byte_of_Z.
  change (8 * Z.of_nat 2) with 16. change (8 * Z.of_nat 0) with 0.
  change (8 * Z.of_nat 1) with 8.
  change (2 ^ 16) with 65536. change (2 ^ 8) with 256. change (2 ^ 0) with 1.
  pose proof (Z.mod_pos_bound v 65536 ltac:(lia)) as Hu.
  set (u := v mod 65536) in *. clearbody u.
  rewrite Z.div_1_r. Z.div_mod_to_equations. lia.
Qed.

(** A four-byte little-endian store reads back as the value modulo 2^32. *)
Lemma le_value_store32 v :
  le_value (store_bytes 4 v true) = v mod 2 ^ 32.
Proof.
  cbn -[Z.mul Z.add Z.div Z.modulo Z.pow byte_of_Z].
  unfold stored_byte. rewrite !Z_of_byte_of_Z.
  change (8 * Z.of_nat 4) with 32. change (8 * Z.of_nat 0) with 0.
  change (8 * Z.of_nat 1) with 8. change (8 * Z.of_nat 2) with 16.
  change (8 * Z.of_nat 3) with 24.
  change (2 ^ 32) with 4294967296. change (2 ^ 8) with 256.
  change (2 ^ 16) with 65536. change (2 ^ 24) with 16777216.
  change (2 ^ 0) with 1.
  pose proof (Z.mod_pos_bound v 4294967296 ltac:(lia)) as Hu.
  set (u := v mod 4294967296) in *. clearbody u.
  rewrite Z.div_1_r. Z.div_mod_to_equations. lia.
Qed.

(** Up to 2^53 in magnitude every integer is a double. *)
Lemma round_double_small z : Z.abs z <= 2 ^ 53 -> round_double z = z.
Proof.
  intros Hz. unfold round_double.
  now rewrite (proj2 (Z.leb_le (Z.abs z) (2 ^ 53)) Hz).
Qed.

Lemma double_of_small z : Z.abs z <= 2 ^ 53 -> double_of z = Some z.
Proof.
  intros Hz. unfold double_of. rewrite round_double_small by exact Hz.
  assert (Hlt : Z.abs z < 2 ^ 1024).
  { apply Z.le_lt_trans with (2 ^ 53); [exact Hz|].
    apply Z.pow_lt_mono_r; lia. }
  now rewrite (proj2 (Z.ltb_lt _ _) Hlt).
Qed.

Lemma is_double_small z : Z.abs z <= 2 ^ 53 -> is_double z.
Proof.
  intros Hz. split; [now apply round_double_small|].
  apply Z.le_lt_trans with (2 ^ 53); [exact Hz|].
  apply Z.pow_lt_mono_r; lia.
Qed.

Lemma byte_rate_exact r c :
  Z.abs (r * c) * 2 <= 2 ^ 53 -> byte_rate r c = r * c * 2.
Proof.
  intros H. unfold byte_rate, number_mul. cbn [mbind option_bind].
  rewrite double_of_small by lia. cbn [mbind option_bind].
  rewrite double_of_small by lia. reflexivity.
Qed.

Lemma block_align_exact c : Z.abs c * 2 <= 2 ^ 53 -> block_align c = c * 2.
Proof.
  intros H. unfold block_align, number_mul. cbn [mbind option_bind].
  rewrite double_of_small by lia. reflexivity.
Qed.

Lemma createWavBlob_eq p r c :
  createWavBlob p r c = Ok (mkBlob (wav_header (length p) r c ++ p) "audio/wav").
Proof.
  unfold createWavBlob.
  cbn -[Z.mul Z.add Z.div Z.of_nat stored_byte integer_of number_mul].
  unfold typed_set.
  cbn -[Z.mul Z.add Z.div Z.of_nat stored_byte integer_of number_mul].
  rewrite length_replicate, Nat.leb_refl.
  rewrite drop_replicate, Nat.sub_diag.
  cbn -[Z.mul Z.add Z.of_nat stored_byte integer_of number_mul].
  rewrite app_nil_r. reflexivity.
Qed.


Lemma getUint_at (w : nat) (pre bs post : list byte) :
  length bs = w ->
  getUint w (pre ++ bs ++ post) (length pre) = Ok (le_value bs).
Proof.
  intros Hw. unfold getUint.
  rewrite !length_app, Hw.
  replace (length pre + w <=? length pre + (w + length post))%nat with true
    by (symmetry; apply Nat.leb_le; lia).
  rewrite drop_app_length, <- Hw, take_app_length. reflexivity.
Qed.

Lemma wav_header_length n r c : length (wav_header n r c) = 44%nat.
Proof. reflexivity. Qed.

(** What the code stores: every numeric field modulo the width of its slot. *)
Lemma createWavBlob_stored p r c :
  riff_layout_stored (wav_header (length p) r c ++ p) p r c.
Proof.
  unfold riff_layout_stored, getUint16, getUint32.
  set (n := length p).
  repeat split.
  all: rewrite <- ?le_value_store32, <- ?le_value_store16.
  - exact (getUint_at 4 (take 4 (wav_header n r c)) (store_bytes 4 _ true)
             (drop 8 (wav_header n r c) ++ p) eq_refl).
  - exact (getUint_at 2 (take 22 (wav_header n r c)) (store_bytes 2 _ true)
             (drop 24 (wav_header n r c) ++ p) eq_refl).
  - exact (getUint_at 4 (take 24 (wav_header n r c)) (store_bytes 4 _ true)
             (drop 28 (wav_header n r c) ++ p) eq_refl).
  - exact (getUint_at 4 (take 28 (wav_header n r c)) (store_bytes 4 _ true)
             (drop 32 (wav_header n r c) ++ p) eq_refl).
  - exact (getUint_at 2 (take 32 (wav_header n r c)) (store_bytes 2 _ true)
             (drop 34 (wav_header n r c) ++ p) eq_refl).
  - exact (getUint_at 4 (take 40 (wav_header n r c)) (store_bytes 4 _ true)
             (drop 44 (wav_header n r c) ++ p) eq_refl).
Qed.

Lemma stored_as_specified out p r c :
  wav_fields_fit p r c ->
  riff_layout_stored out p r c -> riff_layout_as_specified out p r c.
Proof.
  unfold wav_fields_fit, riff_layout_stored, riff_layout_as_specified.
  intros (Hn & Hr & Hc & Hbr & Hba).
  intros (H0 & H1 & H2 & H3 & H4 & H5 & H6 & H7 & H8 & H9 & H10 & H11 & H12
          & H13 & H14).
  assert (Hrc : 0 <= r * c) by nia.
  assert (H32 : 2 ^ 32 <= 2 ^ 53) by (apply Z.pow_le_mono_r; lia).
  rewrite byte_rate_exact in H9 by lia.
  rewrite block_align_exact in H10 by lia.
  rewrite Z.mod_small in H2 by lia.
  rewrite Z.mod_small in H7 by lia.
  rewrite Z.mod_small in H8 by lia.
  rewrite Z.mod_small in H9 by nia.
  rewrite Z.mod_small in H10 by lia.
  rewrite Z.mod_small in H13 by lia.
  tauto.
Qed.

(** C1 (as amended): for a sample rate [r] and a channel count [c] that are
    integers, [createWavBlob] always returns an [audio/wav] blob of
    [44 + len p] bytes whose bytes from 44 on are [p] and whose header has
    the RIFF layout of the specification with the byte rate and the block
    alignment as the doubles compute them and every numeric field stored
    modulo the width of its slot (2^16 for the two-byte fields, 2^32 for the
    four-byte fields). The byte rate and the block alignment are [r * c * 2]
    and [c * 2] as long as the products stay within 2^53; and whenever the
    values fit their slots the layout is exactly the specified one, so that
    [r] and [c] are read back from the header. *)
Theorem createWavBlob_riff_layout (p : list byte) (r c : Z) :
  is_double r ->
  is_double c ->
  exists out,
    createWavBlob p r c = Ok (mkBlob out "audio/wav") /\
    riff_layout_stored out p r c /\
    (products_exact r c ->
     byte_rate r c = r * c * 2 /\ block_align c = c * 2) /\
    (wav_fields_fit p r c -> riff_layout_as_specified out p r c).
Proof.
  intros _ _.
  exists (wav_header (length p) r c ++ p).
  split; [apply createWavBlob_eq|].
  split; [apply createWavBlob_stored|].
  split.
  - intros [Hrc Hc]. split; [now apply byte_rate_exact|].
    now apply block_align_exact.
  - intros Hfit. apply stored_as_specified; [exact Hfit|].
    apply createWavBlob_stored.
Qed.

(** The layout at the parameters the voice tool uses: 24 kHz, mono. *)
Lemma createWavBlob_riff_layout_witness :
  exists out,
    createWavBlob [x01; x02; xff; x7f] 24000 1 = Ok (mkBlob out "audio/wav") /\
    riff_layout_as_specified out [x01; x02; xff; x7f] 24000 1.
Proof.
  destruct (createWavBlob_riff_layout [x01; x02; xff; x7f] 24000 1)
    as (out & Hout & _ & _ & Hspec).
  - split; [reflexivity|]. vm_compute. reflexivity.
  - split; [reflexivity|]. vm_compute. reflexivity.
  - exists out. split; [exact Hout|].
    apply Hspec. unfold wav_fields_fit. simpl. lia.
Defined.

(** C1 (as stated) fails for a channel count that does not fit the two-byte
    field, and for a byte rate that is not a double: with 65536 channels the
    header reads 0 channels; and at the rate 2^52 + 1 with 3 channels the
    product is rounded to 3 * 2^52 + 4, so that the header reads a byte rate
    of 8 and not of [(r * c * 2) mod 2^32 = 6]. *)
Lemma createWavBlob_header_differs :
  ~ (exists out,
       createWavBlob [] 24000 65536 = Ok (mkBlob out "audio/wav") /\
       riff_layout_as_specified out [] 24000 65536) /\
  (is_double (2 ^ 52 + 1) /\
   exists out,
     createWavBlob [] (2 ^ 52 + 1) 3 = Ok (mkBlob out "audio/wav") /\
     getUint32 out 28 = Ok 8 /\
     ((2 ^ 52 + 1) * 3 * 2) mod 2 ^ 32 = 6).
Proof.
  split.
  - intros (out & Hout & Hspec).
    rewrite createWavBlob_eq in Hout. injection Hout as <-.
    destruct Hspec as (_ & _ & _ & _ & _ & _ & _ & Hc & _).
    vm_compute in Hc. discriminate Hc.
  - split; [split; [reflexivity|vm_compute; reflexivity]|].
    eexists. split; [apply createWavBlob_eq|].
    split; vm_compute; reflexivity.
Qed.

End Wav.

(** ** The base64 transcoders *)

Section Base64.
Import AudioUtils.

(** Lists are consumed three elements at a time by [btoa]. *)
Lemma triples_ind {A} (P : list A -> Prop) :
  P [] ->
  (forall a, P [a]) ->
  (forall a b, P [a; b]) ->
  (forall a b c rest, P rest -> P (a :: b :: c :: rest)) ->
  forall l, P l.
Proof.
  intros H0 H1 H2 H3 l.
  assert (Hall : P l /\ (forall a, P (a :: l)) /\ (forall a b, P (a :: b :: l))).
  { induction l as [|x l (IH0 & IH1 & IH2)]; [now auto|].
    split; [apply IH1|]. split; [intros a; apply IH2|].
    intros a b. apply H3, IH0. }
  apply Hall.
Qed.

(** Each of the 64 sextets is written as a character that [atob] reads back. *)
Lemma sextet_ok_all k : (k < 64)%N -> sextet_ok k = true.
Proof.
  intros Hk. destruct k as [|p]; [reflexivity|].
  do 6 (destruct p as [p|p|]; try reflexivity); lia.
Qed.

Lemma char_sextet_sextet_char k :
  (k < 64)%N -> char_sextet (sextet_char k) = Some k.
Proof.
  intros Hk. pose proof (sextet_ok_all k Hk) as H. unfold sextet_ok in H.
  apply andb_prop in H as [H _]. apply andb_prop in H as [H _].
  destruct (char_sextet (sextet_char k)) as [k'|]; [|discriminate].
  apply N.eqb_eq in H. congruence.
Qed.

Lemma sextet_char_not_whitespace k :
  (k < 64)%N -> is_ascii_whitespace (sextet_char k) = false.
Proof.
  intros Hk. pose proof (sextet_ok_all k Hk) as H. unfold sextet_ok in H.
  apply andb_prop in H as [H _]. apply andb_prop in H as [_ H].
  apply negb_true_iff in H. exact H.
Qed.

Lemma sextet_char_not_pad k : (k < 64)%N -> is_pad (sextet_char k) = false.
Proof.
  intros Hk. pose proof (sextet_ok_all k Hk) as H. unfold sextet_ok in H.
  apply andb_prop in H as [_ H]. apply negb_true_iff in H. exact H.
Qed.


Lemma filter_all {A} (P : A -> Prop) `{forall x, Decision (P x)} (l : list A) :
  Forall P l -> filter P l = l.
Proof.
  induction 1 as [|x l Hx Hl IH]; [reflexivity|].
  rewrite filter_cons_True by exact Hx. now rewrite IH.
Qed.

Lemma btoa_units_not_whitespace us :
  Forall is_unit us ->
  Forall (fun c => is_ascii_whitespace c = false) (btoa_units us).
Proof.
  induction us as [|a|a b|a b c rest IH] using triples_ind; intros Hus.
  - constructor.
  - apply Forall_cons_1 in Hus as [Ha _]. unfold is_unit in Ha.
    cbn [btoa_units].
    repeat (apply Forall_cons_2;
            [first [reflexivity | apply sextet_char_not_whitespace; n_arith]|]).
    apply Forall_nil_2.
  - apply Forall_cons_1 in Hus as [Ha Hus].
    apply Forall_cons_1 in Hus as [Hb _]. unfold is_unit in *.
    cbn [btoa_units].
    repeat (apply Forall_cons_2;
            [first [reflexivity | apply sextet_char_not_whitespace; n_arith]|]).
    apply Forall_nil_2.
  - apply Forall_cons_1 in Hus as [Ha Hus].
    apply Forall_cons_1 in Hus as [Hb Hus].
    apply Forall_cons_1 in Hus as [Hc Hus]. unfold is_unit in *.
    cbn [btoa_units].
    repeat (apply Forall_cons_2;
            [apply sextet_char_not_whitespace; n_arith|]).
    apply IH, Hus.
Qed.

Lemma btoa_units_length us : exists k, length (btoa_units us) = (k * 4)%nat.
Proof.
  induction us as [|a|a b|a b c rest [k IH]] using triples_ind.
  - now exists 0%nat.
  - now exists 1%nat.
  - now exists 1%nat.
  - exists (S k). cbn [btoa_units length]. rewrite IH. reflexivity.
Qed.

(** Without its padding the encoding is the list of the characters of some
    sextets, whose number is not 1 modulo 4 and which [atob] regroups into the
    code units that were encoded. *)
Lemma btoa_units_sextets us :
  Forall is_unit us ->
  exists ss,
    remove_padding (btoa_units us) = sextet_char <$> ss /\
    Forall is_sextet ss /\
    (length ss mod 4 =? 1)%nat = false /\
    atob_sextets ss = us.
Proof.
  induction us as [|a|a b|a b c rest IH] using triples_ind; intros Hus.
  - exists []. repeat split; constructor.
  - apply Forall_cons_1 in Hus as [Ha _]. unfold is_unit in Ha.
    exists [a / 4; a mod 4 * 16]%N.
    split; [|split; [|split]].
    + cbn [btoa_units remove_padding].
      rewrite !sextet_char_not_pad by n_arith. reflexivity.
    + repeat (apply Forall_cons_2; [unfold is_sextet; n_arith|]).
      apply Forall_nil_2.
    + reflexivity.
    + cbn [atob_sextets]. f_equal. n_arith.
  - apply Forall_cons_1 in Hus as [Ha Hus].
    apply Forall_cons_1 in Hus as [Hb _]. unfold is_unit in *.
    exists [a / 4; a mod 4 * 16 + b / 16; b mod 16 * 4]%N.
    split; [|split; [|split]].
    + cbn [btoa_units remove_padding].
      rewrite !sextet_char_not_pad by n_arith. reflexivity.
    + repeat (apply Forall_cons_2; [unfold is_sextet; n_arith|]).
      apply Forall_nil_2.
    + reflexivity.
    + cbn [atob_sextets]. f_equal; [|f_equal]; n_arith.
  - apply Forall_cons_1 in Hus as [Ha Hus].
    apply Forall_cons_1 in Hus as [Hb Hus].
    apply Forall_cons_1 in Hus as [Hc Hus]. unfold is_unit in *.
    destruct (IH Hus) as (ss & Hpad & Hss & Hlen & Hdec).
    exists (a / 4 :: a mod 4 * 16 + b / 16 :: b mod 16 * 4 + c / 64
            :: c mod 64 :: ss)%N.
    split; [|split; [|split]].
    + cbn [btoa_units remove_padding].
      rewrite !sextet_char_not_pad by n_arith.
      cbn [andb]. rewrite Hpad. reflexivity.
    + repeat (apply Forall_cons_2; [unfold is_sextet; n_arith|]). exact Hss.
    + cbn [length].
      change (S (S (S (S (length ss))))) with (4 + length ss)%nat.
      replace ((4 + length ss) mod 4)%nat with (length ss mod 4)%nat; [exact Hlen|].
      symmetry. now rewrite (Nat.Div0.add_mod 4 _ 4), Nat.Div0.mod_same, Nat.add_0_l, Nat.Div0.mod_mod.
    + cbn [atob_sextets]. rewrite Hdec.
      f_equal; [|f_equal; [|f_equal]]; n_arith.
Qed.

Lemma mapM_char_sextet ss :
  Forall is_sextet ss -> mapM char_sextet (sextet_char <$> ss) = Some ss.
Proof.
  induction 1 as [|k ss Hk Hss IH]; [reflexivity|].
  rewrite fmap_cons. cbn [mapM].
  rewrite char_sextet_sextet_char by exact Hk. cbn [mbind option_bind].
  rewrite IH. reflexivity.
Qed.

Lemma chars_string_of_list l : chars (String.string_of_list_ascii l) = l.
Proof. apply String.list_ascii_of_string_of_list_ascii. Qed.

Lemma string_of_chars s : String.string_of_list_ascii (chars s) = s.
Proof. apply String.string_of_list_ascii_of_string. Qed.

Lemma ascii_of_N_of_ascii_list (l : list ascii) :
  ascii_of_N ∘ N_of_ascii <$> l = l.
Proof.
  induction l as [|c l IH]; [reflexivity|].
  cbn. now rewrite ascii_N_embedding, IH.
Qed.

(** [atob] undoes [btoa] on every binary string. *)
Lemma atob_btoa binary : atob (btoa binary) = Ok binary.
Proof.
  unfold atob, btoa. cbv zeta.
  assert (Hus : Forall is_unit (N_of_ascii <$> chars binary)).
  { apply Forall_fmap, Forall_true. intros c. apply N_ascii_bounded. }
  set (us := N_of_ascii <$> chars binary) in *.
  rewrite !chars_string_of_list.
  rewrite !filter_all by (apply btoa_units_not_whitespace, Hus).
  destruct (btoa_units_length us) as [k ->].
  rewrite Nat.Div0.mod_mul. cbn [Nat.eqb].
  destruct (btoa_units_sextets us Hus) as (ss & -> & Hss & Hlen & Hdec).
  rewrite length_fmap, Hlen, mapM_char_sextet by exact Hss.
  rewrite Hdec. unfold us. rewrite <- list_fmap_compose.
  f_equal. rewrite <- (string_of_chars binary) at 2.
  f_equal.
  apply ascii_of_N_of_ascii_list.
Qed.

Lemma byte_of_charCode_fromCharCode b : byte_of_Z (charCode (fromCharCode b)) = b.
Proof.
  unfold charCode, fromCharCode.
  rewrite ascii_of_byte_via_N, N_ascii_embedding.
  - apply byte_of_Z_of_byte.
  - pose proof (Byte.to_N_bounded b). lia.
Qed.

(** C2: decoding the base64 text of a byte sequence gives the byte sequence
    back, byte for byte and with its length. *)
Theorem decode_encode (b : list byte) : decode (encode b) = Ok b.
Proof.
  unfold decode, encode. rewrite atob_btoa. cbn.
  f_equal. rewrite chars_string_of_list.
  rewrite <- list_fmap_compose.
  induction b as [|x b IH]; [reflexivity|].
  cbn. now rewrite byte_of_charCode_fromCharCode, IH.
Qed.

End Base64.

(** ** PCM to float *)

Section Pcm.
Import AudioUtils.

Lemma signed16_range u : 0 <= u < 65536 -> -32768 <= signed16 u < 32768.
Proof.
  intros Hu. unfold signed16. destruct (Z.ltb_spec u 32768); lia.
Qed.

Lemma int16_of_range lo hi : -32768 <= int16_of lo hi < 32768.
Proof.
  unfold int16_of. apply signed16_range.
  pose proof (Z_of_byte_range lo). pose proof (Z_of_byte_range hi). lia.
Qed.

Lemma pcm_sample_range data k s :
  pcm_sample data k = Some s -> -32768 <= s < 32768.
Proof.
  unfold pcm_sample.
  destruct (data !! (2 * k)%nat) as [lo|]; [|discriminate].
  destruct (data !! (2 * k + 1)%nat) as [hi|]; [|discriminate].
  intros [= <-]. apply int16_of_range.
Qed.

Lemma pcm_sample_is_Some data k :
  (k < length data / 2)%nat -> is_Some (pcm_sample data k).
Proof.
  intros Hk. unfold pcm_sample.
  assert (H2 : (2 * k + 1 < length data)%nat).
  { pose proof (Nat.Div0.mul_div_le (length data) 2). lia. }
  destruct (lookup_lt_is_Some_2 data (2 * k)%nat ltac:(lia)) as [lo ->].
  destruct (lookup_lt_is_Some_2 data (2 * k + 1)%nat H2) as [hi ->].
  eauto.
Qed.

Lemma pcm_sample_cons2 lo hi rest k :
  pcm_sample (lo :: hi :: rest) (S k) = pcm_sample rest k.
Proof.
  unfold pcm_sample.
  replace (2 * S k)%nat with (S (S (2 * k))) by lia.
  replace (S (S (2 * k)) + 1)%nat with (S (S (2 * k + 1))) by lia.
  reflexivity.
Qed.

(** The view reads the byte buffer as the specification's samples. *)
Lemma Int16Array_elements_lookup bytes len k :
  (k < len)%nat ->
  Int16Array_elements bytes len !! k = pcm_sample bytes k.
Proof.
  revert bytes k. induction len as [|len IH]; intros bytes k Hk; [lia|].
  destruct bytes as [|lo [|hi rest]].
  - reflexivity.
  - cbn. unfold pcm_sample. destruct k; reflexivity.
  - destruct k as [|k].
    + reflexivity.
    + rewrite pcm_sample_cons2. cbn. apply IH. lia.
Qed.

Lemma Int16Array_elements_length bytes len :
  (len <= length bytes / 2)%nat ->
  length (Int16Array_elements bytes len) = len.
Proof.
  revert bytes. induction len as [|len IH]; intros bytes Hlen.
  - now destruct bytes.
  - destruct bytes as [|lo [|hi rest]]; [cbn in Hlen; lia..|].
    cbn [Int16Array_elements length]. f_equal. apply IH.
    change (length (lo :: hi :: rest)) with (2 + length rest)%nat in Hlen.
    replace (2 + length rest)%nat with (length rest + 1 * 2)%nat in Hlen by lia.
    rewrite Nat.div_add in Hlen by lia. lia.
Qed.

Lemma Qfloor_half (n : nat) :
  Z.to_nat (Qfloor (inject_Z (Z.of_nat n) / 2)) = (n / 2)%nat.
Proof.
  change 2%Q with (inject_Z (Z.of_nat 2)). rewrite <- Zdiv_Qdiv.
  rewrite <- (Nat2Z.inj_div n 2). apply Nat2Z.id.
Qed.

Lemma pcm_sample_view buffer (off len k : nat) :
  (k < len / 2)%nat ->
  pcm_sample (drop off buffer) k = pcm_sample (take len (drop off buffer)) k.
Proof.
  intros Hk. unfold pcm_sample.
  pose proof (Nat.Div0.mul_div_le len 2) as Hle.
  rewrite !lookup_take_lt by lia. reflexivity.
Qed.

(** The [Int16Array] on a view that starts at an even offset of its buffer:
    the whole 16-bit samples of the elements of the view. *)
Lemma Int16Array_view data :
  view_ok data ->
  Nat.even (view_byteOffset data) = true ->
  exists dataInt16,
    Int16Array (view_buffer data) (view_byteOffset data)
      (inject_Z (Z.of_nat (view_length data)) / 2)
    = Ok dataInt16 /\
    length dataInt16 = (view_length data / 2)%nat /\
    forall k, (k < view_length data / 2)%nat ->
              dataInt16 !! k = pcm_sample (view_bytes data) k.
Proof.
  intros Hok Heven. unfold view_ok in Hok. unfold Int16Array.
  rewrite Heven, Qfloor_half. cbn [negb].
  pose proof (Nat.Div0.mul_div_le (view_length data) 2) as Hle.
  rewrite (proj2 (Nat.leb_le _ _)) by lia.
  eexists. split; [reflexivity|]. split.
  - apply Int16Array_elements_length. rewrite length_drop.
    apply Nat.Div0.div_le_mono. lia.
  - intros k Hk. rewrite Int16Array_elements_lookup by exact Hk.
    unfold view_bytes. now apply pcm_sample_view.
Qed.


(** A loop of stores at [i = 0 .. k-1]: slot [j] holds the value stored for
    [j] when [j < k] is inside the array, and is untouched otherwise. *)
Lemma store_loop_length {A} (f : Z -> A) (l : list Z) (cd : list A) :
  length (foldl (fun cd i => <[Z.to_nat i := f i]> cd) cd l) = length cd.
Proof.
  revert cd. induction l as [|i l IH]; intros cd; [reflexivity|].
  cbn [foldl]. rewrite IH. apply length_insert.
Qed.

Lemma store_loop_lookup {A} (f : Z -> A) (cd : list A) (k j : nat) :
  foldl (fun cd i => <[Z.to_nat i := f i]> cd) cd (seqZ 0 (Z.of_nat k)) !! j
  = if decide (j < k)%nat then (fun _ => f (Z.of_nat j)) <$> cd !! j
    else cd !! j.
Proof.
  induction k as [|k IH].
  - rewrite seqZ_nil by lia. cbn [foldl]. now rewrite decide_False by lia.
  - replace (Z.of_nat (S k)) with (Z.of_nat k + 1) by lia.
    rewrite seqZ_app by lia. rewrite foldl_app.
    rewrite (seqZ_cons (0 + Z.of_nat k) 1), (seqZ_nil _ (Z.pred 1)) by lia.
    cbn [foldl].
    rewrite Z.add_0_l, Nat2Z.id.
    rewrite list_lookup_insert, store_loop_length.
    destruct (decide (k = j /\ (k < length cd)%nat)) as [[-> Hj]|Hn].
    + rewrite decide_True by lia.
      destruct (lookup_lt_is_Some_2 cd j Hj) as [x ->]. reflexivity.
    + rewrite IH. destruct (decide (j < k)%nat) as [Hjk|Hjk].
      * rewrite decide_True by lia. reflexivity.
      * destruct (decide (j < S k)%nat) as [Hjk'|Hjk']; [|reflexivity].
        assert (j = k) as -> by lia.
        rewrite lookup_ge_None_2 by lia. reflexivity.
Qed.

Lemma fill_channel_length dataInt16 c fc ch cd :
  length (fill_channel dataInt16 c fc ch cd) = length cd.
Proof. apply store_loop_length. Qed.

Lemma fill_channel_lookup dataInt16 c fc ch cd (j : nat) :
  (j < length cd)%nat ->
  Z.of_nat (length cd) <= Qceiling fc ->
  fill_channel dataInt16 c fc ch cd !! j
  = Some (div_32768 (dataInt16 !! Z.to_nat (Z.of_nat j * c + ch))).
Proof.
  intros Hj Hlen. unfold fill_channel, loop_indices.
  rewrite <- (Z2Nat.id (Qceiling fc)) by lia.
  rewrite (store_loop_lookup
             (fun i => div_32768 (dataInt16 !! Z.to_nat (i * c + ch)))).
  rewrite decide_True by lia.
  destruct (lookup_lt_is_Some_2 cd j Hj) as [x ->]. reflexivity.
Qed.

(** The outer loop: after the channels [0 .. m-1] each of them has been
    replaced by what the body makes of it. *)
Lemma for_channels_app l1 l2 body buffer :
  for_channels (l1 ++ l2) body buffer
  = (for_channels l1 body buffer ≫= for_channels l2 body).
Proof.
  revert buffer. induction l1 as [|ch l1 IH]; intros buffer; [reflexivity|].
  cbn [app for_channels]. destruct (body buffer ch) as [b|e]; cbn; auto.
Qed.

Lemma for_channels_fill (g : Z -> list float32 -> list float32) r chs (m : nat) :
  (m <= length chs)%nat ->
  for_channels (seqZ 0 (Z.of_nat m))
    (fun buffer channel =>
       channelData ← getChannelData buffer channel;
       mret (with_channel buffer channel (g channel channelData)))
    (mkAudioBuffer r chs)
  = Ok (mkAudioBuffer r
          (imap (fun j cd => if decide (j < m)%nat then g (Z.of_nat j) cd else cd)
             chs)).
Proof.
  induction m as [|m IH]; intros Hm.
  - rewrite seqZ_nil by lia. cbn [for_channels]. do 2 f_equal.
    apply list_eq. intros i. rewrite list_lookup_imap.
    destruct (chs !! i); reflexivity.
  - replace (Z.of_nat (S m)) with (Z.of_nat m + 1) by lia.
    rewrite seqZ_app, for_channels_app, IH by lia.
    rewrite (seqZ_cons (0 + Z.of_nat m) 1), (seqZ_nil _ (Z.pred 1)) by lia.
    cbn [mbind result_bind for_channels].
    unfold getChannelData. cbn [ab_channels].
    rewrite Z.add_0_l, Nat2Z.id, list_lookup_imap.
    destruct (lookup_lt_is_Some_2 chs m ltac:(lia)) as [cd Hcd].
    rewrite Hcd. cbn [fmap option_fmap option_map].
    rewrite decide_False by lia. cbn [mbind result_bind mret result_ret].
    unfold with_channel. cbn [ab_sampleRate ab_channels].
    rewrite !Nat2Z.id.
    do 2 f_equal. apply list_eq. intros i.
    rewrite list_lookup_insert, length_imap, !list_lookup_imap.
    destruct (decide (m = i /\ (m < length chs)%nat)) as [[<- _]|Hn].
    + rewrite Hcd. cbn. now rewrite decide_True by lia.
    + destruct (chs !! i) as [x|] eqn:Hx; [|reflexivity]. cbn.
      apply lookup_lt_Some in Hx.
      destruct (decide (i < m)%nat); destruct (decide (i < S m)%nat);
        try reflexivity; lia.
Qed.


Lemma frame_quotient_floor data (C : nat) :
  (1 <= C)%nat ->
  Z.to_nat (Qfloor (frame_quotient data (Z.of_nat C)))
  = (view_length data / 2 / C)%nat.
Proof.
  intros HC. unfold frame_quotient. rewrite <- Zdiv_Qdiv.
  rewrite <- Nat2Z.inj_div. apply Nat2Z.id.
Qed.

Lemma frame_quotient_ceiling data (C : nat) :
  (1 <= C)%nat ->
  Z.of_nat (view_length data / 2 / C)
  <= Qceiling (frame_quotient data (Z.of_nat C)).
Proof.
  intros HC. rewrite <- (frame_quotient_floor data C HC).
  pose proof (Qle_floor_ceiling (frame_quotient data (Z.of_nat C))) as Hfc.
  assert (0 <= Qfloor (frame_quotient data (Z.of_nat C))).
  { unfold frame_quotient. rewrite <- Zdiv_Qdiv.
    apply Z.div_pos; lia. }
  rewrite <- Zle_Qle in Hfc. lia.
Qed.

Lemma normalized_range s :
  -32768 <= s < 32768 -> (-1 <= inject_Z s / 32768 < 1)%Q.
Proof.
  intros Hs. unfold Qle, Qlt, Qdiv, Qmult, Qinv, inject_Z. cbn. lia.
Qed.

(** C9 (as amended): on a view that starts at an even offset of its buffer,
    and whenever the audio context supplies the buffer the function asks for,
    [decodeAudioData] returns it with one channel per requested channel, each
    holding [samples / channels] frames (the whole 16-bit samples of the
    elements of the view divided by the channel count, rounded down, so that
    a trailing byte or a trailing partial frame is dropped without a
    failure); frame [i] of channel [ch] is the signed little-endian sample
    [i * channels + ch] of the elements divided by 32768, a value of
    [[-1, 1)]. *)
Theorem decodeAudioData_deinterleaves
    (data : Uint8Array) (ctx : AudioContext) (sampleRate numChannels : Z) :
  view_ok data ->
  Nat.even (view_byteOffset data) = true ->
  1 <= numChannels ->
  supplies ctx numChannels (frame_quotient data numChannels) sampleRate ->
  exists buffer,
    decodeAudioData data ctx sampleRate numChannels = Ok buffer /\
    ab_sampleRate buffer = sampleRate /\
    length (ab_channels buffer) = Z.to_nat numChannels /\
    forall channel : nat,
      (channel < Z.to_nat numChannels)%nat ->
      exists channelData,
        ab_channels buffer !! channel = Some channelData /\
        length channelData
        = (view_length data / 2 / Z.to_nat numChannels)%nat /\
        forall i : nat,
          (i < length channelData)%nat ->
          exists s,
            pcm_sample (view_bytes data) (i * Z.to_nat numChannels + channel)
            = Some s /\
            channelData !! i = Some (F32 (inject_Z s / 32768)) /\
            (-1 <= inject_Z s / 32768 < 1)%Q.
Proof.
  intros Hok Heven Hc Hctx.
  set (C := Z.to_nat numChannels).
  assert (HC : (1 <= C)%nat) by (unfold C; lia).
  assert (HcC : numChannels = Z.of_nat C) by (unfold C; lia).
  clearbody C. subst numChannels.
  unfold decodeAudioData.
  destruct (Int16Array_view data Hok Heven) as (dataInt16 & -> & Hlen & Hget).
  cbn [mbind result_bind]. cbv zeta. rewrite Hlen.
  fold (frame_quotient data (Z.of_nat C)).
  set (fc := frame_quotient data (Z.of_nat C)) in *.
  unfold supplies in Hctx. rewrite Hctx. cbn [mbind result_bind].
  unfold loop_indices, silent_buffer. rewrite Qceiling_Z.
  set (F := Z.to_nat (Qfloor fc)).
  assert (HF : F = (view_length data / 2 / C)%nat)
    by (apply frame_quotient_floor, HC).
  rewrite Nat2Z.id.
  rewrite (for_channels_fill
             (fun channel => fill_channel dataInt16 (Z.of_nat C) fc channel))
    by (rewrite length_replicate; lia).
  eexists. split; [reflexivity|]. cbn [ab_sampleRate ab_channels].
  split; [reflexivity|].
  split; [now rewrite length_imap, length_replicate|].
  intros channel Hch.
  exists (fill_channel dataInt16 (Z.of_nat C) fc (Z.of_nat channel)
            (replicate F (F32 0))).
  split.
  { rewrite list_lookup_imap, lookup_replicate_2 by exact Hch.
    cbn. now rewrite decide_True by exact Hch. }
  rewrite fill_channel_length, length_replicate.
  split; [exact HF|].
  intros i Hi.
  assert (Hk : (i * C + channel < view_length data / 2)%nat).
  { pose proof (Nat.Div0.mul_div_le (view_length data / 2) C) as Hle.
    rewrite <- HF in Hle. nia. }
  assert (Hbytes : length (view_bytes data) = view_length data).
  { unfold view_bytes, view_ok in *. rewrite length_take, length_drop. lia. }
  destruct (pcm_sample_is_Some (view_bytes data) (i * C + channel)) as [s Hs];
    [now rewrite Hbytes|].
  exists s. split; [exact Hs|]. split.
  - rewrite fill_channel_lookup.
    + replace (Z.to_nat (Z.of_nat i * Z.of_nat C + Z.of_nat channel))
        with (i * C + channel)%nat by lia.
      rewrite Hget by exact Hk. rewrite Hs. reflexivity.
    + now rewrite length_replicate.
    + rewrite length_replicate, HF. apply frame_quotient_ceiling, HC.
  - apply normalized_range. eapply pcm_sample_range, Hs.
Qed.

(** Five samples for two channels, in a view that starts at byte 2 of its
    buffer and ends one byte before its end, with a context that accepts
    what it must: two frames per channel, the last sample and the odd
    trailing byte are dropped. *)
Lemma decodeAudioData_deinterleaves_witness :
  exists buffer,
    decodeAudioData
      (mkUint8Array
         [x52; x49; x00; x80; xff; x7f; x01; x00; xff; xff; x05; x00; x09; x46]
         2 11)
      standard_ctx 24000 2 = Ok buffer /\
    ab_channels buffer
    = [[F32 (-32768 # 32768); F32 (1 # 32768)];
       [F32 (32767 # 32768); F32 (-1 # 32768)]].
Proof.
  destruct (decodeAudioData_deinterleaves
              (mkUint8Array
                 [x52; x49; x00; x80; xff; x7f; x01; x00; xff; xff; x05; x00;
                  x09; x46]
                 2 11)
              standard_ctx 24000 2)
    as (buffer & Hrun & _).
  - unfold view_ok. cbn. lia.
  - reflexivity.
  - lia.
  - reflexivity.
  - exists buffer. split; [exact Hrun|].
    vm_compute in Hrun. injection Hrun as <-. reflexivity.
Defined.

(** C9 (as stated) fails on a view that starts at an odd offset of its
    buffer, which [Int16Array] refuses, and on bytes that do not fill one
    frame, for which a context of the Web Audio API is asked for a buffer of
    no frames, which it refuses. *)
Lemma decodeAudioData_fails :
  decodeAudioData (mkUint8Array [x00; x01; x00; x02; x00] 1 4)
    lenient_ctx 24000 1
  = Throw RangeError /\
  decodeAudioData (whole_buffer [x01; x00; x02]) standard_ctx 24000 2
  = Throw NotSupportedError /\
  decodeAudioData (whole_buffer []) standard_ctx 24000 1
  = Throw NotSupportedError.
Proof. repeat split. Qed.

End Pcm.

(** ** The error classifier *)

Section ClassifierFacts.
Import ErrorUtils.

Variable JSON_parse : string -> option value.

Lemma truthy_not_nullish v : truthy v = true -> nullish v = false.
Proof. destruct v; cbn; congruence. Qed.

Lemma get_not_nullish v k : nullish v = false -> get v k = Ok (prop v k).
Proof. intros H. unfold get. now rewrite H. Qed.

Lemma get_opt_prop v k : get_opt v k = Ok (prop v k).
Proof.
  unfold get_opt, get. destruct (nullish v) eqn:Hv; [|reflexivity].
  destruct v; try discriminate; reflexivity.
Qed.

Lemma string_or_falsy_lower v :
  string_or_falsy v = true ->
  exists s, toLowerCase (or_else v (VStr "")) = Ok s.
Proof.
  intros Hv. unfold or_else.
  destruct (truthy v) eqn:Ht; [|eexists; reflexivity].
  destruct v as [| |b|[z|]|s|?|?|?]; cbn in Hv, Ht; try congruence;
    try (rewrite Ht in Hv; discriminate Hv).
  eexists; reflexivity.
Qed.

Lemma string_or_falsy_truthy v :
  string_or_falsy v = true -> truthy v = true -> exists s, v = VStr s.
Proof.
  intros Hv Ht.
  destruct v as [| |b|[z|]|s|?|?|?]; cbn in Hv, Ht; try congruence;
    try (rewrite Ht in Hv; discriminate Hv).
  eexists; reflexivity.
Qed.

(** On a list of shaped entries the search for the retry hint does not throw
    and finds nothing or a shaped entry. *)
Lemma find_elem_shaped (p : value -> bool) elems :
  forallb detail_shaped elems = true ->
  exists r,
    find_elem (fun d => v ← get d "@type"; mret (p v)) elems = Ok r /\
    (r = VUndefined \/ detail_shaped r = true).
Proof.
  induction elems as [|d elems IH]; intros Hall.
  - exists VUndefined. split; [reflexivity|now left].
  - cbn in Hall. apply andb_prop in Hall as [Hd Hall].
    pose proof Hd as Hd'. unfold detail_shaped in Hd'.
    apply andb_prop in Hd' as [Hn _]. apply negb_true_iff in Hn.
    cbn [find_elem]. rewrite get_not_nullish by exact Hn.
    cbn [mbind result_bind mret result_ret].
    destruct (p (prop d "@type")).
    + exists d. split; [reflexivity|now right].
    + apply IH, Hall.
Qed.

Lemma some_elem_shaped (p : value -> bool) elems :
  forallb detail_shaped elems = true ->
  exists b, some_elem (fun d => v ← get d "reason"; mret (p v)) elems = Ok b.
Proof.
  induction elems as [|d elems IH]; intros Hall.
  - now exists false.
  - cbn in Hall. apply andb_prop in Hall as [Hd Hall].
    unfold detail_shaped in Hd.
    apply andb_prop in Hd as [Hn _]. apply negb_true_iff in Hn.
    cbn [some_elem]. rewrite get_not_nullish by exact Hn.
    cbn [mbind result_bind mret result_ret].
    destruct (p (prop d "reason")).
    + now exists true.
    + apply IH, Hall.
Qed.

Lemma find_opt_shaped (p : value -> bool) details :
  details_shaped details = true ->
  exists r,
    find_opt details (fun d => v ← get d "@type"; mret (p v)) = Ok r /\
    (r = VUndefined \/ detail_shaped r = true).
Proof.
  intros Hd. destruct details; cbn in Hd; try discriminate.
  - exists VUndefined. split; [reflexivity|now left].
  - exists VUndefined. split; [reflexivity|now left].
  - now apply find_elem_shaped.
Qed.

Lemma some_opt_shaped (p : value -> bool) details :
  details_shaped details = true ->
  exists r, some_opt details (fun d => v ← get d "reason"; mret (p v)) = Ok r.
Proof.
  intros Hd. destruct details; cbn in Hd; try discriminate.
  - now exists VUndefined.
  - now exists VUndefined.
  - destruct (some_elem_shaped p elems Hd) as [b Hb].
    exists (VBool b). cbn [some_opt]. now rewrite Hb.
Qed.

(** A value that can be printed is converted to a string. *)
Lemma printable_to_string v :
  printable v = true -> exists s, to_string v = Ok s.
Proof.
  revert v. fix IH 1.
  intros [| |[|]|n|s|elems|props|message]; cbn [printable to_string];
    try (intros _; eexists; reflexivity).
  - intros Hall.
    enough (exists l,
              (fix elements (l : list value) : result (list string) :=
                 match l with
                 | [] => Ok []
                 | e :: rest =>
                     match (if nullish e then Ok "" else to_string e) with
                     | Ok first =>
                         match elements rest with
                         | Ok others => Ok (first :: others)
                         | Throw err => Throw err
                         end
                     | Throw err => Throw err
                     end
                 end) elems = Ok l) as [l ->] by (eexists; reflexivity).
    induction elems as [|e rest IHl]; [eexists; reflexivity|].
    apply andb_prop in Hall as [He Hrest].
    destruct (IHl Hrest) as [l ->].
    destruct (nullish e); [eexists; reflexivity|].
    destruct (IH e He) as [first ->]. eexists; reflexivity.
  - destruct (assoc "toString" props); [discriminate|].
    intros _. eexists; reflexivity.
Qed.

(** C3 (as amended): on every input from which [getErrorObject] extracts a
    payload of the API's shape under [error] (a [message] that is a string
    when present, a [status] that can be printed, [details] that are a list
    of non-null entries whose [retryDelay] is a string when present), or
    extracts no payload and which is an [Error] or can be printed, the
    classifier does not throw and returns a result with its [userMessage]. *)
Theorem handleGeminiError_returns (error : value) :
  error_shaped (getErrorObject JSON_parse error) error = true ->
  exists r, handleGeminiError JSON_parse error = Ok r.
Proof.
  unfold error_shaped, handleGeminiError. cbv zeta.
  set (errorObj := getErrorObject JSON_parse error).
  rewrite get_opt_prop. cbn [mbind result_bind].
  set (apiError := prop errorObj "error").
  destruct (truthy apiError) eqn:Hapi.
  2: { intros Hprint.
       assert (exists s,
                 match error with
                 | VError message => Ok message
                 | _ => to_string error
                 end = Ok s) as [shown ->].
       { destruct error; try (apply printable_to_string, Hprint).
         eexists; reflexivity. }
       eexists; reflexivity. }
  intros Hshape. apply andb_prop in Hshape as [Hshape Hdet].
  apply andb_prop in Hshape as [Hmsg Hstatus].
  pose proof (truthy_not_nullish _ Hapi) as Hnn.
  rewrite !get_not_nullish by exact Hnn. cbn [mbind result_bind].
  destruct (string_or_falsy_lower _ Hmsg) as [message ->].
  cbn [mbind result_bind].
  destruct (strict_eq_str (prop apiError "status") "RESOURCE_EXHAUSTED"
            || strict_eq_int (prop apiError "code") 429).
  - destruct (find_opt_shaped (fun t => strict_eq_str t retry_info_type)
                _ Hdet) as (retryInfo & -> & Hri).
    cbn [mbind result_bind]. rewrite get_opt_prop. cbn [mbind result_bind].
    destruct (truthy (prop retryInfo "retryDelay")) eqn:Hhint;
      [|eexists; reflexivity].
    destruct Hri as [-> | Hri]; [discriminate Hhint|].
    unfold detail_shaped in Hri. apply andb_prop in Hri as [Hn Hrd].
    apply negb_true_iff in Hn. rewrite get_not_nullish by exact Hn.
    destruct (string_or_falsy_truthy _ Hrd Hhint) as [s ->].
    eexists; reflexivity.
  - destruct (includes message _); [eexists; reflexivity|].
    destruct (some_opt_shaped (fun r => strict_eq_str r "API_KEY_INVALID")
                _ Hdet) as (isInvalidKey & ->).
    cbn [mbind result_bind].
    destruct (truthy isInvalidKey || _).
    + destruct (includes message _); eexists; reflexivity.
    + destruct (includes message _); [eexists; reflexivity|].
      assert (exists shown,
                to_string
                  (or_else (prop apiError "message")
                     (or_else (prop apiError "status") (VStr "Unknown error")))
                = Ok shown) as [shown ->].
      { unfold or_else.
        destruct (truthy (prop apiError "message")) eqn:Hm.
        - destruct (string_or_falsy_truthy _ Hmsg Hm) as [m ->].
          eexists; reflexivity.
        - destruct (truthy (prop apiError "status"));
            [now apply printable_to_string|eexists; reflexivity]. }
      eexists; reflexivity.
Qed.

Lemma find_elem_listed elems :
  forallb (fun d => negb (nullish d)) elems = true ->
  find_elem (fun d => v ← get d "@type"; mret (strict_eq_str v retry_info_type))
    elems
  = Ok (default VUndefined (List.find is_retry_info elems)).
Proof.
  induction elems as [|d elems IH]; intros Hall; [reflexivity|].
  cbn in Hall. apply andb_prop in Hall as [Hn Hall].
  apply negb_true_iff in Hn.
  cbn [find_elem List.find]. rewrite get_not_nullish by exact Hn.
  cbn [mbind result_bind mret result_ret]. unfold is_retry_info at 1.
  destruct (strict_eq_str (prop d "@type") retry_info_type); [reflexivity|].
  apply IH, Hall.
Qed.

Lemma find_opt_listed details :
  details_listed details = true ->
  find_opt details
    (fun d => v ← get d "@type"; mret (strict_eq_str v retry_info_type))
  = Ok (retry_info_of details).
Proof.
  intros Hd. destruct details; cbn in Hd; try discriminate; try reflexivity.
  now apply find_elem_listed.
Qed.

(** The classifier on a structured quota error, up to the retry hint. *)
Lemma handleGeminiError_quota_hint (error : value) :
  let apiError := prop (getErrorObject JSON_parse error) "error" in
  truthy apiError = true ->
  string_or_falsy (prop apiError "message") = true ->
  quota_error apiError = true ->
  details_listed (prop apiError "details") = true ->
  handleGeminiError JSON_parse error
  = (let retryInfo := retry_info_of (prop apiError "details") in
     if truthy (retry_hint apiError) then
       hint ← get retryInfo "retryDelay";
       digits ← replace hint "s" "";
       let delay := parseInt digits in
       mret (mkParsedError
               ("You've hit the API rate limit. Please try again in "
                +:+ number_to_string delay +:+ " seconds.")
               None (Some delay))
     else mret (mkParsedError quota_message None None)).
Proof.
  intros apiError Hapi Hmsg Hq Hd. unfold handleGeminiError. cbv zeta.
  rewrite get_opt_prop. cbn [mbind result_bind].
  fold apiError. rewrite Hapi.
  pose proof (truthy_not_nullish _ Hapi) as Hnn.
  rewrite !get_not_nullish by exact Hnn. cbn [mbind result_bind].
  destruct (string_or_falsy_lower _ Hmsg) as [message ->].
  cbn [mbind result_bind].
  unfold quota_error in Hq. rewrite Hq.
  rewrite find_opt_listed by exact Hd. cbn [mbind result_bind].
  rewrite get_opt_prop. cbn [mbind result_bind]. reflexivity.
Qed.

(** C4 (as amended): a structured quota error (status [RESOURCE_EXHAUSTED]
    or code 429) whose [message] is a string when present and whose
    [details], when present, are a list of non-null entries is classified by
    the first entry of [details] that is typed as [RetryInfo]: when this
    entry states a delay of ["5s"], with [retryDelay = 5] and a message that
    contains ["5"]; when there is no such entry, or it states no delay, with
    the quota-exceeded message and no [retryDelay]. *)
Theorem handleGeminiError_quota (error : value) :
  let apiError := prop (getErrorObject JSON_parse error) "error" in
  truthy apiError = true ->
  string_or_falsy (prop apiError "message") = true ->
  quota_error apiError = true ->
  details_listed (prop apiError "details") = true ->
  (retry_hint apiError = VStr "5s" ->
   exists r,
     handleGeminiError JSON_parse error = Ok r /\
     retryDelay r = Some (Int 5) /\
     includes (userMessage r) "5" = true) /\
  (truthy (retry_hint apiError) = false ->
   handleGeminiError JSON_parse error
   = Ok (mkParsedError quota_message None None)).
Proof.
  intros apiError Hapi Hmsg Hq Hd.
  rewrite (handleGeminiError_quota_hint error Hapi Hmsg Hq Hd).
  fold apiError. cbv zeta. split.
  - intros Hhint.
    assert (Hn : nullish (retry_info_of (prop apiError "details")) = false).
    { unfold retry_hint in Hhint.
      destruct (retry_info_of (prop apiError "details")); try reflexivity;
        discriminate Hhint. }
    rewrite get_not_nullish by exact Hn.
    fold (retry_hint apiError). rewrite Hhint.
    eexists. split; [reflexivity|]. split; reflexivity.
  - intros Hhint. rewrite Hhint. reflexivity.
Qed.

End ClassifierFacts.

Lemma handleGeminiError_quota_witness :
  exists r,
    ErrorUtils.handleGeminiError JSON_unused quota_error_5s = Ok r /\
    ErrorUtils.retryDelay r = Some (ErrorUtils.Int 5) /\
    ErrorUtils.includes (ErrorUtils.userMessage r) "5" = true.
Proof.
  apply (handleGeminiError_quota JSON_unused quota_error_5s);
    reflexivity.
Defined.

Lemma handleGeminiError_returns_witness :
  exists r, ErrorUtils.handleGeminiError JSON_unused quota_error_5s = Ok r.
Proof.
  apply (handleGeminiError_returns JSON_unused quota_error_5s). reflexivity.
Defined.

(** C3 (as stated) fails on a plain object whose [error.message] is a number:
    [(42).toLowerCase] is not a function. *)
Lemma handleGeminiError_throws_on_numeric_message :
  ErrorUtils.handleGeminiError JSON_unused
    (ErrorUtils.VObj
       [("error", ErrorUtils.VObj [("message", ErrorUtils.VNum (ErrorUtils.Int 42))])])
  = Throw TypeError.
Proof. reflexivity. Qed.

(** C4 (as stated) fails on quota errors that carry a retry delay of ["5s"]
    in their details: behind an entry that is [null] the search throws, and
    behind a [RetryInfo] entry that states no delay the delay is not looked
    for, so that the result has no [retryDelay]. *)
Lemma handleGeminiError_quota_misses_delay :
  ErrorUtils.handleGeminiError JSON_unused
    (ErrorUtils.VObj
       [("error",
         ErrorUtils.VObj
           [("status", ErrorUtils.VStr "RESOURCE_EXHAUSTED");
            ("details",
             ErrorUtils.VArr
               [ErrorUtils.VNull;
                ErrorUtils.VObj
                  [("@type", ErrorUtils.VStr ErrorUtils.retry_info_type);
                   ("retryDelay", ErrorUtils.VStr "5s")]])])])
  = Throw TypeError /\
  ErrorUtils.handleGeminiError JSON_unused
    (ErrorUtils.VObj
       [("error",
         ErrorUtils.VObj
           [("status", ErrorUtils.VStr "RESOURCE_EXHAUSTED");
            ("details",
             ErrorUtils.VArr
               [ErrorUtils.VObj
                  [("@type", ErrorUtils.VStr ErrorUtils.retry_info_type)];
                ErrorUtils.VObj
                  [("@type", ErrorUtils.VStr ErrorUtils.retry_info_type);
                   ("retryDelay", ErrorUtils.VStr "5s")]])])])
  = Ok (ErrorUtils.mkParsedError ErrorUtils.quota_message None None).
Proof. split; reflexivity. Qed.

(** *** Any delay of whole seconds

    The retry hint ["<n>s"] for a natural [n] in the decimal notation
    [pretty] writes: the delay is read back as the double nearest to [n],
    which is [n] up to 2^53, and is then named with the digits of [n]. *)

Section DecimalDelay.
Import ErrorUtils.

Lemma pretty_N_char_digit k :
  (k < 10)%N ->
  is_digit (pretty_N_char k) = true /\
  digit_value (pretty_N_char k) = Z.of_N k /\
  is_js_whitespace (pretty_N_char k) = false.
Proof.
  intros Hk. destruct k as [|p]; [repeat split|].
  do 4 (destruct p as [p|p|]; try (repeat split; fail)); lia.
Qed.

Lemma prefix_s_digit k rest :
  (k < 10)%N -> String.prefix "s" (String (pretty_N_char k) rest) = false.
Proof.
  intros Hk. destruct k as [|p]; [reflexivity|].
  do 4 (destruct p as [p|p|]; try reflexivity); lia.
Qed.

(** Reading the digits [pretty] wrote gives the number back. *)
Lemma leading_digits_pretty_go x :
  (0 < x)%N ->
  forall s,
    leading_digits (pretty_N_go x s) None
    = leading_digits s (Some (Z.of_N x)).
Proof.
  induction (N.lt_wf_0 x) as [x _ IH]. intros Hx s.
  rewrite pretty_N_go_step by exact Hx.
  destruct (pretty_N_char_digit (x mod 10)) as (Hd & Hv & _);
    [apply N.mod_lt; lia|].
  destruct (N.eq_dec (x / 10)%N 0%N) as [Hz|Hnz].
  - rewrite Hz, pretty_N_go_0. cbn [leading_digits]. rewrite Hd, Hv.
    cbn [default]. do 2 f_equal.
    n_arith.
  - rewrite IH; [| apply N.div_lt; lia | n_arith].
    cbn [leading_digits]. rewrite Hd, Hv. cbn [default]. do 2 f_equal.
    unfold id. n_arith.
Qed.

Lemma pretty_go_app x s t : pretty_N_go x s +:+ t = pretty_N_go x (s +:+ t).
Proof.
  revert s. induction (N.lt_wf_0 x) as [x _ IH]. intros s.
  destruct (N.eq_dec x 0%N) as [->|Hx]; [now rewrite !pretty_N_go_0|].
  rewrite !(pretty_N_go_step x) by lia.
  rewrite IH by (apply N.div_lt; lia). reflexivity.
Qed.

Lemma replace_first_pretty_go x s :
  replace_first (pretty_N_go x s) "s" "" = pretty_N_go x (replace_first s "s" "").
Proof.
  revert s. induction (N.lt_wf_0 x) as [x _ IH]. intros s.
  destruct (N.eq_dec x 0%N) as [->|Hx]; [now rewrite !pretty_N_go_0|].
  rewrite !(pretty_N_go_step x) by lia.
  rewrite IH by (apply N.div_lt; lia). f_equal.
  cbn [replace_first].
  now rewrite prefix_s_digit by (apply N.mod_lt; lia).
Qed.

(** A positive number is written with a digit in front. *)
Lemma pretty_go_head x s :
  (0 < x)%N ->
  exists k rest,
    (k < 10)%N /\ pretty_N_go x s = String (pretty_N_char k) rest.
Proof.
  revert s. induction (N.lt_wf_0 x) as [x _ IH]. intros s Hx.
  rewrite pretty_N_go_step by exact Hx.
  destruct (N.eq_dec (x / 10)%N 0%N) as [Hz|Hnz].
  - rewrite Hz, pretty_N_go_0. exists (x mod 10)%N, s.
    split; [apply N.mod_lt; lia|reflexivity].
  - apply IH; [apply N.div_lt; lia|n_arith].
Qed.

Lemma parseInt_digits_first k rest :
  (k < 10)%N ->
  parseInt (String (pretty_N_char k) rest)
  = match leading_digits (String (pretty_N_char k) rest) None with
    | Some n => Int (round_double (1 * n))
    | None => NaN
    end.
Proof.
  intros Hk. destruct k as [|p]; [reflexivity|].
  do 4 (destruct p as [p|p|]; try reflexivity); lia.
Qed.

Lemma parseInt_pretty (n : N) :
  parseInt (pretty n) = Int (round_double (Z.of_N n)).
Proof.
  unfold pretty, pretty_N. destruct (decide (n = 0%N)) as [->|Hn];
    [reflexivity|].
  destruct (pretty_go_head n "" ltac:(lia)) as (k & rest & Hk & Hhead).
  pose proof (leading_digits_pretty_go n ltac:(lia) "") as Hread.
  rewrite Hhead in Hread |- *. rewrite parseInt_digits_first by exact Hk.
  rewrite Hread. cbn [leading_digits]. do 2 f_equal. lia.
Qed.

Lemma replace_first_seconds (n : N) :
  replace_first (pretty n +:+ "s") "s" "" = pretty n.
Proof.
  unfold pretty, pretty_N. destruct (decide (n = 0%N)) as [->|Hn];
    [reflexivity|].
  now rewrite pretty_go_app, replace_first_pretty_go.
Qed.

Lemma prefix_app (a b : string) : String.prefix a (a +:+ b) = true.
Proof.
  induction a as [|c a IH]; [now destruct b|].
  change (String.prefix (String c a) (String c a +:+ b))
    with (if Ascii.ascii_dec c c then String.prefix a (a +:+ b) else false).
  destruct (Ascii.ascii_dec c c); [exact IH|contradiction].
Qed.

Lemma includes_prefix s pattern :
  String.prefix pattern s = true -> includes s pattern = true.
Proof. intros H. destruct s; cbn [includes]; rewrite H; reflexivity. Qed.

Lemma includes_app (a b c : string) : includes (a +:+ b +:+ c) b = true.
Proof.
  induction a as [|x a IH].
  - change ("" +:+ b +:+ c) with (b +:+ c).
    apply includes_prefix, prefix_app.
  - change (includes (String x a +:+ b +:+ c) b)
      with (String.prefix b (String x (a +:+ b +:+ c))
            || includes (a +:+ b +:+ c) b).
    rewrite IH. apply orb_true_r.
Qed.

Variable JSON_parse : string -> option value.

(** X1: a structured quota error whose [RetryInfo] states ["<n>s"], for a
    natural [n] up to 2^53 in decimal notation, is classified with the delay
    [n] and a message that names it. *)
Lemma handleGeminiError_quota_seconds (error : value) (n : N) :
  let apiError := prop (getErrorObject JSON_parse error) "error" in
  (n <= 2 ^ 53)%N ->
  truthy apiError = true ->
  string_or_falsy (prop apiError "message") = true ->
  quota_error apiError = true ->
  details_listed (prop apiError "details") = true ->
  retry_hint apiError = VStr (pretty n +:+ "s") ->
  exists r,
    handleGeminiError JSON_parse error = Ok r /\
    retryDelay r = Some (Int (Z.of_N n)) /\
    includes (userMessage r) (pretty n) = true.
Proof.
  intros apiError Hbound Hapi Hmsg Hq Hd Hhint.
  rewrite (handleGeminiError_quota_hint JSON_parse error Hapi Hmsg Hq Hd).
  fold apiError. cbv zeta.
  assert (Hn : nullish (retry_info_of (prop apiError "details")) = false).
  { unfold retry_hint in Hhint.
    destruct (retry_info_of (prop apiError "details")); try reflexivity;
      discriminate Hhint. }
  rewrite get_not_nullish by exact Hn.
  fold (retry_hint apiError). rewrite Hhint.
  assert (Ht : truthy (VStr (pretty n +:+ "s")) = true).
  { cbn [truthy]. apply negb_true_iff, String.eqb_neq.
    destruct (pretty n); discriminate. }
  rewrite Ht. cbn [mbind result_bind replace].
  rewrite replace_first_seconds, parseInt_pretty.
  rewrite round_double_small
    by (change (2 ^ 53) with (Z.of_N (2 ^ 53)%N); lia).
  eexists. split; [reflexivity|]. cbn [retryDelay userMessage].
  split; [reflexivity|].
  assert (Hsmall : (Z.abs (Z.of_N n) <=? 2 ^ 53) = true).
  { apply Z.leb_le. change (2 ^ 53) with (Z.of_N (2 ^ 53)%N). lia. }
  cbn [number_to_string]. rewrite Hsmall.
  replace (pretty (Z.of_N n)) with (pretty n) by (destruct n; reflexivity).
  apply includes_app.
Qed.

End DecimalDelay.

Lemma handleGeminiError_quota_seconds_witness :
  exists r,
    ErrorUtils.handleGeminiError JSON_unused rate_limit_10s = Ok r /\
    ErrorUtils.retryDelay r = Some (ErrorUtils.Int 10) /\
    ErrorUtils.includes (ErrorUtils.userMessage r) "10" = true.
Proof.
  apply (handleGeminiError_quota_seconds JSON_unused rate_limit_10s 10);
    [vm_compute; discriminate|reflexivity..].
Defined.

(** ** The operation poller *)

Section PollerFacts.
Import VideoGenerator.

Variable getVideosOperation :
  nat -> GenerateVideosOperation -> result GenerateVideosOperation.

Local Abbreviation poll_once := (poll_once getVideosOperation).
Local Abbreviation poll_loop := (poll_loop getVideosOperation).
Local Abbreviation pollOperation := (pollOperation getVideosOperation).
Local Abbreviation not_done_at := (not_done_at getVideosOperation).

Lemma poll_once_polls s : polls (poll_once s) = S (polls s).
Proof. reflexivity. Qed.

Lemma poll_once_not_done s :
  done (currentOperation s) = false ->
  not_done_at (S (polls s)) ->
  done (currentOperation (poll_once s)) = false.
Proof.
  intros Hs Hk. unfold VideoGenerator.poll_once. cbn [currentOperation].
  specialize (Hk (currentOperation s)).
  destruct (getVideosOperation (S (polls s)) (currentOperation s)); auto.
Qed.

(** With enough fuel the loop is left, whatever the service answers. *)
Lemma poll_loop_total fuel s :
  (maxPolls - polls s < fuel)%nat -> is_Some (poll_loop fuel s).
Proof.
  revert s. induction fuel as [|fuel IH]; intros s Hfuel;
    cbn [VideoGenerator.poll_loop]; [lia|].
  - destruct (done (currentOperation s)); [eauto|].
    destruct (Nat.leb_spec maxPolls (polls s)); [eauto|].
    apply IH. rewrite poll_once_polls. lia.
Qed.

Lemma pollOperation_total operation shown :
  is_Some (pollOperation operation shown).
Proof.
  apply poll_loop_total. cbn [poll_start polls]. lia.
Qed.

(** As long as no attempt reports completion the loop runs until [polls]
    reaches the bound and then times out. *)
Lemma poll_loop_times_out fuel s :
  (polls s <= maxPolls)%nat ->
  (maxPolls - polls s < fuel)%nat ->
  done (currentOperation s) = false ->
  (forall k, (polls s < k <= maxPolls)%nat -> not_done_at k) ->
  exists s',
    poll_loop fuel s = Some (Throw timed_out, s') /\ polls s' = maxPolls.
Proof.
  revert s. induction fuel as [|fuel IH]; intros s Hle Hfuel Hs Hnd;
    cbn [VideoGenerator.poll_loop]; rewrite Hs.
  - lia.
  - destruct (Nat.leb_spec maxPolls (polls s)) as [Hge|Hlt].
    + exists s. split; [reflexivity|lia].
    + apply IH.
      * rewrite poll_once_polls. lia.
      * rewrite poll_once_polls. lia.
      * apply poll_once_not_done; [exact Hs|]. apply Hnd. lia.
      * intros k Hk. apply Hnd. rewrite poll_once_polls in Hk. lia.
Qed.

(** The poller throws nothing but the timeout, and only with [polls] at the
    bound: a failure of an attempt never leaves the loop. *)
Lemma poll_loop_throws fuel s e s' :
  (polls s <= maxPolls)%nat ->
  poll_loop fuel s = Some (Throw e, s') ->
  e = timed_out /\ polls s' = maxPolls.
Proof.
  revert s. induction fuel as [|fuel IH]; intros s Hle;
    cbn [VideoGenerator.poll_loop].
  - destruct (done (currentOperation s)); discriminate.
  - destruct (done (currentOperation s)); [discriminate|].
    destruct (Nat.leb_spec maxPolls (polls s)) as [Hge|Hlt].
    + intros [= <- <-]. split; [reflexivity|lia].
    + apply IH. rewrite poll_once_polls. lia.
Qed.

(** A successful return comes with the operation that is done, and with at
    most [maxPolls] attempts made. *)
Lemma poll_loop_returns fuel s operation s' :
  (polls s <= maxPolls)%nat ->
  poll_loop fuel s = Some (Ok operation, s') ->
  done operation = true /\ currentOperation s' = operation /\
  (polls s' <= maxPolls)%nat.
Proof.
  revert s. induction fuel as [|fuel IH]; intros s Hle;
    cbn [VideoGenerator.poll_loop].
  - destruct (done (currentOperation s)) eqn:Hs; [|discriminate].
    intros [= <- <-]. auto.
  - destruct (done (currentOperation s)) eqn:Hs.
    + intros [= <- <-]. auto.
    + destruct (Nat.leb_spec maxPolls (polls s)) as [Hge|Hlt]; [discriminate|].
      apply IH. rewrite poll_once_polls. lia.
Qed.

(** C5: the poller always terminates. If no attempt reports completion (each
    one answers "not done" or fails) it ends with the time-out failure after
    exactly 30 attempts. If the first two attempts do not report completion
    and the third returns a done operation, that operation is returned after
    exactly 3 attempts. A failing attempt is swallowed: the only failure the
    poller ends with is the time-out, after 30 attempts. *)
Theorem pollOperation_bounded (operation : GenerateVideosOperation)
    (shown : string) :
  is_Some (pollOperation operation shown) /\
  (done operation = false ->
   (forall k, (1 <= k <= 30)%nat -> not_done_at k) ->
   exists s,
     pollOperation operation shown = Some (Throw timed_out, s) /\
     polls s = 30%nat) /\
  (forall finished,
     done operation = false ->
     not_done_at 1 -> not_done_at 2 ->
     (forall current, getVideosOperation 3 current = Ok finished) ->
     done finished = true ->
     exists s,
       pollOperation operation shown = Some (Ok finished, s) /\
       polls s = 3%nat) /\
  (forall e s,
     pollOperation operation shown = Some (Throw e, s) ->
     e = timed_out /\ polls s = 30%nat).
Proof.
  split; [apply pollOperation_total|]. split; [|split].
  - intros Hop Hnd.
    apply poll_loop_times_out; cbn [poll_start polls currentOperation];
      unfold maxPolls; try lia; [exact Hop|].
    intros k Hk. apply Hnd. lia.
  - intros finished Hop H1 H2 H3 Hfin.
    unfold VideoGenerator.pollOperation.
    set (s0 := poll_start operation shown).
    assert (Hs0 : done (currentOperation s0) = false) by exact Hop.
    set (s1 := poll_once s0).
    assert (Hs1 : done (currentOperation s1) = false)
      by (apply poll_once_not_done; [exact Hs0|exact H1]).
    set (s2 := poll_once s1).
    assert (Hs2 : done (currentOperation s2) = false)
      by (apply poll_once_not_done; [exact Hs1|exact H2]).
    set (s3 := poll_once s2).
    assert (Hs3 : currentOperation s3 = finished).
    { unfold s3, VideoGenerator.poll_once. cbn [currentOperation].
      change (S (polls s2)) with 3%nat. now rewrite H3. }
    exists s3. split; [|reflexivity].
    change (S maxPolls) with (S (S (S (S 27)))).
    cbn [VideoGenerator.poll_loop]. rewrite Hs0.
    change (maxPolls <=? polls s0)%nat with false. cbv iota.
    fold s1. rewrite Hs1.
    change (maxPolls <=? polls s1)%nat with false. cbv iota.
    fold s2. rewrite Hs2.
    change (maxPolls <=? polls s2)%nat with false. cbv iota.
    fold s3. rewrite Hs3, Hfin. now rewrite <- Hs3.
  - intros e s Hrun.
    apply (poll_loop_throws (S maxPolls) (poll_start operation shown));
      [cbn; unfold maxPolls; lia|exact Hrun].
Qed.

End PollerFacts.

Lemma pollOperation_bounded_witness :
  (exists s,
     VideoGenerator.pollOperation never_done
       (VideoGenerator.mkOperation false None) "" = Some (Throw VideoGenerator.timed_out, s) /\
     VideoGenerator.polls s = 30%nat) /\
  (exists s,
     VideoGenerator.pollOperation done_on_third
       (VideoGenerator.mkOperation false None) ""
     = Some (Ok (VideoGenerator.mkOperation true (Some "https://example.invalid/v.mp4")), s) /\
     VideoGenerator.polls s = 3%nat).
Proof.
  split.
  - apply (pollOperation_bounded never_done); [reflexivity|].
    intros k _ operation. reflexivity.
  - apply (pollOperation_bounded done_on_third); try reflexivity.
    + intros operation. exact eq_refl.
    + intros operation. exact I.
Defined.

(** ** The retry countdown *)

Section CountdownFacts.
Import ErrorUtils VoiceGenerator.

Variable JSON_parse : string -> option value.
Variable API_KEY : string.

Local Abbreviation handleGenerate := (handleGenerate JSON_parse API_KEY).
Local Abbreviation handleGenerate_begins := (handleGenerate_begins API_KEY).
Local Abbreviation handleGenerate_resumes :=
  (handleGenerate_resumes JSON_parse).

Lemma begin_generation_intervals s :
  one_timer s -> intervals (begin_generation s) = ∅.
Proof.
  intros Hone. unfold begin_generation, clear_timerRef.
  cbn [timerRef setIsLoading setError setRetryAfter setAudioUrl setIsPlaying].
  destruct (timerRef s) as [id|] eqn:Href; cbn.
  - apply set_eq. intros x. split; [|set_solver].
    intros Hx. apply elem_of_difference in Hx as [Hx Hne].
    apply Hone in Hx. rewrite Href in Hx. set_solver.
  - apply set_eq. intros x. split; [|set_solver].
    intros Hx. apply Hone in Hx. congruence.
Qed.

Lemma begin_generation_timerRef s :
  timerRef (begin_generation s) = timerRef s.
Proof.
  unfold begin_generation, clear_timerRef.
  cbn [timerRef setIsLoading setError setRetryAfter setAudioUrl setIsPlaying].
  destruct (timerRef s) eqn:Href; cbn; rewrite ?Href; reflexivity.
Qed.

Lemma begin_generation_next s :
  next_interval (begin_generation s) = next_interval s.
Proof.
  unfold begin_generation, clear_timerRef.
  cbn [timerRef setIsLoading setError setRetryAfter setAudioUrl setIsPlaying].
  destruct (timerRef s) eqn:Href; cbn; rewrite ?Href; reflexivity.
Qed.

Lemma begin_generation_text s : text (begin_generation s) = text s.
Proof.
  unfold begin_generation, clear_timerRef.
  cbn [timerRef setIsLoading setError setRetryAfter setAudioUrl setIsPlaying].
  destruct (timerRef s) eqn:Href; cbn; rewrite ?Href; reflexivity.
Qed.

Lemma begin_generation_voice s :
  selectedVoice (begin_generation s) = selectedVoice s /\
  speed (begin_generation s) = speed s /\
  isLoading (begin_generation s) = true.
Proof.
  unfold begin_generation, clear_timerRef.
  cbn [timerRef setIsLoading setError setRetryAfter setAudioUrl setIsPlaying].
  destruct (timerRef s) eqn:Href; cbn; rewrite ?Href; repeat split.
Qed.

Lemma cleanup_intervals s : one_timer s -> intervals (cleanup s) = ∅.
Proof.
  intros Hone. unfold cleanup, clear_timerRef.
  destruct (timerRef s) as [id|] eqn:Href; cbn.
  - apply set_eq. intros x. split; [|set_solver].
    intros Hx. apply elem_of_difference in Hx as [Hx Hne].
    apply Hone in Hx. rewrite Href in Hx. set_solver.
  - apply set_eq. intros x. split; [|set_solver].
    intros Hx. apply Hone in Hx. congruence.
Qed.




(** *** The two parts of a generation *)



(** Run in one step, a generation is its first part followed by its second
    part in the state the first part left. *)
Lemma handleGenerate_begins_resumes s settled :
  handleGenerate s settled
  = match handleGenerate_begins s with
    | (s1, Some g) => handleGenerate_resumes g s1 settled
    | (s1, None) => (s1, None)
    end.
Proof.
  unfold VoiceGenerator.handleGenerate, VoiceGenerator.handleGenerate_begins,
    VoiceGenerator.handleGenerate_resumes.
  destruct (String.eqb (trim (text s)) ""); [reflexivity|].
  destruct (String.eqb API_KEY ""); [reflexivity|].
  replace (try_resumed (mkGeneration (text s) (selectedVoice s) (speed s))
             (begin_generation s) settled)
    with (try_generation (begin_generation s) settled); [reflexivity|].
  unfold try_generation, try_resumed. cbn [g_text g_voice g_speed].
  destruct (begin_generation_voice s) as (-> & -> & _).
  now rewrite begin_generation_text.
Qed.









(** *** At most one timer, while generations do not overlap *)

Lemma timers_wf_ext s s' :
  timerRef s' = timerRef s ->
  intervals s' = intervals s ->
  next_interval s' = next_interval s ->
  timers_wf s -> timers_wf s'.
Proof.
  intros Href Hlive Hnext [Hone Hfresh]. split.
  - intros id Hid. rewrite Hlive in Hid. rewrite Href. now apply Hone.
  - intros id Hid. rewrite Href in Hid. rewrite Hnext. now apply Hfresh.
Qed.

Lemma timers_wf_cleared s s' :
  timers_wf s ->
  timerRef s' = timerRef s ->
  intervals s' = ∅ ->
  next_interval s' = next_interval s ->
  timers_wf s'.
Proof.
  intros [_ Hfresh] Href Hlive Hnext. split.
  - intros id Hid. rewrite Hlive in Hid.
    apply not_elem_of_empty in Hid. destruct Hid.
  - intros id Hid. rewrite Href in Hid. rewrite Hnext. now apply Hfresh.
Qed.

Lemma timers_wf_arm_retry d s :
  timers_wf s -> intervals s = ∅ -> timers_wf (arm_retry d s).
Proof.
  intros Hwf Hlive. unfold arm_retry.
  destruct d as [[z|]|]; try exact Hwf.
  destruct (negb (z =? 0) && (0 <? z)); [|exact Hwf].
  unfold setInterval_into_timerRef. split.
  - intros id Hid. cbn in Hid |- *. rewrite Hlive in Hid.
    rewrite union_empty_r_L in Hid. apply elem_of_singleton in Hid.
    now subst.
  - intros id Hid. cbn in Hid |- *. injection Hid as <-. lia.
Qed.

Lemma try_resumed_timers g s settled :
  let s' := fst (try_resumed g s settled) in
  timerRef s' = timerRef s /\ intervals s' = intervals s /\
  next_interval s' = next_interval s.
Proof.
  cbv zeta. unfold try_resumed.
  destruct settled as [[audio|]|reason]; [|now cbn..].
  destruct (negb (String.eqb audio "")); [|now cbn].
  destruct (AudioUtils.decode audio) as [bytes|e]; [|now cbn].
  destruct (AudioUtils.createWavBlob bytes 24000 1); now cbn.
Qed.

(** The first part of a generation: the head, or the message of a guard. *)
Lemma handleGenerate_begins_cases s :
  handleGenerate_begins s
  = (begin_generation s,
     Some (mkGeneration (text s) (selectedVoice s) (speed s)))
  \/ exists message, handleGenerate_begins s = (setError (Some message) s, None).
Proof.
  unfold VoiceGenerator.handleGenerate_begins.
  destruct (String.eqb (trim (text s)) ""); [right; eauto|].
  destruct (String.eqb API_KEY ""); [right; eauto|]. now left.
Qed.

Lemma timers_wf_begin_generation s :
  timers_wf s -> timers_wf (begin_generation s).
Proof.
  intros Hwf. pose proof Hwf as [Hone _].
  apply (timers_wf_cleared s _ Hwf).
  - apply begin_generation_timerRef.
  - now apply begin_generation_intervals.
  - apply begin_generation_next.
Qed.

(** The second part of a generation, in a state without a live timer. *)
Lemma timers_wf_resumes g s settled :
  timers_wf s -> intervals s = ∅ ->
  timers_wf (fst (handleGenerate_resumes g s settled)).
Proof.
  intros Hwf Hlive. unfold VoiceGenerator.handleGenerate_resumes.
  destruct (try_resumed_timers g s settled) as (Href' & Hlive' & Hnext').
  destruct (try_resumed g s settled) as [s1 [e|]]; cbn [fst] in *.
  - assert (Hs1 : timers_wf s1)
      by (apply (timers_wf_ext _ _ Href' Hlive' Hnext' Hwf)).
    unfold catch_generation.
    destruct (handleGeminiError JSON_parse e) as [parsed|e']; cbn.
    + apply (timers_wf_ext (arm_retry (retryDelay parsed)
                              (setError (Some (userMessage parsed)) s1)));
        try reflexivity.
      apply timers_wf_arm_retry.
      * apply (timers_wf_ext s1); auto.
      * cbn. congruence.
    + apply (timers_wf_ext s1); auto.
  - apply (timers_wf_ext s1); auto.
    apply (timers_wf_ext _ _ Href' Hlive' Hnext' Hwf).
Qed.

Lemma timers_wf_tick s : timers_wf s -> timers_wf (tick s).
Proof.
  intros Hwf. pose proof Hwf as [Hone Hfresh]. unfold tick.
  destruct (retryAfter s <=? 1); [|apply (timers_wf_ext s); auto].
  apply (timers_wf_cleared s _ Hwf).
  - cbn [timerRef setRetryAfter]. unfold clear_timerRef.
    destruct (timerRef s) eqn:Href; cbn; congruence.
  - cbn [intervals setRetryAfter]. apply (cleanup_intervals s Hone).
  - cbn [next_interval setRetryAfter]. unfold clear_timerRef.
    destruct (timerRef s); reflexivity.
Qed.

Lemma tick_isLoading s : isLoading (tick s) = isLoading s.
Proof.
  unfold tick, clear_timerRef.
  destruct (retryAfter s <=? 1); [|reflexivity].
  destruct (timerRef s); reflexivity.
Qed.

Lemma timers_wf_cleanup s : timers_wf s -> timers_wf (cleanup s).
Proof.
  intros Hwf. pose proof Hwf as [Hone _].
  apply (timers_wf_cleared s _ Hwf).
  - unfold cleanup, clear_timerRef.
    destruct (timerRef s) eqn:Href; cbn; congruence.
  - now apply cleanup_intervals.
  - unfold cleanup, clear_timerRef. destruct (timerRef s); reflexivity.
Qed.

Lemma cleanup_isLoading s : isLoading (cleanup s) = isLoading s.
Proof. unfold cleanup, clear_timerRef. destruct (timerRef s); reflexivity. Qed.

(** Loading a history item leaves the timers alone. *)
Lemma historyItem_effect_timers item s :
  let s' := historyItem_effect item s in
  timerRef s' = timerRef s /\ intervals s' = intervals s /\
  next_interval s' = next_interval s.
Proof.
  cbv zeta. unfold historyItem_effect.
  destruct item as [[data|]|]; [|now cbn..].
  destruct (negb (String.eqb (vh_audioBase64 data) "")); [|now cbn].
  destruct (_ ≫= _); now cbn.
Qed.

(** With at most one generation in flight, no timer is live while it is in
    flight. *)
Lemma step_calm t ev t' :
  calm t -> step JSON_parse API_KEY t ev = Some t' ->
  (length (inflight t') <= 1)%nat -> calm t'.
Proof.
  intros (Hwf & Hlen & Hfly) Hstep Hone. destruct t as [s fl].
  cbn [ui inflight] in *. pose proof Hwf as [Hone_timer _].
  destruct ev as [|k settled|id| |txt|item]; cbn [step ui inflight] in Hstep.
  - destruct (isLoading s || (0 <? retryAfter s)); [discriminate Hstep|].
    destruct (handleGenerate_begins_cases s) as [Hb|[message Hb]];
      rewrite Hb in Hstep; injection Hstep as <-; cbn [ui inflight] in *.
    + split; [now apply timers_wf_begin_generation|]. split; [exact Hone|].
      intros _. now apply begin_generation_intervals.
    + cbn [option_list] in *. rewrite app_nil_r in *.
      split; [apply (timers_wf_ext s); auto|]. split; [exact Hone|].
      exact Hfly.
  - destruct (fl !! k) as [g|] eqn:Hg; [|discriminate Hstep].
    cbn [mbind option_bind] in Hstep. injection Hstep as <-.
    cbn [ui inflight] in *.
    assert (Hne : fl <> []) by (intros ->; discriminate Hg).
    split; [apply timers_wf_resumes; auto|]. split; [exact Hone|].
    intros Hrest. exfalso. apply Hrest.
    destruct fl as [|g0 [|g1 fl]]; [congruence| |cbn in Hlen; lia].
    destruct k; [reflexivity|discriminate Hg].
  - destruct (interval_fires id s) as [s'|] eqn:Hfire; [|discriminate Hstep].
    cbn [mbind option_bind] in Hstep. injection Hstep as <-.
    cbn [ui inflight] in *. unfold interval_fires in Hfire.
    destruct (decide (id ∈ intervals s)) as [Hid|]; [|discriminate Hfire].
    injection Hfire as <-.
    split; [now apply timers_wf_tick|]. split; [exact Hone|].
    intros Hne. rewrite (Hfly Hne) in Hid.
    apply not_elem_of_empty in Hid. destruct Hid.
  - injection Hstep as <-. cbn [ui inflight] in *.
    split; [now apply timers_wf_cleanup|]. split; [exact Hone|].
    intros _. now apply cleanup_intervals.
  - injection Hstep as <-. cbn [ui inflight] in *.
    split; [apply (timers_wf_ext s); auto|]. split; [exact Hone|].
    exact Hfly.
  - injection Hstep as <-.
    destruct (historyItem_effect_timers (Some item) s) as (Href & Hlive & Hnext).
    change (calm (mkTool (historyItem_effect (Some item) s) fl)).
    split; [|split].
    + exact (timers_wf_ext s _ Href Hlive Hnext Hwf).
    + exact Hone.
    + intros Hne. change (intervals (historyItem_effect (Some item) s) = ∅).
      rewrite Hlive. now apply Hfly.
Qed.

Lemma serial_calm t : serial JSON_parse API_KEY t -> calm t.
Proof.
  induction 1 as [s Href Hlive|t ev t' Hreach IH Hstep Hone].
  - split; [|split; [cbn; lia|intros _; exact Hlive]]. split.
    + intros id Hid. cbn in Hid. rewrite Hlive in Hid.
      apply not_elem_of_empty in Hid. destruct Hid.
    + intros id Hid. cbn in Hid. congruence.
  - now apply (step_calm t ev t').
Qed.

(** While the button is what starts a generation and no history item is
    loaded, a generation in flight keeps the button disabled. *)
Lemma step_gated t ev t' :
  gated t -> is_load ev = false ->
  step JSON_parse API_KEY t ev = Some t' -> gated t'.
Proof.
  intros Hg Hev Hstep. destruct t as [s fl]. unfold gated in *.
  cbn [ui inflight] in *.
  destruct ev as [|k settled|id| |txt|item]; cbn [step ui inflight] in Hstep;
    try discriminate Hev.
  - destruct (isLoading s) eqn:Hload; [discriminate Hstep|].
    cbn [orb] in Hstep.
    destruct (0 <? retryAfter s); [discriminate Hstep|].
    assert (fl = []) as -> by (destruct Hg as [->|(g & _ & Hl)]; congruence).
    destruct (handleGenerate_begins_cases s) as [Hb|[message Hb]];
      rewrite Hb in Hstep; injection Hstep as <-; cbn [ui inflight].
    + right. eexists. split; [reflexivity|]. apply begin_generation_voice.
    + now left.
  - destruct (fl !! k) as [g|] eqn:Hk; [|discriminate Hstep].
    cbn [mbind option_bind] in Hstep. injection Hstep as <-.
    cbn [ui inflight]. left.
    destruct Hg as [->|(g' & -> & _)]; [discriminate Hk|].
    destruct k; [reflexivity|discriminate Hk].
  - destruct (interval_fires id s) as [s'|] eqn:Hfire; [|discriminate Hstep].
    cbn [mbind option_bind] in Hstep. injection Hstep as <-.
    cbn [ui inflight]. unfold interval_fires in Hfire.
    destruct (decide (id ∈ intervals s)); [|discriminate Hfire].
    injection Hfire as <-. rewrite tick_isLoading. exact Hg.
  - injection Hstep as <-. cbn [ui inflight]. rewrite cleanup_isLoading.
    exact Hg.
  - injection Hstep as <-. cbn [ui inflight]. exact Hg.
Qed.

Lemma gated_one t : gated t -> (length (inflight t) <= 1)%nat.
Proof. intros [->|(g & -> & _)]; cbn; lia. Qed.

Lemma run_serial events t t' :
  serial JSON_parse API_KEY t -> gated t ->
  forallb (fun ev => negb (is_load ev)) events = true ->
  run JSON_parse API_KEY events t = Some t' ->
  serial JSON_parse API_KEY t'.
Proof.
  revert t. induction events as [|ev events IH]; intros t Hs Hg Hev Hrun.
  - injection Hrun as <-. exact Hs.
  - cbn [forallb] in Hev. apply andb_prop in Hev as [Hev Hrest].
    apply negb_true_iff in Hev. cbn [run] in Hrun.
    destruct (step JSON_parse API_KEY t ev) as [t1|] eqn:Hstep;
      [|discriminate Hrun].
    cbn [mbind option_bind] in Hrun.
    pose proof (step_gated t ev t1 Hg Hev Hstep) as Hg1.
    apply (IH t1); auto.
    apply (serial_step JSON_parse API_KEY t ev t1); auto.
    now apply gated_one.
Qed.

(** X2: in every state a tool reaches from a state without timers, by clicks
    on the button while it is enabled, settlements of remote calls, timer
    callbacks, effect clean-ups, edits and loads of history items, with never
    two generations in flight at once, no timer is live but the one
    [timerRef] holds. And generations do not overlap in a run in which no
    history item is loaded: a generation in flight keeps the button
    disabled. *)
Theorem serial_timers_wf :
  (forall t, serial JSON_parse API_KEY t -> timers_wf (ui t)) /\
  (forall events s t,
     timerRef s = None -> intervals s = ∅ ->
     forallb (fun ev => negb (is_load ev)) events = true ->
     run JSON_parse API_KEY events (mkTool s []) = Some t ->
     serial JSON_parse API_KEY t).
Proof.
  split.
  - intros t Ht. now destruct (serial_calm t Ht).
  - intros events s t Href Hlive Hev Hrun.
    apply (run_serial events (mkTool s []) t); auto.
    + now apply serial_mounted.
    + now left.
Qed.


End CountdownFacts.

Lemma serial_timers_wf_witness :
  exists t,
    VoiceGenerator.run JSON_unused "key"
      [VoiceGenerator.Clicks;
       VoiceGenerator.Settles 0 (Rejected quota_error_5s);
       VoiceGenerator.Fires 1]
      (VoiceGenerator.mkTool voice_tool [])
    = Some t /\
    VoiceGenerator.retryAfter (VoiceGenerator.ui t) = 4 /\
    VoiceGenerator.timers_wf (VoiceGenerator.ui t).
Proof.
  eexists. split; [vm_compute; reflexivity|]. split; [reflexivity|].
  apply (proj1 (serial_timers_wf JSON_unused "key")).
  apply (proj2 (serial_timers_wf JSON_unused "key")
           [VoiceGenerator.Clicks;
            VoiceGenerator.Settles 0 (Rejected quota_error_5s);
            VoiceGenerator.Fires 1]
           voice_tool); reflexivity.
Defined.



(** ** The to-do list *)

Section TodoFacts.
Import TodoManager.

Variable onNewList : TodoHistory -> string.

Local Abbreviation handleAddTask := (handleAddTask onNewList).
Local Abbreviation handleToggleComplete := (handleToggleComplete onNewList).
Local Abbreviation handleDeleteTask := (handleDeleteTask onNewList).
Local Abbreviation handleEditTask := (handleEditTask onNewList).

Lemma handleUpdateHistory_tasks updated s :
  tasks (handleUpdateHistory onNewList updated s) = tasks s.
Proof.
  unfold handleUpdateHistory.
  destruct (currentListId s) as [l|]; [destruct (nonempty l)|]; reflexivity.
Qed.

Lemma handleToggleComplete_tasks taskId s :
  tasks (handleToggleComplete taskId s)
  = (fun task =>
       if String.eqb (id task) taskId
       then mkTodoItem (id task) (text task) (negb (completed task))
       else task) <$> tasks s.
Proof.
  unfold TodoManager.handleToggleComplete. cbv zeta.
  now rewrite handleUpdateHistory_tasks.
Qed.

Lemma handleDeleteTask_tasks taskId s :
  tasks (handleDeleteTask taskId s)
  = List.filter (fun task => negb (String.eqb (id task) taskId)) (tasks s).
Proof.
  unfold TodoManager.handleDeleteTask. cbv zeta.
  now rewrite handleUpdateHistory_tasks.
Qed.

Lemma handleAddTask_tasks now s :
  tasks (handleAddTask now s)
  = if nonempty (trim (newTaskText s))
    then tasks s ++ [mkTodoItem (task_id now) (trim (newTaskText s)) false]
    else tasks s.
Proof.
  unfold TodoManager.handleAddTask.
  destruct (nonempty (trim (newTaskText s))); cbn [negb]; [|reflexivity].
  cbv zeta. now rewrite handleUpdateHistory_tasks.
Qed.

Lemma handleEditTask_ids s : task_ids (handleEditTask s) = task_ids s.
Proof.
  unfold TodoManager.handleEditTask, task_ids.
  destruct (editingTaskId s) as [taskId|]; [|reflexivity].
  destruct (nonempty taskId && nonempty (trim (editingTaskText s)));
    [|reflexivity].
  cbv zeta. cbn [tasks setEditingTaskText setEditingTaskId].
  rewrite handleUpdateHistory_tasks. cbn [tasks setTasks].
  rewrite <- list_fmap_compose. apply list_fmap_ext.
  intros i task _. cbn. now destruct (String.eqb (id task) taskId).
Qed.

Lemma handleToggleComplete_ids taskId s :
  task_ids (handleToggleComplete taskId s) = task_ids s.
Proof.
  unfold task_ids. rewrite handleToggleComplete_tasks.
  rewrite <- list_fmap_compose. apply list_fmap_ext.
  intros i task _. cbn. now destruct (String.eqb (id task) taskId).
Qed.

Lemma handleDeleteTask_ids taskId s :
  task_ids (handleDeleteTask taskId s)
  = List.filter (fun i => negb (String.eqb i taskId)) (task_ids s).
Proof.
  unfold task_ids. rewrite handleDeleteTask_tasks.
  induction (tasks s) as [|task l IH]; [reflexivity|].
  cbn. destruct (String.eqb (id task) taskId); cbn; now rewrite IH.
Qed.

Lemma NoDup_filter_bool {A} (p : A -> bool) (l : list A) :
  NoDup l -> NoDup (List.filter p l).
Proof.
  induction 1 as [|x l Hx Hl IH]; cbn; [constructor|].
  destruct (p x); [|exact IH].
  constructor; [|exact IH].
  intros Hin. apply Hx. apply list_elem_of_In in Hin.
  apply List.filter_In in Hin as [Hin _]. now apply list_elem_of_In.
Qed.


(** C8 (as amended): on a list with unique task ids, toggling, editing and
    deleting keep the ids unique; toggling and editing leave the sequence of
    ids as it is, deleting removes the given id and keeps the other ids in
    their order, and adding appends the new task at the end. Adding keeps the
    ids unique when the id made from the clock, [task-<now>], is not yet in
    the list. *)
Theorem todo_ids_preserved (s : State) (taskId : string) (now : Z) :
  NoDup (task_ids s) ->
  (task_ids (handleToggleComplete taskId s) = task_ids s /\
   NoDup (task_ids (handleToggleComplete taskId s))) /\
  (task_ids (handleEditTask s) = task_ids s /\
   NoDup (task_ids (handleEditTask s))) /\
  (task_ids (handleDeleteTask taskId s)
   = List.filter (fun i => negb (String.eqb i taskId)) (task_ids s) /\
   NoDup (task_ids (handleDeleteTask taskId s))) /\
  (task_ids (handleAddTask now s)
   = task_ids s
     ++ (if nonempty (trim (newTaskText s)) then [task_id now] else []) /\
   (task_id now ∉ task_ids s -> NoDup (task_ids (handleAddTask now s)))).
Proof.
  intros Hnodup. split; [|split; [|split]].
  - rewrite handleToggleComplete_ids. auto.
  - rewrite handleEditTask_ids. auto.
  - rewrite handleDeleteTask_ids. split; [reflexivity|].
    now apply NoDup_filter_bool.
  - assert (Hids : task_ids (handleAddTask now s)
                   = task_ids s
                     ++ (if nonempty (trim (newTaskText s))
                         then [task_id now] else [])).
    { unfold task_ids. rewrite handleAddTask_tasks.
      destruct (nonempty (trim (newTaskText s))).
      - now rewrite fmap_app.
      - now rewrite app_nil_r. }
    split; [exact Hids|]. intros Hfresh. rewrite Hids.
    destruct (nonempty (trim (newTaskText s))).
    + apply NoDup_app. split; [exact Hnodup|]. split.
      * intros x Hx Hx'. apply list_elem_of_singleton in Hx'. now subst.
      * apply NoDup_singleton.
    + now rewrite app_nil_r.
Qed.

(** C10: toggling changes, at every position, nothing but the completed flag
    of a task with the given id, which it negates: the id and the text of
    that task, every task with another id, the length of the list and the
    order of the ids stay as they are; with an id that is not in the list the
    list is unchanged. *)
Theorem handleToggleComplete_frame (s : State) (taskId : string) :
  length (tasks (handleToggleComplete taskId s)) = length (tasks s) /\
  task_ids (handleToggleComplete taskId s) = task_ids s /\
  (forall (i : nat) (task : TodoItem),
     tasks s !! i = Some task ->
     exists task',
       tasks (handleToggleComplete taskId s) !! i = Some task' /\
       id task' = id task /\ text task' = text task /\
       completed task'
       = (if String.eqb (id task) taskId then negb (completed task)
          else completed task) /\
       (id task <> taskId -> task' = task)) /\
  (taskId ∉ task_ids s -> tasks (handleToggleComplete taskId s) = tasks s).
Proof.
  split; [|split; [|split]].
  - rewrite handleToggleComplete_tasks. apply length_fmap.
  - apply handleToggleComplete_ids.
  - intros i task Hi. rewrite handleToggleComplete_tasks.
    rewrite list_lookup_fmap, Hi. cbn [fmap option_fmap option_map].
    eexists. split; [reflexivity|].
    destruct (String.eqb_spec (id task) taskId) as [Heq|Hne]; cbn.
    + repeat split. intros Hne. contradiction.
    + repeat split.
  - intros Hnotin. rewrite handleToggleComplete_tasks.
    unfold task_ids in Hnotin.
    induction (tasks s) as [|task l IH]; [reflexivity|].
    rewrite fmap_cons in Hnotin. apply not_elem_of_cons in Hnotin as [Hne Hl].
    rewrite fmap_cons.
    destruct (String.eqb_spec (id task) taskId) as [Heq|_]; [congruence|].
    f_equal. apply IH, Hl.
Qed.

End TodoFacts.

Lemma todo_ids_preserved_witness :
  TodoManager.task_ids
    (TodoManager.handleAddTask one_list_store 1700000001000 two_tasks)
  = ["task-1700000000000"; "task-1700000000500"; "task-1700000001000"] /\
  NoDup
    (TodoManager.task_ids
       (TodoManager.handleAddTask one_list_store 1700000001000 two_tasks)).
Proof.
  assert (Hnodup : NoDup (TodoManager.task_ids two_tasks)).
  { apply (bool_decide_unpack _). vm_compute. exact I. }
  destruct (todo_ids_preserved one_list_store two_tasks "task-1700000000000"
              1700000001000 Hnodup) as (_ & _ & _ & Hadd & Hfresh).
  split; [rewrite Hadd; vm_compute; reflexivity|].
  apply Hfresh. apply (bool_decide_unpack _). vm_compute. exact I.
Defined.

Lemma handleToggleComplete_frame_witness :
  TodoManager.tasks
    (TodoManager.handleToggleComplete one_list_store "task-1700000000500"
       two_tasks)
  !! 1%nat
  = Some (TodoManager.mkTodoItem "task-1700000000500" "call home" false).
Proof.
  destruct (handleToggleComplete_frame one_list_store two_tasks
              "task-1700000000500") as (_ & _ & Hat & _).
  destruct (Hat 1%nat _ eq_refl) as (task' & Hlookup & Hid & Htext & Hdone & _).
  rewrite Hlookup. destruct task' as [i t c]. cbn in Hid, Htext, Hdone.
  now subst.
Defined.

(** C8 (as stated) fails for adding: the id of a new task is made from the
    clock alone, so a task added at the clock value of an existing task gets
    its id. *)
Lemma handleAddTask_same_clock_collides :
  let s :=
    TodoManager.mkState
      [TodoManager.mkTodoItem "task-1700000000000" "buy milk" false]
      "call home" None "" (Some "list-1") [] in
  NoDup (TodoManager.task_ids s) /\
  ~ NoDup
      (TodoManager.task_ids
         (TodoManager.handleAddTask one_list_store 1700000000000 s)).
Proof.
  cbv zeta. split.
  - apply NoDup_singleton.
  - intros Hnodup. vm_compute in Hnodup.
    apply NoDup_cons_1_1 in Hnodup. apply Hnodup. apply list_elem_of_here.
Qed.

(** ** Submitting a chat message *)

Section ChatFacts.
Import ErrorUtils Chatbot.

Variable JSON_parse : string -> option value.
Variable API_KEY : string.
Variable onNewChat : ChatHistory -> result string.
Variable onUpdateChat :
  string -> list ChatMessage -> string -> bool -> bool -> result unit.
Variable generateContent : Settled ImageResponse.
Variable sendMessage : Settled TextResponse.

Local Abbreviation handleSubmit :=
  (handleSubmit JSON_parse API_KEY onNewChat onUpdateChat generateContent
     sendMessage).
Local Abbreviation submits := (submits API_KEY).

Lemma clear_timerRef_messages s : messages (clear_timerRef s) = messages s.
Proof. unfold clear_timerRef. now destruct (timerRef s). Qed.

Lemma clear_timerRef_chatRef s : chatRef (clear_timerRef s) = chatRef s.
Proof. unfold clear_timerRef. now destruct (timerRef s). Qed.





(** X4: a first chat turn that succeeds appends the user's message and the
    reply of the model, in this order, and shows no error. *)
Lemma handleSubmit_reply_appended s response newChatId :
  submits s -> chat_turn s ->
  currentChatId s = None ->
  sendMessage = Fulfilled response ->
  (forall data, onNewChat data = Ok newChatId) ->
  exists reply,
    messages (fst (handleSubmit s)) = messages s ++ [user_message s; reply] /\
    role reply = model /\ text reply = response_text response /\
    error (fst (handleSubmit s)) = None /\
    snd (handleSubmit s) = None.
Proof.
  intros (Hin & Hload & Hretry & Hkey) (Hcmd & Hchat) Hid Hsend Hnew.
  unfold Chatbot.handleSubmit.
  rewrite Hin, Hload, Hretry, Hkey. cbn [negb orb]. cbv zeta.
  cbn [input imageFile messages setError setRetryAfter].
  rewrite Hcmd. unfold try_chat.
  cbn [chatRef currentChatId setIsLoading setMessages setImageFile setInput].
  rewrite clear_timerRef_chatRef. cbn [chatRef setRetryAfter setError].
  rewrite Hchat. cbn [negb].
  rewrite Hsend.
  assert (Hcur : currentChatId (clear_timerRef (setRetryAfter 0 (setError None s)))
                 = None).
  { unfold clear_timerRef. cbn [timerRef setRetryAfter setError].
    destruct (timerRef s); exact Hid. }
  rewrite Hcur. rewrite Hnew.
  eexists. cbn [fst snd messages error setIsLoading set_currentChatId setMessages].
  split; [now rewrite <- app_assoc|].
  split; [reflexivity|]. split; [reflexivity|].
  split; [|reflexivity].
  unfold clear_timerRef. cbn [timerRef setRetryAfter setError].
  now destruct (timerRef s).
Qed.

End ChatFacts.


Lemma handleSubmit_reply_appended_witness :
  exists reply,
    Chatbot.messages
      (fst (Chatbot.handleSubmit JSON_unused "key" parent_newChat
              parent_updateChat (Rejected ErrorUtils.VNull)
              (Fulfilled (Chatbot.mkTextResponse "Hello!" None)) first_turn))
    = [Chatbot.mkChatMessage Chatbot.user "hi" None None; reply] /\
    Chatbot.text reply = "Hello!".
Proof.
  destruct (handleSubmit_reply_appended JSON_unused "key" parent_newChat
              parent_updateChat (Rejected ErrorUtils.VNull)
              (Fulfilled (Chatbot.mkTextResponse "Hello!" None)) first_turn
              (Chatbot.mkTextResponse "Hello!" None) "chat-1")
    as (reply & Hm & _ & Ht & _); try reflexivity.
  - repeat split.
  - split; reflexivity.
  - exists reply. split; [exact Hm|exact Ht].
Defined.

(** C7 at a failure that comes after the reply: the remote call succeeds, the
    reply is appended, reading the title of the absent [historyItem] throws,
    and the [catch] block removes the last message, which is the reply: the
    user's message stays in the list, which is not the list before the
    submission, while the error is shown. *)
Theorem handleSubmit_failure_after_reply :
  let s' :=
    fst (Chatbot.handleSubmit JSON_unused "key" parent_newChat
           parent_updateChat (Rejected ErrorUtils.VNull)
           (Fulfilled (Chatbot.mkTextResponse "Sure." None)) second_turn) in
  Chatbot.messages s'
  = Chatbot.messages second_turn
    ++ [Chatbot.mkChatMessage Chatbot.user "and again" None None] /\
  Chatbot.messages s' <> Chatbot.messages second_turn /\
  is_Some (Chatbot.error s').
Proof.
  cbv zeta. vm_compute. split; [reflexivity|]. split; [discriminate|].
  eexists. reflexivity.
Qed.

(** ** Running the models *)

Section Examples.
Import AudioUtils ErrorUtils.

(** The test vectors of RFC 4648, section 10. *)
Example encode_rfc4648 :
  (fun s => encode (bytes_of_string s))
    <$> [""; "f"; "fo"; "foo"; "foob"; "fooba"; "foobar"]
  = [""; "Zg=="; "Zm8="; "Zm9v"; "Zm9vYg=="; "Zm9vYmE="; "Zm9vYmFy"].
Proof. reflexivity. Qed.

(** [atob] forgives white space and missing padding, and rejects a character
    outside the alphabet and a length of 1 modulo 4. *)
Example decode_forgiving :
  decode "Zm9v YmE=" = Ok (bytes_of_string "fooba") /\
  decode "Zm9vYmE" = Ok (bytes_of_string "fooba") /\
  decode "Zm9v*mE=" = Throw InvalidCharacterError /\
  decode "Zm9vY" = Throw InvalidCharacterError.
Proof. repeat split. Qed.

(** Two bytes of PCM at 24 kHz, mono: the 46 bytes of the container. *)
Example createWavBlob_two_bytes :
  blob_bytes <$> createWavBlob [x34; x12] 24000 1
  = Ok (bytes_of_string "RIFF" ++ [x26; x00; x00; x00]
        ++ bytes_of_string "WAVEfmt " ++ [x10; x00; x00; x00]
        ++ [x01; x00] ++ [x01; x00] ++ [xc0; x5d; x00; x00]
        ++ [x80; xbb; x00; x00] ++ [x02; x00] ++ [x10; x00]
        ++ bytes_of_string "data" ++ [x02; x00; x00; x00]
        ++ [x34; x12]).
Proof. reflexivity. Qed.

(** The branches of the classifier, in their order. *)
Example handleGeminiError_branches :
  userMessage <$> handleGeminiError JSON_unused quota_error_5s
  = Ok "You've hit the API rate limit. Please try again in 5 seconds." /\
  userMessage <$> handleGeminiError JSON_unused
    (VObj [("error", VObj [("code", VNum (Int 429))])])
  = Ok quota_message /\
  userMessage <$> handleGeminiError JSON_unused
    (VObj [("error",
            VObj [("message",
                   VStr "Imagen API is only accessible to billed users at this time.")])])
  = Ok "The Imagen API is only accessible to users with billing enabled. Please check your project settings and API key." /\
  userMessage <$> handleGeminiError JSON_unused
    (VObj [("error",
            VObj [("message", VStr "API key expired. Please renew the API key.");
                  ("status", VStr "INVALID_ARGUMENT")])])
  = Ok "Your API key has expired. Please renew it and try again." /\
  userMessage <$> handleGeminiError JSON_unused
    (VObj [("error",
            VObj [("message", VStr "API key not valid.");
                  ("details", VArr [VObj [("reason", VStr "API_KEY_INVALID")]])])])
  = Ok "Your API key is not valid. Please check your API key and try again." /\
  handleGeminiError JSON_unused
    (VObj [("error", VObj [("message", VStr "Requested entity was not found.")])])
  = Ok (mkParsedError
          "Your API key appears to be invalid or is not configured for this feature. Please select a valid key and try again."
          (Some true) None) /\
  userMessage <$> handleGeminiError JSON_unused
    (VObj [("error", VObj [("status", VStr "INTERNAL")])])
  = Ok "An API error occurred: INTERNAL" /\
  userMessage <$> handleGeminiError JSON_unused (VError "Failed to fetch")
  = Ok "An unexpected error occurred: Failed to fetch" /\
  userMessage <$> handleGeminiError JSON_unused (VStr "boom")
  = Ok "An unexpected error occurred: boom" /\
  userMessage <$> handleGeminiError JSON_unused VNull
  = Ok "An unexpected error occurred: null".
Proof. repeat split. Qed.

(** An [Error] whose message is the JSON text of the payload is classified
    as the payload is. *)
Example handleGeminiError_wrapped :
  handleGeminiError (fun text => Some quota_error_5s) (VError "payload")
  = handleGeminiError JSON_unused quota_error_5s.
Proof. reflexivity. Qed.

(** Shapes outside the API's on which the classifier throws. *)
Example handleGeminiError_throws :
  handleGeminiError JSON_unused
    (VObj [("error", VObj [("code", VNum (Int 429)); ("details", VStr "none")])])
  = Throw TypeError /\
  handleGeminiError JSON_unused
    (VObj [("error", VObj [("code", VNum (Int 429)); ("details", VArr [VNull])])])
  = Throw TypeError /\
  handleGeminiError JSON_unused
    (VObj [("error",
            VObj [("code", VNum (Int 429));
                  ("details",
                   VArr [VObj [("@type", VStr retry_info_type);
                               ("retryDelay", VNum (Int 5))]])])])
  = Throw TypeError.
Proof. repeat split. Qed.

(** Values that cannot be printed: an object with a [toString] property of
    its own, thrown as it is, or as the [status] of a payload without a
    message. *)
Example handleGeminiError_not_printable :
  handleGeminiError JSON_unused (VObj [("toString", VNum (Int 1))])
  = Throw TypeError /\
  handleGeminiError JSON_unused (VArr [VStr "a"; VObj [("toString", VNull)]])
  = Throw TypeError /\
  handleGeminiError
    (fun text =>
       Some (VObj [("error",
                    VObj [("status", VObj [("toString", VNum (Int 1))])])]))
    (VError "{...}")
  = Throw TypeError /\
  userMessage <$> handleGeminiError JSON_unused
    (VArr [VNum (Int 1); VNull; VArr [VStr "a"; VObj []]])
  = Ok "An unexpected error occurred: 1,,a,[object Object]".
Proof. repeat split. Qed.

(** [parseInt] on the texts a retry hint can leave; beyond 2^53 the value is
    the nearest double. *)
Example parseInt_examples :
  parseInt "5" = Int 5 /\ parseInt "  42abc" = Int 42 /\
  parseInt "-7" = Int (-7) /\ parseInt "" = NaN /\ parseInt "abc" = NaN /\
  parseInt "9007199254740993" = Int 9007199254740992.
Proof. repeat split. Qed.

(** The text of a number: beyond 2^53 the fewest digits that denote the
    double, with zeros up to 21 digits and with an exponent from there on. *)
Example number_to_string_examples :
  number_to_string <$>
    [Int 0; Int (-15); Int (2 ^ 53); Int (2 ^ 60); Int (2 ^ 64);
     Int 999999999999999868928; Int (10 ^ 21); Int (- 2 ^ 70);
     Int 99999999999999991611392;
     parseInt "12345678901234567890"]
  = ["0"; "-15"; "9007199254740992"; "1152921504606847000";
     "18446744073709552000"; "999999999999999900000"; "1e+21";
     "-1.1805916207174113e+21"; "1e+23"; "12345678901234567000"].
Proof. vm_compute. reflexivity. Qed.

(** [toLowerCase] on the letters of Latin-1: U+00C9 becomes U+00E9, the
    multiplication sign U+00D7 stays. *)
Example lower_latin1 :
  lower ("QUOTA" +:+ String (ascii_of_N 201) (String (ascii_of_N 215) ""))
  = "quota" +:+ String (ascii_of_N 233) (String (ascii_of_N 215) "").
Proof. reflexivity. Qed.

(** The poller against a service that finishes on the third attempt, the
    second one failing: three attempts, and the third message shown. *)
Example pollOperation_done_on_third :
  (fun '(r, s) => (r, VideoGenerator.polls s, VideoGenerator.loadingMessage s))
    <$> VideoGenerator.pollOperation done_on_third
          (VideoGenerator.mkOperation false None) "Warming up the AI director..."
  = Some (Ok (VideoGenerator.mkOperation true
                (Some "https://example.invalid/v.mp4")),
          3%nat, "Applying cinematic color grading...").
Proof. reflexivity. Qed.

(** A voice generation that succeeds: one history item with the audio as
    received, and a playable container. *)
Example handleGenerate_succeeds :
  let s := fst (VoiceGenerator.handleGenerate JSON_unused "key" voice_tool
                  (Fulfilled (Some "AAEC"))) in
  VoiceGenerator.vh_audioBase64 <$> VoiceGenerator.history s = ["AAEC"] /\
  (blob_bytes <$> VoiceGenerator.audioUrl s)
  = Some (wav_header 3 24000 1 ++ [x00; x01; x02]) /\
  VoiceGenerator.error s = None /\ VoiceGenerator.isLoading s = false.
Proof. cbv zeta. repeat split. Qed.

(** The to-do handlers on a list of two tasks. *)
Example todo_handlers :
  TodoManager.tasks (TodoManager.handleDeleteTask one_list_store
                       "task-1700000000000" two_tasks)
  = [TodoManager.mkTodoItem "task-1700000000500" "call home" true] /\
  TodoManager.tasks
    (TodoManager.handleAddTask one_list_store 1700000001000 two_tasks)
  = TodoManager.tasks two_tasks
    ++ [TodoManager.mkTodoItem "task-1700000001000" "water plants" false] /\
  TodoManager.calls
    (TodoManager.handleToggleComplete one_list_store "task-1700000000000"
       two_tasks)
  = [TodoManager.UpdateList "list-1"
       [TodoManager.mkTodoItem "task-1700000000000" "buy milk" true;
        TodoManager.mkTodoItem "task-1700000000500" "call home" true]].
Proof. repeat split. Qed.

End Examples.

(** ** More on the transcoders: blobs, sizes, failures, [writeString] *)

Section AudioMore.
Import AudioUtils AudioUtilsAsync.

Lemma string_length_of_list l :
  String.length (String.string_of_list_ascii l) = length l.
Proof. induction l as [|c l IH]; [reflexivity|]. cbn. now rewrite IH. Qed.

Lemma chars_app s t : chars (s +:+ t) = chars s ++ chars t.
Proof.
  induction s as [|c s IH]; [reflexivity|].
  change (c :: chars (s +:+ t) = c :: (chars s ++ chars t)). now rewrite IH.
Qed.

Lemma btoa_units_size us :
  length (btoa_units us) = (4 * ((length us + 2) / 3))%nat.
Proof.
  induction us as [|a|a b|a b c rest IH] using triples_ind; try reflexivity.
  cbn [btoa_units length]. rewrite IH.
  replace (S (S (S (length rest))) + 2)%nat
    with ((length rest + 2) + 1 * 3)%nat by lia.
  rewrite Nat.div_add by lia. lia.
Qed.

Lemma sextet_char_base64 k : (k < 64)%N -> base64_char (sextet_char k).
Proof. intros Hk. left. rewrite char_sextet_sextet_char by exact Hk. eauto. Qed.

Lemma btoa_units_alphabet us :
  Forall is_unit us -> Forall base64_char (btoa_units us).
Proof.
  induction us as [|a|a b|a b c rest IH] using triples_ind; intros Hus.
  - constructor.
  - apply Forall_cons_1 in Hus as [Ha _]. unfold is_unit in Ha.
    cbn [btoa_units].
    repeat (apply Forall_cons_2;
            [first [now right | apply sextet_char_base64; n_arith]|]).
    apply Forall_nil_2.
  - apply Forall_cons_1 in Hus as [Ha Hus].
    apply Forall_cons_1 in Hus as [Hb _]. unfold is_unit in *.
    cbn [btoa_units].
    repeat (apply Forall_cons_2;
            [first [now right | apply sextet_char_base64; n_arith]|]).
    apply Forall_nil_2.
  - apply Forall_cons_1 in Hus as [Ha Hus].
    apply Forall_cons_1 in Hus as [Hb Hus].
    apply Forall_cons_1 in Hus as [Hc Hus]. unfold is_unit in *.
    cbn [btoa_units].
    repeat (apply Forall_cons_2; [apply sextet_char_base64; n_arith|]).
    apply IH, Hus.
Qed.

Lemma encode_units b :
  chars (encode b) = btoa_units (N_of_ascii ∘ fromCharCode <$> b) /\
  Forall is_unit (N_of_ascii ∘ fromCharCode <$> b).
Proof.
  unfold encode, btoa. cbv zeta. rewrite !chars_string_of_list.
  rewrite <- list_fmap_compose. split; [reflexivity|].
  apply Forall_fmap, Forall_true. intros x. apply N_ascii_bounded.
Qed.

Lemma encode_alphabet b : Forall base64_char (chars (encode b)).
Proof.
  destruct (encode_units b) as [-> Hus]. now apply btoa_units_alphabet.
Qed.

Lemma encode_no_comma b : ","%char ∉ chars (encode b).
Proof.
  intros Hin. pose proof (encode_alphabet b) as Hall.
  rewrite Forall_forall in Hall. destruct (Hall _ Hin) as [[k Hk]|Hp];
    discriminate.
Qed.

Lemma encode_length b :
  String.length (encode b) = (4 * ((length b + 2) / 3))%nat.
Proof.
  rewrite <- (string_of_chars (encode b)), string_length_of_list.
  destruct (encode_units b) as [-> _].
  now rewrite btoa_units_size, length_fmap.
Qed.

Lemma encode_nonempty b : b <> [] -> String.eqb (encode b) "" = false.
Proof.
  intros Hb. apply String.eqb_neq. intros He.
  pose proof (encode_length b) as Hlen. rewrite He in Hlen.
  change (String.length "") with 0%nat in Hlen.
  destruct b as [|x b]; [congruence|].
  assert (1 <= (length (x :: b) + 2) / 3)%nat
    by (apply Nat.div_le_lower_bound; cbn [length]; lia).
  lia.
Qed.

(** X5: the text [encode] writes for [n] bytes has [4 * ceil (n / 3)]
    characters, each of them of the base64 alphabet or the padding. *)
Theorem encode_shape (b : list byte) :
  String.length (encode b) = (4 * ((length b + 2) / 3))%nat /\
  Forall base64_char (chars (encode b)).
Proof. split; [apply encode_length|apply encode_alphabet]. Qed.

Lemma base64ToBlob_of_encode b mimeType :
  base64ToBlob (encode b) mimeType = Ok (mkBlob b mimeType).
Proof.
  unfold base64ToBlob, encode. rewrite atob_btoa. cbn.
  f_equal. f_equal. rewrite chars_string_of_list.
  rewrite <- !list_fmap_compose.
  induction b as [|x b IH]; [reflexivity|].
  cbn. rewrite IH. f_equal. apply byte_of_charCode_fromCharCode.
Qed.

(** X6: [base64ToBlob] undoes [encode]: the blob made from the base64 text
    of a byte sequence holds these bytes, with the MIME type asked for. *)
Theorem base64ToBlob_encode (b : list byte) (mimeType : string) :
  base64ToBlob (encode b) mimeType = Ok (mkBlob b mimeType).
Proof. apply base64ToBlob_of_encode. Qed.

Lemma decode_of_encode b : decode (encode b) = Ok b.
Proof.
  unfold decode, encode. rewrite atob_btoa. cbn [mbind result_bind mret result_ret].
  f_equal. rewrite chars_string_of_list, <- list_fmap_compose.
  induction b as [|x b IH]; [reflexivity|].
  rewrite !fmap_cons, IH. f_equal. apply byte_of_charCode_fromCharCode.
Qed.

(** *** Data URLs *)

Lemma split_comma_nonempty s : exists part parts, split_comma s = part :: parts.
Proof.
  induction s as [|c s (part & parts & IH)]; [now eauto|].
  cbn. destruct (Ascii.eqb c ","); [now eauto|]. rewrite IH. eauto.
Qed.

Lemma split_comma_skip s rest part parts :
  ","%char ∉ chars s ->
  split_comma rest = part :: parts ->
  split_comma (s +:+ rest) = (s +:+ part) :: parts.
Proof.
  intros Hs Hrest. induction s as [|c s IH]; [exact Hrest|].
  change (chars (String c s)) with (c :: chars s) in Hs.
  apply not_elem_of_cons in Hs as [Hc Hs].
  change (String c s +:+ rest) with (String c (s +:+ rest)).
  change (String c s +:+ part) with (String c (s +:+ part)).
  cbn [split_comma].
  destruct (Ascii.eqb_spec c ","%char) as [->|_]; [congruence|].
  now rewrite (IH Hs).
Qed.

Lemma split_comma_whole s : ","%char ∉ chars s -> split_comma s = [s].
Proof.
  intros Hs. induction s as [|c s IH]; [reflexivity|].
  change (chars (String c s)) with (c :: chars s) in Hs.
  apply not_elem_of_cons in Hs as [Hc Hs].
  cbn [split_comma].
  destruct (Ascii.eqb_spec c ","%char) as [->|_]; [congruence|].
  now rewrite (IH Hs).
Qed.

Lemma data_url_parts media b :
  ","%char ∉ chars media ->
  split_comma (data_url media b)
  = ["data:" +:+ media +:+ ";base64"; encode b].
Proof.
  intros Hmedia. unfold data_url.
  assert (Hno : forall s : string,
            bool_decide (","%char ∉ chars s) = true -> ","%char ∉ chars s)
    by (intros s Hs; exact (bool_decide_eq_true_1 _ Hs)).
  assert (Hcomma : split_comma (String "," (encode b)) = [""; encode b]).
  { cbn [split_comma]. change (Ascii.eqb "," ",") with true. cbv iota.
    now rewrite (split_comma_whole _ (encode_no_comma b)). }
  change (";base64," +:+ encode b) with (";base64" +:+ String "," (encode b)).
  apply (split_comma_skip "data:" _ (media +:+ ";base64") [encode b]);
    [now apply Hno|].
  apply (split_comma_skip media _ ";base64" [encode b]); [exact Hmedia|].
  apply (split_comma_skip ";base64" _ "" [encode b]); [now apply Hno|].
  exact Hcomma.
Qed.

Section Reader.

Variable readAsDataURL : Blob -> ReadOutcome.

(** X7: when the reader loads the data URL of the blob and the media type
    written into it has no comma, [blobToBase64] resolves with the base64
    text of the bytes of the blob, and [base64ToBlob] makes of that text a
    blob of the same bytes. *)
Theorem blobToBase64_base64ToBlob (blob : Blob) (media mimeType : string) :
  ","%char ∉ chars media ->
  readAsDataURL blob = Loaded (data_url media (blob_bytes blob)) ->
  blobToBase64 readAsDataURL blob = Fulfilled (Some (encode (blob_bytes blob))) /\
  base64ToBlob (encode (blob_bytes blob)) mimeType
  = Ok (mkBlob (blob_bytes blob) mimeType).
Proof.
  intros Hmedia Hread. split.
  - unfold blobToBase64. rewrite Hread.
    now rewrite (data_url_parts _ _ Hmedia).
  - apply base64ToBlob_of_encode.
Qed.

End Reader.

(** *** Text that is not base64 *)

Lemma remove_padding_keeps c l :
  c ∈ l -> is_pad c = false -> c ∈ remove_padding l.
Proof.
  intros Hin Hc. induction l as [|x l IH]; [exact Hin|].
  cbn [remove_padding].
  destruct (is_pad x && match l with
                        | [] => true
                        | [c'] => is_pad c'
                        | _ => false
                        end) eqn:Hcut.
  - exfalso. apply andb_prop in Hcut as [Hx Hl].
    apply elem_of_cons in Hin as [->|Hin]; [congruence|].
    destruct l as [|c' [|? ?]]; [now apply elem_of_nil in Hin| |discriminate].
    apply list_elem_of_singleton in Hin as ->. congruence.
  - apply elem_of_cons. apply elem_of_cons in Hin as [->|Hin]; [now left|].
    right. apply IH, Hin.
Qed.

Lemma atob_rejects base64 c :
  c ∈ chars base64 ->
  char_sextet c = None -> is_pad c = false -> is_ascii_whitespace c = false ->
  atob base64 = Throw InvalidCharacterError.
Proof.
  intros Hin Hc Hpad Hws. unfold atob. cbv zeta.
  set (data := filter (fun c => is_ascii_whitespace c = false) (chars base64)).
  assert (Hdata : c ∈ data) by (apply list_elem_of_filter; auto).
  set (data' := if (length data mod 4 =? 0)%nat then remove_padding data
                else data).
  assert (Hdata' : c ∈ data').
  { unfold data'. destruct (length data mod 4 =? 0)%nat; [|exact Hdata].
    now apply remove_padding_keeps. }
  clearbody data'. destruct (length data' mod 4 =? 1)%nat; [reflexivity|].
  destruct (mapM char_sextet data') as [sextets|] eqn:Hmap; [|reflexivity].
  exfalso. assert (Hsome : is_Some (mapM char_sextet data')) by eauto.
  apply mapM_is_Some_1 in Hsome. rewrite Forall_forall in Hsome.
  destruct (Hsome c Hdata') as [k Hk]. unfold compose in Hk.
  rewrite Hc in Hk. discriminate.
Qed.

(** X8: a text with a character that is neither of the base64 alphabet nor
    the padding nor ASCII white space is rejected: [decode] and
    [base64ToBlob] throw, and return no bytes. *)
Theorem decode_rejects (base64 mimeType : string) (c : ascii) :
  c ∈ chars base64 ->
  char_sextet c = None -> is_pad c = false -> is_ascii_whitespace c = false ->
  decode base64 = Throw InvalidCharacterError /\
  base64ToBlob base64 mimeType = Throw InvalidCharacterError.
Proof.
  intros Hin Hc Hpad Hws. unfold decode, base64ToBlob.
  now rewrite (atob_rejects base64 c Hin Hc Hpad Hws).
Qed.

(** *** [writeString] *)

Lemma writeString_loop_fits str : forall view offset,
  (offset + length str <= length view)%nat ->
  writeString_loop view offset str
  = Ok (take offset view ++ (byte_of_Z ∘ charCode <$> str)
          ++ drop (offset + length str) view).
Proof.
  induction str as [|c str IH]; intros view offset Hfit.
  - cbn. now rewrite Nat.add_0_r, take_drop.
  - cbn [length] in Hfit. cbn [writeString_loop]. unfold setUint8.
    replace (offset + 1 <=? length view)%nat with true
      by (symmetry; apply Nat.leb_le; lia).
    cbn [mbind result_bind].
    rewrite IH by (rewrite length_insert; lia).
    f_equal. rewrite (take_S_r _ _ (byte_of_Z (charCode c)))
      by (apply list_lookup_insert_eq; lia).
    rewrite take_insert_ge by lia. rewrite drop_insert_lt by lia.
    rewrite fmap_cons, <- app_assoc. cbn [length].
    now replace (S offset + length str)%nat with (offset + S (length str))%nat
      by lia.
Qed.

Lemma writeString_loop_overflows str : forall view offset,
  str <> [] -> (length view < offset + length str)%nat ->
  writeString_loop view offset str = Throw RangeError.
Proof.
  induction str as [|c str IH]; intros view offset Hne Hover; [congruence|].
  cbn [length] in Hover. cbn [writeString_loop]. unfold setUint8.
  destruct (offset + 1 <=? length view)%nat eqn:Hfirst; [|reflexivity].
  apply Nat.leb_le in Hfirst. cbn [mbind result_bind].
  apply IH; [|rewrite length_insert; lia].
  intros ->. cbn [length] in Hover. lia.
Qed.

(** X9: [writeString] succeeds when the string fits the view from the offset
    on (or is empty): it then stores the char codes of the string from the
    offset on and leaves every other byte as it was. When a string that is
    not empty does not fit, it throws a [RangeError]. *)
Theorem writeString_bounds (view : list byte) (offset : nat) (str : string) :
  ((offset + String.length str <= length view)%nat ->
   writeString view offset str
   = Ok (take offset view ++ (byte_of_Z ∘ charCode <$> chars str)
           ++ drop (offset + String.length str) view)) /\
  (str = "" -> writeString view offset str = Ok view) /\
  (str <> "" -> (length view < offset + String.length str)%nat ->
   writeString view offset str = Throw RangeError).
Proof.
  assert (Hlen : String.length str = length (chars str)).
  { rewrite <- (string_of_chars str) at 1. apply string_length_of_list. }
  unfold writeString. rewrite Hlen. split; [|split].
  - apply writeString_loop_fits.
  - now intros ->.
  - intros Hne. apply writeString_loop_overflows.
    intros Hnil. apply Hne. rewrite <- (string_of_chars str). now rewrite Hnil.
Qed.

End AudioMore.

(** ** More on the classifier: wrapped payloads, plain errors, the flags *)

Section ClassifierMore.
Import ErrorUtils.

Variable JSON_parse : string -> option value.

Lemma truthy_VStr s : s <> "" -> truthy (VStr s) = true.
Proof.
  intros Hs. cbn. destruct (String.eqb_spec s ""); [contradiction|reflexivity].
Qed.



(** X10: an [Error] whose message is the JSON text of an object that has a
    payload under [error] is classified as this object itself is: the SDK's
    wrapping of a response body makes no difference. *)
Theorem handleGeminiError_unwraps (message : string)
    (props : list (string * value)) :
  message <> "" ->
  JSON_parse message = Some (VObj props) ->
  truthy (prop (VObj props) "error") = true ->
  handleGeminiError JSON_parse (VError message)
  = handleGeminiError JSON_parse (VObj props).
Proof.
  intros Hne Hparse Hapi. unfold handleGeminiError. cbv zeta.
  assert (Hwrapped : getErrorObject JSON_parse (VError message) = VObj props).
  { unfold getErrorObject. now rewrite (truthy_VStr _ Hne), Hparse. }
  assert (Hraw : getErrorObject JSON_parse (VObj props) = VObj props)
    by reflexivity.
  rewrite Hwrapped, Hraw, get_opt_prop. cbn [mbind result_bind].
  now rewrite Hapi.
Qed.

Lemma lowered_includes v message pattern :
  toLowerCase (or_else v (VStr "")) = Ok message ->
  includes message pattern = true ->
  includes "" pattern = false ->
  exists m, v = VStr m /\ message = lower m.
Proof.
  unfold or_else. intros Hlow Hinc Hempty.
  destruct (truthy v) eqn:Hv.
  - destruct v; try discriminate Hlow. injection Hlow as <-. eauto.
  - injection Hlow as <-. cbn [lower] in Hinc. congruence.
Qed.


(** X11: a retry delay is returned for quota errors only (status
    [RESOURCE_EXHAUSTED] or code 429), and never with a request to reset the
    key; the key reset is requested only for an API error that is not a
    quota error and whose message contains, in any letter case,
    ["requested entity was not found"], and never with a retry delay. *)
Theorem handleGeminiError_flags (error : value) (parsed : ParsedError) :
  handleGeminiError JSON_parse error = Ok parsed ->
  let apiError := prop (getErrorObject JSON_parse error) "error" in
  (is_Some (retryDelay parsed) ->
   truthy apiError = true /\ quota_error apiError = true /\
   shouldResetKey parsed = None) /\
  (is_Some (shouldResetKey parsed) ->
   shouldResetKey parsed = Some true /\
   truthy apiError = true /\ quota_error apiError = false /\
   retryDelay parsed = None /\
   exists m,
     prop apiError "message" = VStr m /\
     includes (lower m) "requested entity was not found" = true).
Proof.
  intros H. cbv zeta. unfold handleGeminiError in H. cbv zeta in H.
  set (errorObj := getErrorObject JSON_parse error) in *.
  rewrite get_opt_prop in H. cbn [mbind result_bind] in H.
  set (apiError := prop errorObj "error") in *.
  destruct (truthy apiError) eqn:Hapi.
  2: { destruct (match error with
                 | VError message => Ok message
                 | _ => to_string error
                 end) as [shown|]; [|discriminate H].
       injection H as <-. cbn [retryDelay shouldResetKey].
       split; intros [x Hx]; discriminate Hx. }
  pose proof (truthy_not_nullish _ Hapi) as Hnn.
  rewrite !get_not_nullish in H by exact Hnn. cbn [mbind result_bind] in H.
  destruct (toLowerCase (or_else (prop apiError "message") (VStr "")))
    as [message|] eqn:Hlower; [|discriminate H].
  cbn [mbind result_bind] in H.
  change (strict_eq_str (prop apiError "status") "RESOURCE_EXHAUSTED"
          || strict_eq_int (prop apiError "code") 429)
    with (quota_error apiError) in H.
  destruct (quota_error apiError) eqn:Hquota.
  - destruct (find_opt _ _) as [retryInfo|]; [|discriminate H].
    cbn [mbind result_bind] in H. rewrite get_opt_prop in H.
    cbn [mbind result_bind] in H.
    destruct (truthy (prop retryInfo "retryDelay")).
    + destruct (get retryInfo "retryDelay") as [hint|]; [|discriminate H].
      cbn [mbind result_bind] in H.
      destruct (replace hint "s" "") as [digits|]; [|discriminate H].
      injection H as <-. cbn [retryDelay shouldResetKey].
      split; [auto|]. intros [x Hx]; discriminate Hx.
    + injection H as <-. cbn [retryDelay shouldResetKey].
      split; intros [x Hx]; discriminate Hx.
  - destruct (includes message "imagen api is only accessible to billed users").
    { injection H as <-. cbn [retryDelay shouldResetKey].
      split; intros [x Hx]; discriminate Hx. }
    destruct (some_opt _ _) as [isInvalidKey|]; [|discriminate H].
    cbn [mbind result_bind] in H.
    destruct (truthy isInvalidKey
              || strict_eq_str (prop apiError "status") "INVALID_ARGUMENT").
    { destruct (includes message "api key expired");
        injection H as <-; cbn [retryDelay shouldResetKey];
        split; intros [x Hx]; discriminate Hx. }
    destruct (includes message "requested entity was not found") eqn:Hinc.
    + injection H as <-. cbn [retryDelay shouldResetKey].
      split; [intros [x Hx]; discriminate Hx|]. intros _.
      repeat split; try reflexivity.
      destruct (lowered_includes _ _ _ Hlower Hinc eq_refl) as (m & Hm & ->).
      exists m. now split.
    + destruct (to_string _) as [shown|]; [|discriminate H].
      injection H as <-. cbn [retryDelay shouldResetKey].
      split; intros [x Hx]; discriminate Hx.
Qed.

End ClassifierMore.

(** ** More on the poller, and the video generation *)

Section PollerMore.
Import VideoGenerator.

Variable getVideosOperation :
  nat -> GenerateVideosOperation -> result GenerateVideosOperation.

Local Abbreviation poll_once := (poll_once getVideosOperation).
Local Abbreviation poll_loop := (poll_loop getVideosOperation).
Local Abbreviation pollOperation := (pollOperation getVideosOperation).

Lemma loadingMessages_cycle n :
  loadingMessages !! (n mod 7)%nat
  = Some (default "" (loadingMessages !! (n mod length loadingMessages)%nat)).
Proof.
  change (length loadingMessages) with 7%nat.
  assert (Hlt : (n mod 7 < length loadingMessages)%nat)
    by (change (length loadingMessages) with 7%nat; apply Nat.mod_upper_bound; lia).
  apply lookup_lt_is_Some_2 in Hlt as [m Hm]. now rewrite Hm.
Qed.

Lemma poll_start_cycle operation shown :
  message_cycle shown (poll_start operation shown).
Proof.
  unfold message_cycle. cbn [poll_start messageIndex polls loadingMessage].
  split; [reflexivity|]. split; [reflexivity|lia].
Qed.

Lemma poll_once_cycle shown s :
  message_cycle shown s -> message_cycle shown (poll_once s).
Proof.
  intros (Hindex & _ & _). unfold message_cycle, VideoGenerator.poll_once.
  cbn [messageIndex polls loadingMessage]. rewrite Hindex.
  split; [reflexivity|]. split; [discriminate|]. intros _.
  apply loadingMessages_cycle.
Qed.

Lemma poll_loop_cycle shown fuel s r s' :
  message_cycle shown s -> poll_loop fuel s = Some (r, s') ->
  message_cycle shown s'.
Proof.
  revert s. induction fuel as [|fuel IH]; intros s Hs;
    cbn [VideoGenerator.poll_loop].
  - destruct (done (currentOperation s)); [|discriminate].
    now intros [= <- <-].
  - destruct (done (currentOperation s)); [now intros [= <- <-]|].
    destruct (maxPolls <=? polls s)%nat; [now intros [= <- <-]|].
    apply IH, poll_once_cycle, Hs.
Qed.

(** X12: the poller hands back only an operation that is done, after at
    most 30 attempts; an operation that is done when it is handed in comes
    back at once, with no attempt made and the message on display left as it
    was. *)
Theorem pollOperation_returns_done (operation : GenerateVideosOperation)
    (shown : string) :
  (done operation = true ->
   pollOperation operation shown
   = Some (Ok operation, poll_start operation shown)) /\
  (forall finished s,
     pollOperation operation shown = Some (Ok finished, s) ->
     done finished = true /\ currentOperation s = finished /\
     (polls s <= 30)%nat).
Proof.
  split.
  - intros Hdone. unfold VideoGenerator.pollOperation.
    cbn [VideoGenerator.poll_loop poll_start currentOperation].
    now rewrite Hdone.
  - intros finished s Hrun.
    apply (poll_loop_returns getVideosOperation (S maxPolls)
             (poll_start operation shown)); [cbn; unfold maxPolls; lia|].
    exact Hrun.
Qed.

(** X13: whatever the poller ends with, the message it leaves on display is
    the one shown before when no attempt was made, and after [n] attempts
    the entry [n mod 7] of the seven loading messages: the messages are shown
    in turn, starting with the second, and the index never leaves the
    list. *)
Theorem pollOperation_message (operation : GenerateVideosOperation)
    (shown : string) (r : result GenerateVideosOperation) (s : PollState) :
  pollOperation operation shown = Some (r, s) ->
  messageIndex s = S (polls s) /\
  (polls s = 0%nat -> loadingMessage s = shown) /\
  ((1 <= polls s)%nat ->
   loadingMessages !! (polls s mod 7)%nat = Some (loadingMessage s)).
Proof.
  intros Hrun.
  apply (poll_loop_cycle shown (S maxPolls) (poll_start operation shown) r s);
    [apply poll_start_cycle|exact Hrun].
Qed.

End PollerMore.

Section VideoFacts.
Import ErrorUtils VideoGenerator.

Variable JSON_parse : string -> option value.
Variable API_KEY : string.
Variable aistudio : option AiStudio.
Variable generateVideos : Settled GenerateVideosOperation.
Variable getVideosOperation :
  nat -> GenerateVideosOperation -> result GenerateVideosOperation.
Variable fetch : string -> Settled Response.
Variable readAsDataURL : AudioUtils.Blob -> AudioUtilsAsync.ReadOutcome.

Local Abbreviation handleGenerate :=
  (handleGenerate JSON_parse API_KEY aistudio generateVideos
     getVideosOperation fetch readAsDataURL).
Local Abbreviation try_generation :=
  (try_generation API_KEY generateVideos getVideosOperation fetch
     readAsDataURL).
Local Abbreviation can_generate := (can_generate API_KEY aistudio).

(** Past its guards [handleGenerate] is its head, its [try] block and its
    [catch] and [finally] blocks. *)
Lemma video_handleGenerate_started s :
  can_generate s ->
  handleGenerate s
  = '(s', failure) ←
      try_generation (begin_generation (setApiKeySelected true s));
    match failure with
    | None => Some (setIsLoading false s', None)
    | Some e =>
        match catch_generation JSON_parse s' e with
        | Ok s'' => Some (setIsLoading false s'', None)
        | Throw e' => Some (setIsLoading false s', Some (thrown e'))
        end
    end.
Proof.
  intros (Hprompt & (studio & Hstudio & Hkey) & Hapi).
  unfold VideoGenerator.handleGenerate, checkApiKey.
  rewrite Hprompt, Hstudio, Hkey, Hapi. reflexivity.
Qed.

Lemma video_clear_timerRef_fields s :
  prompt (clear_timerRef s) = prompt s /\
  aspectRatio (clear_timerRef s) = aspectRatio s /\
  isLoading (clear_timerRef s) = isLoading s /\
  shownMessage (clear_timerRef s) = shownMessage s /\
  error (clear_timerRef s) = error s /\
  videoUrl (clear_timerRef s) = videoUrl s /\
  apiKeySelected (clear_timerRef s) = apiKeySelected s /\
  retryAfter (clear_timerRef s) = retryAfter s /\
  history (clear_timerRef s) = history s.
Proof. unfold clear_timerRef. destruct (timerRef s); repeat split. Qed.

Lemma video_arm_retry_fields d s :
  prompt (arm_retry d s) = prompt s /\
  aspectRatio (arm_retry d s) = aspectRatio s /\
  isLoading (arm_retry d s) = isLoading s /\
  shownMessage (arm_retry d s) = shownMessage s /\
  error (arm_retry d s) = error s /\
  videoUrl (arm_retry d s) = videoUrl s /\
  apiKeySelected (arm_retry d s) = apiKeySelected s /\
  history (arm_retry d s) = history s.
Proof.
  unfold arm_retry. destruct d as [[z|]|]; try (repeat split; fail).
  destruct (negb (z =? 0) && (0 <? z)); repeat split.
Qed.

Lemma video_begin_generation_fields s :
  prompt (begin_generation s) = prompt s /\
  aspectRatio (begin_generation s) = aspectRatio s /\
  shownMessage (begin_generation s) = "Warming up the AI director..." /\
  error (begin_generation s) = None /\
  videoUrl (begin_generation s) = None /\
  apiKeySelected (begin_generation s) = apiKeySelected s /\
  retryAfter (begin_generation s) = 0 /\
  history (begin_generation s) = history s.
Proof.
  unfold begin_generation. cbv zeta.
  destruct (video_clear_timerRef_fields
              (setRetryAfter 0
                 (setLoadingMessage (default "" (loadingMessages !! 0%nat))
                    (setVideoUrl None (setError None (setIsLoading true s))))))
    as (-> & -> & _ & -> & -> & -> & -> & -> & ->).
  repeat split.
Qed.

(** The [catch] and [finally] blocks on an error the classifier accepts. *)
Lemma video_catch_generation_fields s e parsed :
  handleGeminiError JSON_parse e = Ok parsed ->
  exists s',
    catch_generation JSON_parse s e = Ok s' /\
    error s' = Some (userMessage parsed) /\
    apiKeySelected s'
    = match shouldResetKey parsed with
      | Some true => false
      | _ => apiKeySelected s
      end /\
    prompt s' = prompt s /\ aspectRatio s' = aspectRatio s /\
    shownMessage s' = shownMessage s /\ videoUrl s' = videoUrl s /\
    history s' = history s.
Proof.
  intros He. unfold catch_generation. rewrite He. cbn [mbind result_bind].
  eexists. split; [reflexivity|]. cbn [mret result_ret].
  match goal with
  | |- context [arm_retry ?d ?st] =>
      destruct (video_arm_retry_fields d st) as (-> & -> & _ & -> & -> & -> & -> & ->)
  end.
  destruct (shouldResetKey parsed) as [[|]|]; repeat split.
Qed.

(** X14: when the remote call is rejected with an error for which the
    classifier asks to reset the key, the generation ends with the key
    marked as not selected (so that the key screen is shown), the message of
    the classifier as the error, loading ended and nothing added to the
    history. *)
Theorem video_handleGenerate_resets_key (s : State) (reason : value)
    (parsed : ParsedError) :
  can_generate s ->
  generateVideos = Rejected reason ->
  handleGeminiError JSON_parse reason = Ok parsed ->
  shouldResetKey parsed = Some true ->
  exists s',
    handleGenerate s = Some (s', None) /\
    apiKeySelected s' = false /\
    error s' = Some (userMessage parsed) /\
    isLoading s' = false /\
    history s' = history s.
Proof.
  intros Hcan Hgen He Hreset. rewrite (video_handleGenerate_started s Hcan).
  unfold VideoGenerator.try_generation. rewrite Hgen.
  cbn [mbind option_bind].
  destruct (video_catch_generation_fields
              (begin_generation (setApiKeySelected true s)) reason parsed He)
    as (s' & -> & Herr & Hkey & _ & _ & _ & _ & Hhist).
  eexists. split; [reflexivity|].
  cbn [apiKeySelected error isLoading history setIsLoading].
  rewrite Hkey, Herr, Hhist, Hreset.
  destruct (video_begin_generation_fields (setApiKeySelected true s))
    as (_ & _ & _ & _ & _ & _ & _ & ->).
  repeat split.
Qed.


(** X16: a generation whose video is downloaded and read (the reader loads
    the data URL of the blob, with a media type without comma) shows the
    video and saves it to the history with its prompt and aspect ratio; the
    effect on [historyItem], run later on the saved item of a video that is
    not empty, restores a [video/mp4] blob of the same bytes, the prompt and
    the aspect ratio, with no error and loading ended. *)
Theorem video_handleGenerate_saves_video (s : State)
    (initialOperation finishedOperation : GenerateVideosOperation)
    (polled : PollState) (downloadLink media : string) (response : Response)
    (videoBlob : AudioUtils.Blob) :
  can_generate s ->
  generateVideos = Fulfilled initialOperation ->
  pollOperation getVideosOperation initialOperation
    "Warming up the AI director..."
  = Some (Ok finishedOperation, polled) ->
  videoUri finishedOperation = Some downloadLink ->
  downloadLink <> "" ->
  fetch (downloadLink +:+ "&key=" +:+ API_KEY) = Fulfilled response ->
  ok response = true ->
  blob response = Fulfilled videoBlob ->
  ","%char ∉ chars media ->
  readAsDataURL videoBlob
  = AudioUtilsAsync.Loaded
      (AudioUtilsAsync.data_url media (AudioUtils.blob_bytes videoBlob)) ->
  AudioUtils.blob_bytes videoBlob <> [] ->
  let item :=
    mkVideoHistory (prompt s) (aspectRatio s)
      (Some (AudioUtils.encode (AudioUtils.blob_bytes videoBlob))) in
  (exists s',
     handleGenerate s = Some (s', None) /\
     videoUrl s' = Some videoBlob /\
     error s' = None /\
     isLoading s' = false /\
     history s' = history s ++ [item]) /\
  (forall s0,
     let s1 := historyItem_effect (Some (VideoItem item)) s0 in
     videoUrl s1
     = Some (AudioUtils.mkBlob (AudioUtils.blob_bytes videoBlob) "video/mp4") /\
     prompt s1 = prompt s /\ aspectRatio s1 = aspectRatio s /\
     error s1 = None /\ isLoading s1 = false).
Proof.
  intros Hcan Hgen Hpoll Huri Hlink Hfetch Hok Hblob Hmedia Hread Hbytes.
  cbv zeta. split.
  - rewrite (video_handleGenerate_started s Hcan).
    set (s0 := begin_generation (setApiKeySelected true s)).
    destruct (video_begin_generation_fields (setApiKeySelected true s))
      as (Hprompt & Haspect & Hshown & Herr & _ & _ & _ & Hhist).
    fold s0 in Hprompt, Haspect, Hshown, Herr, Hhist.
    unfold VideoGenerator.try_generation. rewrite Hgen, Hshown, Hpoll.
    cbn [mbind option_bind]. rewrite Huri.
    replace (String.eqb downloadLink "") with false
      by (symmetry; now apply String.eqb_neq).
    cbn [negb]. rewrite Hfetch, Hok. cbn [negb]. rewrite Hblob.
    unfold AudioUtilsAsync.blobToBase64. rewrite Hread.
    rewrite (data_url_parts _ _ Hmedia). cbn [lookup list_lookup].
    eexists. split; [reflexivity|].
    cbn [videoUrl error isLoading history setIsLoading addToHistory
           setVideoUrl setLoadingMessage prompt aspectRatio].
    rewrite Herr, Hhist, Hprompt, Haspect. cbn [setApiKeySelected prompt
      aspectRatio history]. repeat split.
  - intros s0. unfold historyItem_effect.
    cbn [vh_videoBase64 vh_prompt vh_aspectRatio].
    rewrite (encode_nonempty _ Hbytes). cbn [negb].
    rewrite base64ToBlob_of_encode. repeat split.
Qed.

End VideoFacts.

(** ** More on the voice tool: the speed instruction, generation, history *)

Section VoiceMore.
Import ErrorUtils VoiceGenerator.

Variable JSON_parse : string -> option value.
Variable API_KEY : string.

Local Abbreviation handleGenerate := (handleGenerate JSON_parse API_KEY).
Local Abbreviation can_generate := (can_generate API_KEY).

(** X17: the speed instruction is empty for the speed 1 exactly, one of the
    two instructions to slow down for a speed below 1 exactly, and one of the
    two instructions to hurry for a speed above 1 exactly. *)
Theorem getSpeedPrefix_cases (currentSpeed : Q) :
  (getSpeedPrefix currentSpeed = "" <-> currentSpeed == 1)%Q /\
  ((currentSpeed < 1)%Q <->
   getSpeedPrefix currentSpeed = "Speak very slowly. " \/
   getSpeedPrefix currentSpeed = "Speak slowly. ") /\
  ((1 < currentSpeed)%Q <->
   getSpeedPrefix currentSpeed = "Speak very quickly. " \/
   getSpeedPrefix currentSpeed = "Speak quickly. ").
Proof.
  unfold getSpeedPrefix, Qlt_bool.
  destruct (Qle_bool currentSpeed double_0_7) eqn:H1;
    [apply Qle_bool_iff in H1|apply not_true_iff_false in H1;
                               rewrite Qle_bool_iff in H1].
  2: destruct (Qle_bool 1 currentSpeed) eqn:H2;
    [apply Qle_bool_iff in H2|apply not_true_iff_false in H2;
                               rewrite Qle_bool_iff in H2]; cbn [negb].
  2: destruct (Qle_bool double_1_3 currentSpeed) eqn:H3;
    [apply Qle_bool_iff in H3|apply not_true_iff_false in H3;
                               rewrite Qle_bool_iff in H3].
  3: destruct (Qle_bool currentSpeed 1) eqn:H4;
    [apply Qle_bool_iff in H4|apply not_true_iff_false in H4;
                               rewrite Qle_bool_iff in H4]; cbn [negb].
  all: destruct currentSpeed as [n d];
    unfold Qle, Qlt, Qeq, double_0_7, double_1_3 in *; cbn [Qnum Qden] in *.
  all: repeat split; try discriminate; try lia;
    try (intros [H|H]; discriminate H); try (intros _; lia); auto.
Qed.

Lemma voice_clear_timerRef_fields s :
  text (clear_timerRef s) = text s /\
  selectedVoice (clear_timerRef s) = selectedVoice s /\
  speed (clear_timerRef s) = speed s /\
  isLoading (clear_timerRef s) = isLoading s /\
  error (clear_timerRef s) = error s /\
  audioUrl (clear_timerRef s) = audioUrl s /\
  isPlaying (clear_timerRef s) = isPlaying s /\
  history (clear_timerRef s) = history s.
Proof. unfold clear_timerRef. destruct (timerRef s); repeat split. Qed.

Lemma voice_arm_retry_fields d s :
  text (arm_retry d s) = text s /\
  selectedVoice (arm_retry d s) = selectedVoice s /\
  speed (arm_retry d s) = speed s /\
  isLoading (arm_retry d s) = isLoading s /\
  error (arm_retry d s) = error s /\
  audioUrl (arm_retry d s) = audioUrl s /\
  isPlaying (arm_retry d s) = isPlaying s /\
  history (arm_retry d s) = history s.
Proof.
  unfold arm_retry. destruct d as [[z|]|]; try (repeat split; fail).
  destruct (negb (z =? 0) && (0 <? z)); repeat split.
Qed.

Lemma voice_begin_generation_fields s :
  text (begin_generation s) = text s /\
  selectedVoice (begin_generation s) = selectedVoice s /\
  speed (begin_generation s) = speed s /\
  error (begin_generation s) = None /\
  audioUrl (begin_generation s) = None /\
  history (begin_generation s) = history s.
Proof.
  unfold begin_generation. cbv zeta.
  cbn [text selectedVoice speed error audioUrl history setIsPlaying
         setAudioUrl].
  destruct (voice_clear_timerRef_fields
              (setRetryAfter 0 (setError None (setIsLoading true s))))
    as (-> & -> & -> & _ & -> & _ & _ & ->).
  repeat split.
Qed.

(** The [catch] block keeps everything but the error and the countdown. *)
Lemma voice_catch_generation_fields s e s' :
  catch_generation JSON_parse s e = Ok s' ->
  text s' = text s /\ selectedVoice s' = selectedVoice s /\
  speed s' = speed s /\ audioUrl s' = audioUrl s /\ history s' = history s.
Proof.
  unfold catch_generation.
  destruct (handleGeminiError JSON_parse e) as [parsed|]; [|discriminate].
  cbn [mbind result_bind mret result_ret]. intros [= <-].
  match goal with
  | |- context [arm_retry ?d ?st] =>
      destruct (voice_arm_retry_fields d st) as (-> & -> & -> & _ & _ & -> & _ & ->)
  end.
  repeat split.
Qed.

Lemma voice_handleGenerate_started s settled :
  can_generate s ->
  handleGenerate s settled
  = match try_generation (begin_generation s) settled with
    | (s', None) => (setIsLoading false s', None)
    | (s', Some e) =>
        match catch_generation JSON_parse s' e with
        | Ok s'' => (setIsLoading false s'', None)
        | Throw e' => (setIsLoading false s', Some e')
        end
    end.
Proof.
  intros [Htext Hkey]. unfold VoiceGenerator.handleGenerate.
  now rewrite Htext, Hkey.
Qed.

(** X18: a generation that is answered with the base64 text of PCM bytes
    (at least one) saves the text, voice, speed and audio to the history and
    offers as the audio what [createWavBlob] makes of these bytes at 24 kHz
    mono, with no error and loading ended. *)
Theorem voice_handleGenerate_plays_wav (s : State) (b : list byte) :
  can_generate s -> b <> [] ->
  exists wavBlob s',
    AudioUtils.createWavBlob b 24000 1 = Ok wavBlob /\
    handleGenerate s (Fulfilled (Some (AudioUtils.encode b))) = (s', None) /\
    audioUrl s' = Some wavBlob /\
    error s' = None /\ isLoading s' = false /\
    history s'
    = history s
      ++ [mkVoiceHistory (text s) (selectedVoice s) (speed s)
            (AudioUtils.encode b)].
Proof.
  intros Hcan Hb. rewrite (voice_handleGenerate_started s _ Hcan).
  destruct (voice_begin_generation_fields s)
    as (Htext & Hvoice & Hspeed & Herr & _ & Hhist).
  unfold try_generation. rewrite (encode_nonempty b Hb). cbn [negb].
  rewrite decode_of_encode, createWavBlob_eq.
  eexists _, _. split; [reflexivity|]. split; [reflexivity|].
  cbn [audioUrl error isLoading history setIsLoading setAudioUrl
         addToHistory].
  now rewrite Herr, Hhist, Htext, Hvoice, Hspeed.
Qed.

(** X19: a generation that is answered with audio saves it to the history
    before decoding it, whether or not it can be decoded; the effect on
    [historyItem], run later on the saved item, restores the text, the voice
    and the speed and offers the same audio as the generation did (none when
    the audio cannot be decoded), with no error, loading ended and nothing
    playing. *)
Theorem voice_handleGenerate_history_replay (s : State) (audio : string) :
  can_generate s -> audio <> "" ->
  let s' := fst (handleGenerate s (Fulfilled (Some audio))) in
  let item := mkVoiceHistory (text s) (selectedVoice s) (speed s) audio in
  history s' = history s ++ [item] /\
  isLoading s' = false /\
  forall s0,
    let s1 := historyItem_effect (Some (VoiceItem item)) s0 in
    audioUrl s1 = audioUrl s' /\
    text s1 = text s /\ selectedVoice s1 = selectedVoice s /\
    speed s1 = speed s /\
    error s1 = None /\ isLoading s1 = false /\ isPlaying s1 = false.
Proof.
  intros Hcan Haudio. cbv zeta. rewrite (voice_handleGenerate_started s _ Hcan).
  destruct (voice_begin_generation_fields s)
    as (Htext & Hvoice & Hspeed & _ & Hurl & Hhist).
  apply String.eqb_neq in Haudio.
  unfold try_generation, historyItem_effect. cbv zeta.
  cbn [vh_text vh_voice vh_speed vh_audioBase64].
  rewrite Haudio. cbn [negb].
  rewrite Htext, Hvoice, Hspeed.
  destruct (AudioUtils.decode audio) as [audioBytes|e].
  - cbn [mbind result_bind]. rewrite createWavBlob_eq.
    cbn [fst history isLoading audioUrl setIsLoading setAudioUrl
           addToHistory].
    rewrite Hhist. repeat split.
  - cbn [mbind result_bind].
    match goal with
    | |- context [catch_generation _ ?st ?err] =>
        pose proof (voice_catch_generation_fields st err) as Hcatch;
        destruct (catch_generation JSON_parse st err) as [s2|e2]
    end.
    + destruct (Hcatch s2 eq_refl) as (_ & _ & _ & Hurl2 & Hhist2).
      cbn [fst history isLoading audioUrl setIsLoading].
      rewrite Hurl2, Hhist2.
      cbn [history audioUrl addToHistory]. rewrite Hurl, Hhist.
      repeat split.
    + cbn [fst history isLoading audioUrl setIsLoading addToHistory].
      rewrite Hurl, Hhist. repeat split.
Qed.

(** When the audio of a history item cannot be decoded, the effect on
    [historyItem] leaves no audio and no error on display: the message
    ["Could not load audio from history."] that its [catch] block sets is
    cleared by the [setError(null)] that follows in the same effect. *)
Lemma historyItem_effect_hides_failure (data : VoiceHistory) (s : State)
    (e : exn) :
  vh_audioBase64 data <> "" ->
  AudioUtils.decode (vh_audioBase64 data) = Throw e ->
  let s1 := historyItem_effect (Some (VoiceItem data)) s in
  error s1 = None /\ audioUrl s1 = None /\
  text s1 = vh_text data /\ isLoading s1 = false.
Proof.
  intros Haudio Hdecode. cbv zeta. unfold historyItem_effect. cbv zeta.
  apply String.eqb_neq in Haudio. rewrite Haudio, Hdecode.
  repeat split.
Qed.

Lemma voice_try_generation_fields s settled :
  let s' := fst (try_generation s settled) in
  text s' = text s /\ selectedVoice s' = selectedVoice s /\
  speed s' = speed s /\ isLoading s' = isLoading s /\
  (history s' = history s \/ exists item, history s' = history s ++ [item]).
Proof.
  cbv zeta. unfold try_generation.
  destruct settled as [[audio|]|reason]; [|now repeat split; left..].
  destruct (negb (String.eqb audio "")); [|now repeat split; left].
  destruct (AudioUtils.decode audio) as [bytes|e];
    [|now repeat split; right; eexists].
  destruct (AudioUtils.createWavBlob bytes 24000 1);
    now repeat split; right; eexists.
Qed.

(** X21: however the remote call settles and whatever the classifier does,
    [handleGenerate] leaves the text, the voice and the speed as they are
    and adds at most one item to the history; when its guards let it start,
    it ends with loading off, also when the classifier throws. *)
Theorem voice_handleGenerate_frame (s : State) (settled : Settled (option string)) :
  let s' := fst (handleGenerate s settled) in
  text s' = text s /\ selectedVoice s' = selectedVoice s /\
  speed s' = speed s /\
  (history s' = history s \/ exists item, history s' = history s ++ [item]) /\
  (can_generate s -> isLoading s' = false) /\
  (~ can_generate s -> history s' = history s /\ isLoading s' = isLoading s).
Proof.
  cbv zeta. unfold VoiceGenerator.handleGenerate, VoiceGenerator.can_generate.
  destruct (String.eqb (trim (text s)) "") eqn:Htext.
  { cbn. repeat split; auto. intros [? _]; discriminate. }
  destruct (String.eqb API_KEY "") eqn:Hkey.
  { cbn. repeat split; auto. intros [_ ?]; discriminate. }
  destruct (voice_begin_generation_fields s)
    as (Ht & Hv & Hsp & _ & _ & Hh).
  destruct (voice_try_generation_fields (begin_generation s) settled)
    as (Ht' & Hv' & Hsp' & _ & Hh').
  rewrite Ht, Hv, Hsp, Hh in *.
  destruct (try_generation (begin_generation s) settled) as [s1 [e|]];
    cbn [fst] in *.
  - pose proof (voice_catch_generation_fields s1 e) as Hcatch.
    destruct (catch_generation JSON_parse s1 e) as [s2|e2].
    + destruct (Hcatch s2 eq_refl) as (Ht2 & Hv2 & Hsp2 & _ & Hh2).
      cbn [fst text selectedVoice speed history isLoading setIsLoading].
      rewrite Ht2, Hv2, Hsp2, Hh2.
      do 4 (split; [assumption|]). split; [reflexivity|].
      intros Hno. exfalso. apply Hno. auto.
    + cbn [fst text selectedVoice speed history isLoading setIsLoading].
      do 4 (split; [assumption|]). split; [reflexivity|].
      intros Hno. exfalso. apply Hno. auto.
  - cbn [fst text selectedVoice speed history isLoading setIsLoading].
    do 4 (split; [assumption|]). split; [reflexivity|].
    intros Hno. exfalso. apply Hno. auto.
Qed.

End VoiceMore.

(** ** More on the to-do list: editing, the store, the texts *)

Section TrimFacts.

Lemma trim_end_idempotent s : trim_end (trim_end s) = trim_end s.
Proof.
  induction s as [|c rest IH]; [reflexivity|].
  cbn [trim_end].
  destruct (is_js_whitespace c && String.eqb (trim_end rest) "") eqn:Hcut;
    [reflexivity|].
  cbn [trim_end]. now rewrite IH, Hcut.
Qed.

Lemma skip_whitespace_head s :
  skip_whitespace s = "" \/
  exists c rest,
    skip_whitespace s = String c rest /\ is_js_whitespace c = false.
Proof.
  induction s as [|c rest IH]; [now left|].
  cbn [skip_whitespace]. destruct (is_js_whitespace c) eqn:Hc; [exact IH|].
  right. eauto.
Qed.

Lemma trim_idempotent s : trim (trim s) = trim s.
Proof.
  unfold trim at 2 3.
  destruct (skip_whitespace_head s) as [->|(c & rest & -> & Hc)];
    [reflexivity|].
  cbn [trim_end]. rewrite Hc. cbn [andb].
  unfold trim. cbn [skip_whitespace]. rewrite Hc.
  cbn [trim_end]. rewrite Hc. cbn [andb].
  now rewrite trim_end_idempotent.
Qed.

End TrimFacts.

Section TodoMore.
Import TodoManager.

Variable onNewList : TodoHistory -> string.

Local Abbreviation handleAddTask := (handleAddTask onNewList).
Local Abbreviation handleToggleComplete := (handleToggleComplete onNewList).
Local Abbreviation handleDeleteTask := (handleDeleteTask onNewList).
Local Abbreviation handleEditTask := (handleEditTask onNewList).
Local Abbreviation handleUpdateHistory := (handleUpdateHistory onNewList).
Local Abbreviation step := (step onNewList).
Local Abbreviation run := (run onNewList).
Local Abbreviation one_list := (one_list onNewList).

Lemma nonempty_true s : nonempty s = true <-> s <> "".
Proof.
  unfold nonempty. rewrite negb_true_iff. apply String.eqb_neq.
Qed.

Lemma nonempty_false s : nonempty s = false <-> s = "".
Proof.
  unfold nonempty. rewrite negb_false_iff. apply String.eqb_eq.
Qed.

(** The edit that goes through, and the edit that is dropped. *)
Lemma handleEditTask_valid s taskId :
  editingTaskId s = Some taskId -> taskId <> "" ->
  trim (editingTaskText s) <> "" ->
  let updatedTasks :=
    (fun task =>
       if String.eqb (id task) taskId
       then mkTodoItem (id task) (trim (editingTaskText s)) (completed task)
       else task) <$> tasks s in
  handleEditTask s
  = setEditingTaskText ""
      (setEditingTaskId None
         (handleUpdateHistory updatedTasks (setTasks updatedTasks s))).
Proof.
  intros Hid Hne Htext. cbv zeta. unfold TodoManager.handleEditTask.
  rewrite Hid. apply nonempty_true in Hne, Htext. now rewrite Hne, Htext.
Qed.

Lemma handleEditTask_dropped s :
  editingTaskId s = None \/ editingTaskId s = Some ""
  \/ trim (editingTaskText s) = "" ->
  handleEditTask s = setEditingTaskId None s.
Proof.
  unfold TodoManager.handleEditTask.
  intros [->| [->|Htext]]; [reflexivity|reflexivity|].
  apply nonempty_false in Htext. rewrite Htext.
  destruct (editingTaskId s) as [taskId|]; [|reflexivity].
  now rewrite andb_false_r.
Qed.

Lemma handleEditTask_decides s :
  (exists taskId,
     editingTaskId s = Some taskId /\ taskId <> ""
     /\ trim (editingTaskText s) <> "") \/
  (editingTaskId s = None \/ editingTaskId s = Some ""
   \/ trim (editingTaskText s) = "").
Proof.
  destruct (editingTaskId s) as [taskId|]; [|now right; left].
  destruct (String.eqb_spec taskId "") as [->|Hid]; [now right; right; left|].
  destruct (String.eqb_spec (trim (editingTaskText s)) "") as [Ht|Ht];
    [now right; right; right|].
  left. eauto.
Qed.

(** X22: submitting or leaving the editor always ends the editing. An edit
    with an id and a text that is not blank replaces, at every position, the
    text of a task with that id by the trimmed text and changes nothing
    else; an edit without an id or with a blank text changes no task and
    sends nothing to the store. The ids and the completed flags of the list
    are never changed. *)
Theorem handleEditTask_frame (s : State) :
  editingTaskId (handleEditTask s) = None /\
  task_ids (handleEditTask s) = task_ids s /\
  completed <$> tasks (handleEditTask s) = completed <$> tasks s /\
  (forall taskId,
     editingTaskId s = Some taskId -> taskId <> "" ->
     trim (editingTaskText s) <> "" ->
     editingTaskText (handleEditTask s) = "" /\
     forall (i : nat) (task : TodoItem),
       tasks s !! i = Some task ->
       tasks (handleEditTask s) !! i
       = Some (if String.eqb (id task) taskId
               then mkTodoItem (id task) (trim (editingTaskText s))
                      (completed task)
               else task)) /\
  (editingTaskId s = None \/ editingTaskId s = Some ""
   \/ trim (editingTaskText s) = "" ->
   tasks (handleEditTask s) = tasks s /\
   calls (handleEditTask s) = calls s /\
   editingTaskText (handleEditTask s) = editingTaskText s).
Proof.
  split; [|split; [apply handleEditTask_ids|split; [|split]]].
  - destruct (handleEditTask_decides s) as [(taskId & H1 & H2 & H3)|Hdrop].
    + now rewrite (handleEditTask_valid s taskId H1 H2 H3).
    + now rewrite (handleEditTask_dropped s Hdrop).
  - destruct (handleEditTask_decides s) as [(taskId & H1 & H2 & H3)|Hdrop].
    + rewrite (handleEditTask_valid s taskId H1 H2 H3). cbv zeta.
      cbn [tasks setEditingTaskText setEditingTaskId].
      rewrite handleUpdateHistory_tasks. cbn [tasks setTasks].
      rewrite <- list_fmap_compose. apply list_fmap_ext.
      intros i task _. cbn. now destruct (String.eqb (id task) taskId).
    + now rewrite (handleEditTask_dropped s Hdrop).
  - intros taskId H1 H2 H3.
    rewrite (handleEditTask_valid s taskId H1 H2 H3). cbv zeta.
    split; [reflexivity|]. intros i task Hi.
    cbn [tasks setEditingTaskText setEditingTaskId].
    rewrite handleUpdateHistory_tasks. cbn [tasks setTasks].
    now rewrite list_lookup_fmap, Hi.
  - intros Hdrop. now rewrite (handleEditTask_dropped s Hdrop).
Qed.

(** X23: ticking the box of a task twice gives back the list of tasks as it
    was. *)
Theorem handleToggleComplete_twice (s : State) (taskId : string) :
  tasks (handleToggleComplete taskId (handleToggleComplete taskId s))
  = tasks s.
Proof.
  rewrite !handleToggleComplete_tasks, <- list_fmap_compose.
  rewrite <- (list_fmap_id (tasks s)) at 2.
  apply list_fmap_ext. intros i [tid ttext tdone] _. cbn.
  destruct (String.eqb tid taskId) eqn:Heq; cbn; rewrite Heq; [|reflexivity].
  now rewrite negb_involutive.
Qed.

(** *** The calls to the store *)

Lemma one_list_ext s s' :
  calls s' = calls s -> currentListId s' = currentListId s ->
  one_list s -> one_list s'.
Proof. unfold TodoManager.one_list. now intros -> ->. Qed.

(** What [handleUpdateHistory] does to a state that has made the calls of
    one list. *)
Lemma handleUpdateHistory_one_list updated s :
  (forall data, onNewList data <> "") ->
  one_list s ->
  one_list (handleUpdateHistory updated s) /\
  (exists c,
     last (calls (handleUpdateHistory updated s)) = Some c /\
     call_tasks c = updated) /\
  tasks (handleUpdateHistory updated s) = tasks s.
Proof.
  intros Hmint Hone. split; [|split; [|apply handleUpdateHistory_tasks]].
  - unfold TodoManager.one_list, TodoManager.handleUpdateHistory in *.
    destruct (calls s) as [|[listId t|data] updates] eqn:Hcalls;
      [|contradiction|].
    + rewrite Hone. cbn [calls currentListId]. rewrite ?Hcalls. cbn.
      split; [reflexivity|constructor].
    + destruct Hone as [Hid Hupd]. rewrite Hid.
      pose proof (Hmint data) as Hne. apply nonempty_true in Hne.
      rewrite Hne. cbn [calls currentListId]. rewrite ?Hcalls. cbn.
      split; [reflexivity|]. apply Forall_app. split; [exact Hupd|].
      apply Forall_singleton. eauto.
  - unfold TodoManager.handleUpdateHistory.
    destruct (currentListId s) as [listId|]; [destruct (nonempty listId)|];
      cbn [calls]; rewrite last_snoc; eexists; split; reflexivity.
Qed.

(** The calls are those of one list, and the last of them, if there is one,
    carries the tasks of the state; before the first call the tasks are those
    of the start. *)
Lemma step_one_list start s ev :
  (forall data, onNewList data <> "") ->
  one_list s /\
  (calls s = [] -> tasks s = start) /\
  (forall c, last (calls s) = Some c -> call_tasks c = tasks s) ->
  one_list (step s ev) /\
  (calls (step s ev) = [] -> tasks (step s ev) = start) /\
  (forall c, last (calls (step s ev)) = Some c ->
             call_tasks c = tasks (step s ev)).
Proof.
  intros Hmint (Hone & Hstart & Hsync).
  assert (Hupdate : forall updated s1,
             one_list s1 -> tasks s1 = updated ->
             one_list (handleUpdateHistory updated s1) /\
             (calls (handleUpdateHistory updated s1) = [] ->
              tasks (handleUpdateHistory updated s1) = start) /\
             (forall c, last (calls (handleUpdateHistory updated s1)) = Some c ->
                        call_tasks c = tasks (handleUpdateHistory updated s1))).
  { intros updated s1 Hone1 Htasks.
    destruct (handleUpdateHistory_one_list updated s1 Hmint Hone1)
      as (Hone' & (c & Hlast & Hc) & Htasks').
    split; [exact Hone'|]. split.
    - intros Hnil. rewrite Hnil in Hlast. discriminate.
    - intros c' Hc'. rewrite Hlast in Hc'. injection Hc' as <-.
      now rewrite Htasks', Htasks. }
  destruct ev as [text|now|taskId|taskId|task|text|]; cbn [TodoManager.step].
  - auto.
  - unfold TodoManager.handleAddTask.
    destruct (negb (nonempty (trim (newTaskText s)))); [auto|].
    cbv zeta. apply Hupdate; [|reflexivity].
    now apply (one_list_ext s).
  - unfold TodoManager.handleToggleComplete. cbv zeta.
    apply Hupdate; [|reflexivity]. now apply (one_list_ext s).
  - unfold TodoManager.handleDeleteTask. cbv zeta.
    apply Hupdate; [|reflexivity]. now apply (one_list_ext s).
  - auto.
  - auto.
  - destruct (handleEditTask_decides s) as [(taskId & H1 & H2 & H3)|Hdrop].
    + rewrite (handleEditTask_valid s taskId H1 H2 H3). cbv zeta.
      match goal with
      | |- context [handleUpdateHistory ?u ?s1] =>
          destruct (Hupdate u s1) as (Ho & Hs & Hl);
            [now apply (one_list_ext s)|reflexivity|]
      end.
      auto.
    + rewrite (handleEditTask_dropped s Hdrop). auto.
Qed.

Lemma run_keeps_one_list first events :
  (forall data, onNewList data <> "") ->
  forall s,
    one_list s /\
    (calls s = [] -> tasks s = first) /\
    (forall c, last (calls s) = Some c -> call_tasks c = tasks s) ->
    one_list (run events s) /\
    (calls (run events s) = [] -> tasks (run events s) = first) /\
    (forall c, last (calls (run events s)) = Some c ->
               call_tasks c = tasks (run events s)).
Proof.
  intros Hmint. unfold TodoManager.run.
  induction events as [|ev events IH]; intros s Hinv; [exact Hinv|].
  cbn [foldl]. apply IH. now apply step_one_list.
Qed.

(** X24: when the parent names every list it creates with an id that is not
    empty, a component that starts without a list and without calls makes,
    over any run of user events, the calls of one list: nothing before the
    first change, then one creation, then only updates of the list created,
    whose id [currentListId] holds. The last call always carries the tasks
    on display, and before the first call the tasks are those of the
    start. *)
Theorem run_one_list (start : State) (events : list Event) :
  (forall data, onNewList data <> "") ->
  currentListId start = None -> calls start = [] ->
  one_list (run events start) /\
  (calls (run events start) = [] -> tasks (run events start) = tasks start) /\
  (forall c, last (calls (run events start)) = Some c ->
             call_tasks c = tasks (run events start)).
Proof.
  intros Hmint Hid Hcalls. apply run_keeps_one_list; [exact Hmint|].
  unfold TodoManager.one_list. rewrite Hcalls. split; [exact Hid|].
  split; [reflexivity|]. intros c Hc. discriminate Hc.
Qed.

(** *** A list loaded from the history *)

Lemma handleUpdateHistory_bound listId updated s :
  listId <> "" -> currentListId s = Some listId ->
  handleUpdateHistory updated s
  = mkState (tasks s) (newTaskText s) (editingTaskId s) (editingTaskText s)
      (Some listId) (calls s ++ [UpdateList listId updated]).
Proof.
  intros Hne Hid. unfold TodoManager.handleUpdateHistory. rewrite Hid.
  apply nonempty_true in Hne. now rewrite Hne.
Qed.

Lemma step_bound listId first base s ev :
  listId <> "" ->
  (currentListId s = Some listId /\
   exists updates,
     calls s = base ++ updates /\
     Forall (fun c => exists t, c = UpdateList listId t) updates /\
     (updates = [] -> tasks s = first) /\
     (forall c, last updates = Some c -> call_tasks c = tasks s)) ->
  currentListId (step s ev) = Some listId /\
  exists updates,
    calls (step s ev) = base ++ updates /\
    Forall (fun c => exists t, c = UpdateList listId t) updates /\
    (updates = [] -> tasks (step s ev) = first) /\
    (forall c, last updates = Some c -> call_tasks c = tasks (step s ev)).
Proof.
  intros Hne (Hid & updates & Hcalls & Hupd & Hfirst & Hsync).
  assert (Hkeep : forall s',
             currentListId s' = currentListId s -> calls s' = calls s ->
             tasks s' = tasks s ->
             currentListId s' = Some listId /\
             exists updates,
               calls s' = base ++ updates /\
               Forall (fun c => exists t, c = UpdateList listId t) updates /\
               (updates = [] -> tasks s' = first) /\
               (forall c, last updates = Some c -> call_tasks c = tasks s')).
  { intros s' -> -> ->. split; [exact Hid|]. exists updates. auto. }
  assert (Hupdate : forall updated s1,
             currentListId s1 = Some listId -> calls s1 = calls s ->
             tasks s1 = updated ->
             currentListId (handleUpdateHistory updated s1) = Some listId /\
             exists updates,
               calls (handleUpdateHistory updated s1) = base ++ updates /\
               Forall (fun c => exists t, c = UpdateList listId t) updates /\
               (updates = [] -> tasks (handleUpdateHistory updated s1) = first) /\
               (forall c, last updates = Some c ->
                          call_tasks c = tasks (handleUpdateHistory updated s1))).
  { intros updated s1 Hid1 Hcalls1 Htasks1.
    rewrite (handleUpdateHistory_bound listId updated s1 Hne Hid1).
    cbn [currentListId calls tasks]. split; [reflexivity|].
    exists (updates ++ [UpdateList listId updated]).
    rewrite Hcalls1, Hcalls, <- app_assoc. split; [reflexivity|].
    split; [apply Forall_app; split; [exact Hupd|]; apply Forall_singleton; eauto|].
    split.
    - intros Hnil. now apply app_eq_nil in Hnil as [_ Hnil].
    - intros c. rewrite last_snoc. intros [= <-]. now rewrite Htasks1. }
  destruct ev as [text|now|taskId|taskId|task|text|]; cbn [TodoManager.step].
  - now apply Hkeep.
  - unfold TodoManager.handleAddTask.
    destruct (negb (nonempty (trim (newTaskText s)))); [now apply Hkeep|].
    cbv zeta. now apply Hupdate.
  - unfold TodoManager.handleToggleComplete. cbv zeta. now apply Hupdate.
  - unfold TodoManager.handleDeleteTask. cbv zeta. now apply Hupdate.
  - now apply Hkeep.
  - now apply Hkeep.
  - destruct (handleEditTask_decides s) as [(taskId & H1 & H2 & H3)|Hdrop].
    + rewrite (handleEditTask_valid s taskId H1 H2 H3). cbv zeta.
      match goal with
      | |- context [handleUpdateHistory ?u ?s1] =>
          destruct (Hupdate u s1 Hid eq_refl eq_refl)
            as (Hid' & updates' & Hc' & Hu' & Hf' & Hs')
      end.
      split; [exact Hid'|]. exists updates'. auto.
    + rewrite (handleEditTask_dropped s Hdrop). now apply Hkeep.
Qed.

(** X27: after the effect has loaded a list of the history whose id is not
    empty, every run of user events sends to the store only updates of this
    list, never a creation; [currentListId] keeps the id, the last update
    carries the tasks on display, and as long as no update was sent the tasks
    are those of the list loaded. *)
Theorem todo_historyItem_effect_binds (s : State) (listId : string)
    (data : TodoHistory) (events : list Event) :
  listId <> "" ->
  let loaded := historyItem_effect (Some (TodoList listId data)) s in
  currentListId (run events loaded) = Some listId /\
  exists updates,
    calls (run events loaded) = calls s ++ updates /\
    Forall (fun c => exists t, c = UpdateList listId t) updates /\
    (updates = [] -> tasks (run events loaded) = todo_tasks data) /\
    (forall c, last updates = Some c ->
               call_tasks c = tasks (run events loaded)).
Proof.
  intros Hne. cbv zeta. unfold TodoManager.run.
  set (loaded := historyItem_effect (Some (TodoList listId data)) s).
  assert (Hinv : currentListId loaded = Some listId /\
                 exists updates,
                   calls loaded = calls s ++ updates /\
                   Forall (fun c => exists t, c = UpdateList listId t) updates /\
                   (updates = [] -> tasks loaded = todo_tasks data) /\
                   (forall c, last updates = Some c ->
                              call_tasks c = tasks loaded)).
  { split; [reflexivity|]. exists []. rewrite app_nil_r.
    split; [reflexivity|]. split; [constructor|]. split; [reflexivity|].
    intros c Hc. discriminate Hc. }
  clearbody loaded. revert loaded Hinv.
  induction events as [|ev events IH]; intros loaded Hinv; [exact Hinv|].
  cbn [foldl]. apply IH. now apply (step_bound listId).
Qed.

(** *** The texts of the tasks *)

Lemma Forall_filter_bool {A} (P : A -> Prop) (p : A -> bool) (l : list A) :
  Forall P l -> Forall P (List.filter p l).
Proof.
  induction 1 as [|x l Hx Hl IH]; cbn; [constructor|].
  destruct (p x); [constructor; assumption|exact IH].
Qed.

Lemma trimmed_kept s :
  trim s <> "" -> text_kept (mkTodoItem "" (trim s) false).
Proof. intros Hs. split; [apply trim_idempotent|exact Hs]. Qed.

Lemma step_texts s ev :
  Forall text_kept (tasks s) -> Forall text_kept (tasks (step s ev)).
Proof.
  intros Hall.
  destruct ev as [text|now|taskId|taskId|task|text|]; cbn [TodoManager.step];
    try exact Hall.
  - rewrite handleAddTask_tasks.
    destruct (nonempty (trim (newTaskText s))) eqn:Hne; [|exact Hall].
    apply Forall_app. split; [exact Hall|]. apply Forall_singleton.
    apply nonempty_true in Hne. split; [apply trim_idempotent|exact Hne].
  - rewrite handleToggleComplete_tasks. apply Forall_fmap.
    eapply Forall_impl; [exact Hall|]. intros task Hk. cbn.
    now destruct (String.eqb (id task) taskId).
  - rewrite handleDeleteTask_tasks. now apply Forall_filter_bool.
  - destruct (handleEditTask_decides s) as [(taskId & H1 & H2 & H3)|Hdrop].
    + rewrite (handleEditTask_valid s taskId H1 H2 H3). cbv zeta.
      cbn [tasks setEditingTaskText setEditingTaskId].
      rewrite handleUpdateHistory_tasks. cbn [tasks setTasks].
      apply Forall_fmap. eapply Forall_impl; [exact Hall|].
      intros task Hk. cbn.
      destruct (String.eqb (id task) taskId); [|exact Hk].
      split; [apply trim_idempotent|exact H3].
    + now rewrite (handleEditTask_dropped s Hdrop).
Qed.

(** X25: over any run of user events, the text of every task stays trimmed
    and not empty, when it is so at the start: adding and editing store
    trimmed texts and refuse blank ones. *)
Theorem run_texts_kept (start : State) (events : list Event) :
  Forall text_kept (tasks start) ->
  Forall text_kept (tasks (run events start)).
Proof.
  unfold TodoManager.run. revert start.
  induction events as [|ev events IH]; intros s Hall; [exact Hall|].
  cbn [foldl]. apply IH. now apply step_texts.
Qed.

Lemma same_id_same_task (l : list TodoItem) task task' :
  NoDup (id <$> l) -> task ∈ l -> task' ∈ l -> id task' = id task ->
  task' = task.
Proof.
  induction l as [|x l IH]; intros Hnd Hin Hin'; [now apply elem_of_nil in Hin|].
  rewrite fmap_cons in Hnd. apply NoDup_cons in Hnd as [Hx Hnd].
  apply elem_of_cons in Hin as [->|Hin];
    apply elem_of_cons in Hin' as [->|Hin']; intros Hid.
  - reflexivity.
  - exfalso. apply Hx. rewrite <- Hid. now apply list_elem_of_fmap_2.
  - exfalso. apply Hx. rewrite Hid. now apply list_elem_of_fmap_2.
  - now apply IH.
Qed.

(** X26: opening the editor of a task of the list and submitting it as it
    is leaves the list of tasks as it was and ends the editing, when the ids
    of the list are unique and the text of the task is trimmed and not
    empty. *)
Theorem startEditing_handleEditTask (s : State) (task : TodoItem) :
  NoDup (task_ids s) -> task ∈ tasks s -> text_kept task ->
  tasks (handleEditTask (startEditing task s)) = tasks s /\
  editingTaskId (handleEditTask (startEditing task s)) = None.
Proof.
  intros Hnd Hin [Htrim Htext].
  destruct (String.eqb_spec (id task) "") as [Hid|Hid].
  - rewrite handleEditTask_dropped; [now split|].
    right; left. cbn. now rewrite Hid.
  - rewrite (handleEditTask_valid (startEditing task s) (id task));
      [|reflexivity|exact Hid|].
    2: { unfold startEditing.
         cbn [editingTaskText setEditingTaskText]. now rewrite Htrim. }
    cbv zeta. split; [|reflexivity].
    cbn [tasks setEditingTaskText setEditingTaskId].
    rewrite handleUpdateHistory_tasks.
    unfold startEditing.
    cbn [tasks setTasks editingTaskText setEditingTaskText setEditingTaskId].
    rewrite Htrim. rewrite <- (list_fmap_id (tasks s)) at 2.
    apply list_fmap_ext. intros i task' Hi. cbn.
    destruct (String.eqb_spec (id task') (id task)) as [Heq|_];
      [|reflexivity].
    assert (task' = task) as ->.
    { apply (same_id_same_task (tasks s)); auto.
      now apply list_elem_of_lookup_2 in Hi. }
    now destruct task.
Qed.

End TodoMore.

(** ** More on the chat: what a submission consumes, and image turns *)

Section ChatMore.
Import ErrorUtils Chatbot.

Variable JSON_parse : string -> option value.
Variable API_KEY : string.
Variable onNewChat : ChatHistory -> result string.
Variable onUpdateChat :
  string -> list ChatMessage -> string -> bool -> bool -> result unit.
Variable generateContent : Settled ImageResponse.
Variable sendMessage : Settled TextResponse.

Local Abbreviation handleSubmit :=
  (handleSubmit JSON_parse API_KEY onNewChat onUpdateChat generateContent
     sendMessage).
Local Abbreviation try_create :=
  (try_create onNewChat onUpdateChat generateContent).
Local Abbreviation try_chat := (try_chat onNewChat onUpdateChat sendMessage).
Local Abbreviation submits := (submits API_KEY).

Lemma chat_clear_timerRef_fields s :
  input (clear_timerRef s) = input s /\
  imageFile (clear_timerRef s) = imageFile s /\
  error (clear_timerRef s) = error s /\
  currentChatId (clear_timerRef s) = currentChatId s /\
  studyMode (clear_timerRef s) = studyMode s /\
  researchMode (clear_timerRef s) = researchMode s.
Proof. unfold clear_timerRef. destruct (timerRef s); repeat split. Qed.






(** X29: an image turn ([/create <prompt>]) of a chat without an id, whose
    remote call returns parts with inline data and whose parent accepts the
    new chat, appends the user's message and a reply of the model that
    carries the first inline data as a PNG data URL and quotes the prompt,
    with no error; the id the parent returns for the new chat is not kept, so
    that [currentChatId] is still empty afterwards. *)
Theorem handleSubmit_create_image (s : State)
    (parts : list (option string)) (data newChatId : string) :
  submits s ->
  String.prefix "/create " (lower (trim (input s))) = true ->
  currentChatId s = None ->
  generateContent = Fulfilled (Some parts) ->
  List.find (fun part => bool_decide (is_Some part)) parts = Some (Some data) ->
  (forall chat, onNewChat chat = Ok newChatId) ->
  exists reply,
    messages (fst (handleSubmit s)) = messages s ++ [user_message s; reply] /\
    role reply = model /\
    imageUrl reply = Some ("data:image/png;base64," +:+ data) /\
    text reply
    = "Here is the image you requested for: " +:+ dquote
      +:+ substring_from 8 (trim (input s)) +:+ dquote /\
    error (fst (handleSubmit s)) = None /\
    currentChatId (fst (handleSubmit s)) = None /\
    snd (handleSubmit s) = None.
Proof.
  intros (Hin & Hload & Hretry & Hkey) Hcmd Hid Hgen Hfind Hnew.
  unfold Chatbot.handleSubmit.
  rewrite Hin, Hload, Hretry, Hkey. cbn [negb orb]. cbv zeta.
  cbn [input imageFile messages setError setRetryAfter].
  rewrite Hcmd. unfold Chatbot.try_create. cbv zeta.
  rewrite Hgen, Hfind.
  cbn [currentChatId setIsLoading setMessages setImageFile setInput].
  destruct (chat_clear_timerRef_fields (setRetryAfter 0 (setError None s)))
    as (_ & _ & Herr & Hcur & _ & _).
  rewrite Hcur. cbn [currentChatId setRetryAfter setError]. rewrite Hid.
  rewrite Hnew.
  eexists.
  cbn [fst snd messages error currentChatId setIsLoading setMessages
         setImageFile setInput role imageUrl text].
  rewrite Herr, Hcur. cbn [error currentChatId setRetryAfter setError].
  rewrite Hid. split; [now rewrite <- app_assoc|]. repeat split.
Qed.

End ChatMore.

(** ** The image generation *)

Section ImageFacts.
Import ErrorUtils ImageGenerator.

Variable JSON_parse : string -> option value.
Variable API_KEY : string.
Variable generateImages : Settled GenerateImagesResponse.

Local Abbreviation handleGenerate :=
  (handleGenerate JSON_parse API_KEY generateImages).
Local Abbreviation can_generate := (can_generate API_KEY).

Lemma image_clear_timerRef_fields s :
  prompt (clear_timerRef s) = prompt s /\
  aspectRatio (clear_timerRef s) = aspectRatio s /\
  error (clear_timerRef s) = error s /\
  imageUrl (clear_timerRef s) = imageUrl s /\
  retryAfter (clear_timerRef s) = retryAfter s /\
  history (clear_timerRef s) = history s.
Proof. unfold clear_timerRef. destruct (timerRef s); repeat split. Qed.

Lemma image_begin_generation_fields s :
  prompt (begin_generation s) = prompt s /\
  aspectRatio (begin_generation s) = aspectRatio s /\
  error (begin_generation s) = None /\
  imageUrl (begin_generation s) = None /\
  retryAfter (begin_generation s) = 0 /\
  history (begin_generation s) = history s.
Proof.
  unfold begin_generation. cbv zeta.
  destruct (image_clear_timerRef_fields
              (setRetryAfter 0
                 (setImageUrl None (setError None (setIsLoading true s)))))
    as (-> & -> & -> & -> & -> & ->).
  repeat split.
Qed.

Lemma image_handleGenerate_started s :
  can_generate s ->
  handleGenerate s
  = match try_generation generateImages (begin_generation s) with
    | (s', None) => (setIsLoading false s', None)
    | (s', Some e) =>
        match catch_generation JSON_parse s' e with
        | Ok s'' => (setIsLoading false s'', None)
        | Throw e' => (setIsLoading false s', Some e')
        end
    end.
Proof.
  intros [Hprompt Hkey]. unfold ImageGenerator.handleGenerate.
  now rewrite Hprompt, Hkey.
Qed.

(** X20: a generation that is answered with a first image that has its
    bytes shows the PNG data URL of these bytes and saves it to the history
    with the prompt and the aspect ratio, with no error and loading ended;
    the effect on [historyItem], run later on the saved item, restores the
    same URL, prompt and aspect ratio. *)
Theorem image_handleGenerate_replay (s : State)
    (response : GenerateImagesResponse) (imageBytes : string)
    (others : list GeneratedImage) :
  can_generate s ->
  generateImages = Fulfilled response ->
  generatedImages response
  = Some (mkGeneratedImage (Some (Some imageBytes)) :: others) ->
  let url := "data:image/png;base64," +:+ imageBytes in
  let item := mkImageHistory (prompt s) (aspectRatio s) url in
  handleGenerate s
  = (setIsLoading false
       (addToHistory item (setImageUrl (Some url) (begin_generation s))),
     None) /\
  imageUrl (fst (handleGenerate s)) = Some url /\
  error (fst (handleGenerate s)) = None /\
  isLoading (fst (handleGenerate s)) = false /\
  history (fst (handleGenerate s)) = history s ++ [item] /\
  (forall s0,
     let s1 := historyItem_effect (Some (ImageItem item)) s0 in
     imageUrl s1 = Some url /\ prompt s1 = prompt s /\
     aspectRatio s1 = aspectRatio s /\
     error s1 = None /\ isLoading s1 = false).
Proof.
  intros Hcan Hgen Himages. cbv zeta.
  rewrite (image_handleGenerate_started s Hcan).
  destruct (image_begin_generation_fields s)
    as (Hprompt & Haspect & Herr & _ & _ & Hhist).
  unfold try_generation. rewrite Hgen, Himages.
  cbn [image template_text]. cbv zeta.
  cbn [prompt aspectRatio setImageUrl fst imageUrl error isLoading history
         setIsLoading addToHistory].
  rewrite Hprompt, Haspect, Herr, Hhist. repeat split.
Qed.


End ImageFacts.

(** ** The properties above at the sample inputs *)

Lemma blobToBase64_base64ToBlob_witness :
  AudioUtilsAsync.blobToBase64 mp4_reader three_bytes
  = Fulfilled (Some "AAEC") /\
  AudioUtils.base64ToBlob "AAEC" "video/mp4" = Ok three_bytes.
Proof.
  apply (blobToBase64_base64ToBlob mp4_reader three_bytes "video/mp4"
           "video/mp4").
  - compute_done.
  - reflexivity.
Defined.

Lemma decode_rejects_witness :
  AudioUtils.decode "AA!C" = Throw InvalidCharacterError /\
  AudioUtils.base64ToBlob "AA!C" "video/mp4" = Throw InvalidCharacterError.
Proof.
  apply (decode_rejects "AA!C" "video/mp4" "!"%char);
    [compute_done|reflexivity..].
Defined.

Lemma handleGeminiError_unwraps_witness :
  ErrorUtils.handleGeminiError JSON_rate_limit
    (ErrorUtils.VError rate_limit_text)
  = ErrorUtils.handleGeminiError JSON_rate_limit rate_limit_payload.
Proof.
  apply (handleGeminiError_unwraps JSON_rate_limit rate_limit_text
           [("error", ErrorUtils.VObj
                        [("code", ErrorUtils.VNum (ErrorUtils.Int 429))])]).
  - discriminate.
  - reflexivity.
  - reflexivity.
Defined.

Lemma handleGeminiError_flags_witness :
  ErrorUtils.quota_error (ErrorUtils.prop quota_error_5s "error") = true.
Proof.
  destruct (handleGeminiError_flags JSON_unused quota_error_5s
              (ErrorUtils.mkParsedError
                 "You've hit the API rate limit. Please try again in 5 seconds."
                 None (Some (ErrorUtils.Int 5)))
              eq_refl) as [Hretry _].
  apply Hretry. eexists. reflexivity.
Defined.

Lemma pollOperation_message_witness :
  exists r s,
    VideoGenerator.pollOperation done_on_third
      (VideoGenerator.mkOperation false None) ""
    = Some (r, s) /\
    VideoGenerator.loadingMessages !! (VideoGenerator.polls s mod 7)%nat
    = Some (VideoGenerator.loadingMessage s) /\
    VideoGenerator.polls s = 3%nat.
Proof.
  destruct (VideoGenerator.pollOperation done_on_third
              (VideoGenerator.mkOperation false None) "")
    as [[r s]|] eqn:Hrun; [|discriminate Hrun].
  exists r, s. split; [reflexivity|].
  destruct (pollOperation_message done_on_third _ _ r s Hrun)
    as (_ & _ & Hcycle).
  vm_compute in Hrun. injection Hrun as <- <-.
  split; [apply Hcycle; cbn; lia|reflexivity].
Defined.

Lemma video_handleGenerate_resets_key_witness :
  exists s',
    VideoGenerator.handleGenerate JSON_unused "key" (Some studio_with_key)
      (Rejected entity_not_found) never_done fetch_ok mp4_reader video_tool
    = Some (s', None) /\
    VideoGenerator.apiKeySelected s' = false.
Proof.
  destruct (video_handleGenerate_resets_key JSON_unused "key"
              (Some studio_with_key) (Rejected entity_not_found) never_done
              fetch_ok mp4_reader video_tool entity_not_found
              (ErrorUtils.mkParsedError
                 "Your API key appears to be invalid or is not configured for this feature. Please select a valid key and try again."
                 (Some true) None))
    as (s' & Hrun & Hkey & _); [try reflexivity..|].
  - split; [reflexivity|]. split; [|reflexivity].
    exists studio_with_key. split; reflexivity.
  - exists s'. split; [exact Hrun|exact Hkey].
Defined.


Lemma video_handleGenerate_saves_video_witness :
  exists s',
    VideoGenerator.handleGenerate JSON_unused "key" (Some studio_with_key)
      (Fulfilled video_ready) never_done fetch_ok mp4_reader video_tool
    = Some (s', None) /\
    VideoGenerator.vh_videoBase64 <$> VideoGenerator.history s'
    = [Some "AAEC"].
Proof.
  destruct (video_handleGenerate_saves_video JSON_unused "key"
              (Some studio_with_key) (Fulfilled video_ready) never_done
              fetch_ok mp4_reader video_tool video_ready video_ready
              (VideoGenerator.poll_start video_ready
                 "Warming up the AI director...")
              "https://example.invalid/v.mp4" "video/mp4"
              (VideoGenerator.mkResponse true "OK" (Fulfilled three_bytes))
              three_bytes)
    as [(s' & Hrun & _ & _ & _ & Hhist) _]; [try reflexivity..|].
  - split; [reflexivity|]. split; [|reflexivity].
    exists studio_with_key. split; reflexivity.
  - discriminate.
  - compute_done.
  - discriminate.
  - exists s'. split; [exact Hrun|]. now rewrite Hhist.
Defined.

Lemma voice_handleGenerate_plays_wav_witness :
  exists wavBlob s',
    AudioUtils.createWavBlob [x00; x01; x02] 24000 1 = Ok wavBlob /\
    VoiceGenerator.handleGenerate JSON_unused "key" voice_tool
      (Fulfilled (Some "AAEC"))
    = (s', None) /\
    VoiceGenerator.audioUrl s' = Some wavBlob.
Proof.
  destruct (voice_handleGenerate_plays_wav JSON_unused "key" voice_tool
              [x00; x01; x02])
    as (wavBlob & s' & Hwav & Hrun & Hurl & _).
  - split; reflexivity.
  - discriminate.
  - exists wavBlob, s'. split; [exact Hwav|]. split; [exact Hrun|exact Hurl].
Defined.

Lemma voice_handleGenerate_history_replay_witness :
  let s' :=
    fst (VoiceGenerator.handleGenerate JSON_unused "key" voice_tool
           (Fulfilled (Some "not base64!"))) in
  VoiceGenerator.vh_audioBase64 <$> VoiceGenerator.history s'
  = ["not base64!"] /\
  VoiceGenerator.isLoading s' = false.
Proof.
  cbv zeta.
  destruct (voice_handleGenerate_history_replay JSON_unused "key" voice_tool
              "not base64!")
    as (Hhist & Hload & _).
  - split; reflexivity.
  - discriminate.
  - split; [now rewrite Hhist|exact Hload].
Defined.

Lemma image_handleGenerate_replay_witness :
  ImageGenerator.imageUrl
    (fst (ImageGenerator.handleGenerate JSON_unused "key"
            (Fulfilled one_image) image_tool))
  = Some "data:image/png;base64,iVBORw0KGgo=".
Proof.
  destruct (image_handleGenerate_replay JSON_unused "key"
              (Fulfilled one_image) image_tool one_image "iVBORw0KGgo=" [])
    as (_ & Hurl & _); [try reflexivity..|].
  - split; reflexivity.
  - exact Hurl.
Defined.


Lemma run_one_list_witness :
  TodoManager.one_list one_list_store
    (TodoManager.run one_list_store a_morning no_list_yet).
Proof.
  apply (run_one_list one_list_store no_list_yet a_morning).
  - intros data. discriminate.
  - reflexivity.
  - reflexivity.
Defined.

Lemma run_texts_kept_witness :
  Forall TodoManager.text_kept
    (TodoManager.tasks (TodoManager.run one_list_store a_morning no_list_yet)).
Proof.
  apply (run_texts_kept one_list_store no_list_yet a_morning).
  constructor.
Defined.

Lemma startEditing_handleEditTask_witness :
  TodoManager.tasks
    (TodoManager.handleEditTask one_list_store
       (TodoManager.startEditing
          (TodoManager.mkTodoItem "task-1700000000500" "call home" true)
          two_tasks))
  = TodoManager.tasks two_tasks.
Proof.
  apply (startEditing_handleEditTask one_list_store two_tasks
           (TodoManager.mkTodoItem "task-1700000000500" "call home" true)).
  - compute_done.
  - apply (list_elem_of_lookup_2 _ 1%nat). reflexivity.
  - split; [reflexivity|discriminate].
Defined.

Lemma todo_historyItem_effect_binds_witness :
  TodoManager.currentListId
    (TodoManager.run one_list_store a_morning
       (TodoManager.historyItem_effect
          (Some (TodoManager.TodoList "list-7"
                   (TodoManager.mkTodoHistory "Chores" [])))
          no_list_yet))
  = Some "list-7".
Proof.
  apply (todo_historyItem_effect_binds one_list_store no_list_yet "list-7"
           (TodoManager.mkTodoHistory "Chores" []) a_morning).
  discriminate.
Defined.

Lemma handleSubmit_create_image_witness :
  exists reply,
    Chatbot.messages
      (fst (Chatbot.handleSubmit JSON_unused "key" parent_newChat
              parent_updateChat (Fulfilled (Some [None; Some "iVBORw0KGgo="]))
              (Rejected ErrorUtils.VNull) create_turn))
    = [Chatbot.mkChatMessage Chatbot.user "/create a red fox" None None; reply] /\
    Chatbot.imageUrl reply = Some "data:image/png;base64,iVBORw0KGgo=".
Proof.
  destruct (handleSubmit_create_image JSON_unused "key" parent_newChat
              parent_updateChat (Fulfilled (Some [None; Some "iVBORw0KGgo="]))
              (Rejected ErrorUtils.VNull) create_turn
              [None; Some "iVBORw0KGgo="] "iVBORw0KGgo=" "chat-1")
    as (reply & Hm & _ & Hurl & _); [try reflexivity..|].
  - repeat split.
  - exists reply. split; [exact Hm|exact Hurl].
Defined.
